(** * The raw JWT claim set of tink's Python [jwt] package

    A shallow embedding of [python/tink/jwt/_raw_jwt.py] (class [RawJwt],
    its helpers and the two factories re-exported by [jwt/__init__.py]),
    together with the parts of the Python standard library the module
    calls: [json.dumps], [json.loads], [copy.deepcopy] and the
    [datetime] conversions.

    Modelling conventions.
    - A Python [str] is the list of its code points ([list N]); JSON text
      is such a string.
    - A Python object is a [pyval]; dictionaries are association lists in
      insertion order.
    - A raising call returns [Err e], where [e] names the class of the
      exception raised.
    - A Python [float] held in a payload is the exact decimal its text
      denotes (digits and a power of ten).  The float of a timestamp,
      [t.timestamp()], is modelled with its binary64 rounding.
    - The limits of the interpreter are outside the model: [json.dumps],
      [json.loads] and [copy.deepcopy] raise [RecursionError] on values
      nested some hundreds of levels deep, and the conversion between an
      [int] and its text raises [ValueError] beyond 4300 digits, where
      the functions of the model return.  The properties about these
      calls are therefore stated for the calls that return, and for
      whatever exception they raise.
    - Mutable objects and aliasing are modelled in [Module Store]. *)

From Stdlib Require Import ZArith NArith Lia Ascii String.
From Stdlib Require Import DecimalN DecimalFacts.
From stdpp Require Import base list.

Local Open Scope N_scope.
Set Warnings "-register-all".

(** ** Exceptions and fallible computations *)

Inductive error : Type :=
| JwtInvalidError
| JSONDecodeError
| TypeError
| KeyError
| ValueError
| OverflowError
| RecursionError.

Inductive result (A : Type) : Type :=
| Ok (a : A)
| Err (e : error).
Arguments Ok {A} a.
Arguments Err {A} e.

Definition bind {A B} (c : result A) (k : A -> result B) : result B :=
  match c with
  | Ok a => k a
  | Err e => Err e
  end.

Notation "'let*' x ':=' c 'in' k" := (bind c (fun x => k))
  (at level 10, x pattern, c at level 100, k at level 200).

Definition is_ok {A} (r : result A) : bool :=
  match r with Ok _ => true | Err _ => false end.

(** ** Python strings *)

Definition pystr := list N.

(** The code points of an ASCII literal. *)
Definition text (s : string) : pystr :=
  map N_of_ascii (list_ascii_of_string s).

(** An ASCII literal between double quotes. *)
Definition quoted (s : string) : pystr := 34 :: text s ++ [34].

(** Code points lie in [range(0x110000)]. *)
Definition valid_str (s : pystr) : Prop := Forall (fun c => c < 0x110000) s.

Fixpoint str_eqb (a b : pystr) : bool :=
  match a, b with
  | [], [] => true
  | x :: a', y :: b' => (x =? y) && str_eqb a' b'
  | _, _ => false
  end.

Fixpoint startswith (s p : pystr) {struct p} : bool :=
  match p, s with
  | [], _ => true
  | y :: p', x :: s' => (x =? y) && startswith s' p'
  | _ :: _, [] => false
  end.

(** [p in s] for two strings: substring search. *)
Fixpoint str_contains (s p : pystr) : bool :=
  startswith s p ||
  match s with
  | [] => false
  | _ :: s' => str_contains s' p
  end.

(** ** Decimal digits

    A digit is a number below ten; [48 + d] is its character. *)

Definition is_digit (c : N) : bool := (48 <=? c) && (c <=? 57).

Definition digit_char (d : N) : N := 48 + d.
Definition digit_val (c : N) : N := c - 48.

Fixpoint digits_of_uint (u : Decimal.uint) : list N :=
  match u with
  | Decimal.Nil => []
  | Decimal.D0 u => 0 :: digits_of_uint u
  | Decimal.D1 u => 1 :: digits_of_uint u
  | Decimal.D2 u => 2 :: digits_of_uint u
  | Decimal.D3 u => 3 :: digits_of_uint u
  | Decimal.D4 u => 4 :: digits_of_uint u
  | Decimal.D5 u => 5 :: digits_of_uint u
  | Decimal.D6 u => 6 :: digits_of_uint u
  | Decimal.D7 u => 7 :: digits_of_uint u
  | Decimal.D8 u => 8 :: digits_of_uint u
  | Decimal.D9 u => 9 :: digits_of_uint u
  end.

Fixpoint uint_of_digits (ds : list N) : Decimal.uint :=
  match ds with
  | [] => Decimal.Nil
  | d :: ds' =>
      let u := uint_of_digits ds' in
      match d with
      | 0 => Decimal.D0 u | 1 => Decimal.D1 u | 2 => Decimal.D2 u | 3 => Decimal.D3 u | 4 => Decimal.D4 u
      | 5 => Decimal.D5 u | 6 => Decimal.D6 u | 7 => Decimal.D7 u | 8 => Decimal.D8 u | _ => Decimal.D9 u
      end
  end.

(** [int.__repr__] of a non-negative integer, as digits. *)
Definition digits_of_N (n : N) : list N := digits_of_uint (N.to_uint n).

(** [int(s)] on a string of digits. *)
Definition N_of_digits (ds : list N) : N := N.of_uint (uint_of_digits ds).

Definition digits_text (ds : list N) : pystr := map digit_char ds.

(** ** Python floats *)

Inductive pyfloat : Type :=
| FNan
| FInf (neg : bool)
| FFin (neg : bool) (ds : list N) (e : Z).

(** [FFin neg ds e] is the number [(-1)^neg * ds * 10^e], where [ds] is
    read as a decimal integer.  In a well-formed float [ds] has neither
    leading nor trailing zeros, and zero is [FFin neg [] 0] (the sign
    tells [0.0] from [-0.0]). *)
Definition valid_float (f : pyfloat) : Prop :=
  match f with
  | FFin _ ds e =>
      Forall (fun d => d < 10) ds /\
      match ds with
      | [] => e = 0%Z
      | d :: _ => d <> 0 /\ last ds <> Some 0
      end
  | _ => True
  end.

Fixpoint strip_zeros (ds : list N) : list N :=
  match ds with
  | 0 :: ds' => strip_zeros ds'
  | _ => ds
  end.

Definition zeros (n : nat) : list N := repeat 0 n.

(** [float(s)] for a literal with integer digits [ip], fraction digits
    [fp] and exponent [ex]. *)
Definition float_of_literal (neg : bool) (ip fp : list N) (ex : Z) : pyfloat :=
  let ds := strip_zeros (ip ++ fp) in
  let sd := rev (strip_zeros (rev ds)) in
  match sd with
  | [] => FFin neg [] 0
  | _ => FFin neg sd (ex - Z.of_nat (length fp)
                      + Z.of_nat (length ds - length sd))
  end.

(** The exponent of the [repr] of a float: a sign and at least two
    digits. *)
Definition exponent_text (x : Z) : pystr :=
  let ds := digits_of_N (Z.to_N (Z.abs x)) in
  (if (x <? 0)%Z then text "-" else text "+")
    ++ digits_text (match ds with [_] => 0 :: ds | _ => ds end).

(** [float.__repr__] on a finite float: the digits, in positional
    notation when the decimal point falls in [(-4, 16]] and in
    scientific notation otherwise. *)
Definition float_repr (neg : bool) (ds : list N) (e : Z) : pystr :=
  (if neg then text "-" else []) ++
  match ds with
  | [] => text "0.0"
  | d :: rest =>
      let k := Z.of_nat (length ds) in
      let decpt := (k + e)%Z in
      if ((decpt <=? -4) || (16 <? decpt))%Z then
        digit_char d ::
        (match rest with [] => [] | _ => text "." ++ digits_text rest end)
        ++ text "e" ++ exponent_text (decpt - 1)
      else if (decpt <=? 0)%Z then
        text "0." ++ digits_text (zeros (Z.to_nat (- decpt)) ++ ds)
      else if (k <=? decpt)%Z then
        digits_text (ds ++ zeros (Z.to_nat (decpt - k))) ++ text ".0"
      else
        digits_text (take (Z.to_nat decpt) ds) ++ text "."
          ++ digits_text (drop (Z.to_nat decpt) ds)
  end.

(** [json.encoder.floatstr] with [allow_nan=True]. *)
Definition floatstr (f : pyfloat) : pystr :=
  match f with
  | FNan => text "NaN"
  | FInf false => text "Infinity"
  | FInf true => text "-Infinity"
  | FFin neg ds e => float_repr neg ds e
  end.

(** [int.__repr__]. *)
Definition int_repr (z : Z) : pystr :=
  (if (z <? 0)%Z then text "-" else [])
    ++ digits_text (digits_of_N (Z.to_N (Z.abs z))).

(** ** String literals of JSON *)

Definition hex_char (x : N) : N := if x <? 10 then 48 + x else 87 + x.

(** ['{0:04x}'.format(n)] *)
Definition hex4 (n : N) : pystr :=
  [hex_char (n / 4096 mod 16); hex_char (n / 256 mod 16);
   hex_char (n / 16 mod 16); hex_char (n mod 16)].

Definition u_escape (n : N) : pystr := text "\u" ++ hex4 n.

(** One character under [ESCAPE_ASCII] and [ESCAPE_DCT] of
    [json.encoder]: the quote, the backslash and everything outside
    [' '..'~'] is escaped, code points above the BMP as a surrogate
    pair. *)
Definition escape_char (c : N) : pystr :=
  if c =? 34 then [92; 34]
  else if c =? 92 then text "\\"
  else if c =? 10 then text "\n"
  else if c =? 13 then text "\r"
  else if c =? 9 then text "\t"
  else if c =? 8 then text "\b"
  else if c =? 12 then text "\f"
  else if (32 <=? c) && (c <=? 126) then [c]
  else if c <? 0x10000 then u_escape c
  else
    let n := c - 0x10000 in
    u_escape (N.lor 0xd800 (N.land (N.shiftr n 10) 0x3ff))
      ++ u_escape (N.lor 0xdc00 (N.land n 0x3ff)).

(** [py_encode_basestring_ascii] *)
Definition encode_basestring_ascii (s : pystr) : pystr :=
  34 :: flat_map escape_char s ++ [34].

Definition hex_val (c : N) : option N :=
  if (48 <=? c) && (c <=? 57) then Some (c - 48)
  else if (97 <=? c) && (c <=? 102) then Some (c - 87)
  else if (65 <=? c) && (c <=? 70) then Some (c - 55)
  else None.

(** [_decode_uXXXX]: four hexadecimal digits. *)
Definition decode_uXXXX (a b c d : N) : option N :=
  match hex_val a, hex_val b, hex_val c, hex_val d with
  | Some x, Some y, Some z, Some w => Some (x * 4096 + y * 256 + z * 16 + w)
  | _, _, _, _ => None
  end.

Definition is_high_surrogate (c : N) : bool := (0xd800 <=? c) && (c <=? 0xdbff).
Definition is_low_surrogate (c : N) : bool := (0xdc00 <=? c) && (c <=? 0xdfff).

Definition join_surrogates (hi lo : N) : N :=
  0x10000 + N.lor (N.shiftl (hi - 0xd800) 10) (lo - 0xdc00).

Definition backslash_char (e : N) : option N :=
  if e =? 34 then Some 34
  else if e =? 92 then Some 92
  else if e =? 47 then Some 47
  else if e =? 98 then Some 8
  else if e =? 102 then Some 12
  else if e =? 110 then Some 10
  else if e =? 114 then Some 13
  else if e =? 116 then Some 9
  else None.

(** [scanstring] in strict mode, started after the opening quote:
    the decoded string and the text after the closing quote. *)
Fixpoint scanstring (s : pystr) : result (pystr * pystr) :=
  match s with
  | [] => Err JSONDecodeError
  | c :: s1 =>
      if c =? 34 then Ok ([], s1)
      else if c =? 92 then
        match s1 with
        | [] => Err JSONDecodeError
        | e :: s2 =>
            if e =? 117 then
              match s2 with
              | h1 :: h2 :: h3 :: h4 :: s3 =>
                  match decode_uXXXX h1 h2 h3 h4 with
                  | None => Err JSONDecodeError
                  | Some uni =>
                      let single :=
                        let* (r, rest) := scanstring s3 in Ok (uni :: r, rest) in
                      if is_high_surrogate uni then
                        match s3 with
                        | c1 :: c2 :: s4 =>
                            if (c1 =? 92) && (c2 =? 117) then
                              match s4 with
                              | g1 :: g2 :: g3 :: g4 :: s5 =>
                                  match decode_uXXXX g1 g2 g3 g4 with
                                  | None => Err JSONDecodeError
                                  | Some uni2 =>
                                      if is_low_surrogate uni2 then
                                        let* (r, rest) := scanstring s5 in
                                        Ok (join_surrogates uni uni2 :: r,
                                            rest)
                                      else single
                                  end
                              | _ => Err JSONDecodeError
                              end
                            else single
                        | _ => single
                        end
                      else single
                  end
              | _ => Err JSONDecodeError
              end
            else
              match backslash_char e with
              | None => Err JSONDecodeError
              | Some ch =>
                  let* (r, rest) := scanstring s2 in Ok (ch :: r, rest)
              end
        end
      else if c <? 32 then Err JSONDecodeError
      else let* (r, rest) := scanstring s1 in Ok (c :: r, rest)
  end.

(** ** Python objects *)

Inductive pyval : Type :=
| PNone
| PBool (b : bool)
| PInt (z : Z)
| PFloat (f : pyfloat)
| PStr (s : pystr)
| PList (l : list pyval)
| PTuple (l : list pyval)
| PDict (d : list (pyval * pyval))
| PObject (id : nat).
(* [PObject] is an instance of any other class: opaque to this module. *)

(** [isinstance(v, Text)], [isinstance(v, (int, float))] ([bool] is a
    subclass of [int]), [isinstance(v, list)], [isinstance(v, dict)]. *)
Definition is_Text (v : pyval) : bool :=
  match v with PStr _ => true | _ => false end.
Definition is_int_or_float (v : pyval) : bool :=
  match v with PBool _ | PInt _ | PFloat _ => true | _ => false end.
Definition is_list (v : pyval) : bool :=
  match v with PList _ => true | _ => false end.
Definition is_dict (v : pyval) : bool :=
  match v with PDict _ => true | _ => false end.

Definition is_None (v : pyval) : bool :=
  match v with PNone => true | _ => false end.

Definition is_empty {A} (l : list A) : bool :=
  match l with [] => true | _ => false end.

(** Truth value of an object, as tested by [if v:] and [not v]. *)
Definition truthy (v : pyval) : bool :=
  match v with
  | PNone => false
  | PBool b => b
  | PInt z => negb (z =? 0)%Z
  | PFloat (FFin _ [] _) => false
  | PFloat _ => true
  | PStr s => negb (is_empty s)
  | PList l | PTuple l => negb (is_empty l)
  | PDict d => negb (is_empty d)
  | PObject _ => true
  end.

(** *** Dictionaries with string keys *)

Definition key_is (k : pystr) (k' : pyval) : bool :=
  match k' with PStr s => str_eqb s k | _ => false end.

(** [d[k]] *)
Fixpoint dict_get (d : list (pyval * pyval)) (k : pystr) : option pyval :=
  match d with
  | [] => None
  | (k', v) :: d' => if key_is k k' then Some v else dict_get d' k
  end.

(** [d[k] = v]: an existing key keeps its position. *)
Fixpoint dict_set (d : list (pyval * pyval)) (k : pystr) (v : pyval)
  : list (pyval * pyval) :=
  match d with
  | [] => [(PStr k, v)]
  | (k', v') :: d' =>
      if key_is k k' then (k', v) :: d' else (k', v') :: dict_set d' k v
  end.

(** [dict(pairs)] *)
Definition dict_of_pairs (pairs : list (pystr * pyval)) : list (pyval * pyval) :=
  fold_left (fun d kv => dict_set d kv.1 kv.2) pairs [].

(** ** [json.dumps] with the default settings *)

Definition result_map {A B} (f : A -> result B) : list A -> result (list B) :=
  fix go l :=
    match l with
    | [] => Ok []
    | x :: l' => let* y := f x in let* ys := go l' in Ok (y :: ys)
    end.

(** [', '.join(chunks)] *)
Fixpoint join_items (chunks : list pystr) : pystr :=
  match chunks with
  | [] => []
  | [a] => a
  | a :: rest => a ++ text ", " ++ join_items rest
  end.

(** The text of a dictionary key; other key types raise. *)
Definition key_text (k : pyval) : result pystr :=
  match k with
  | PStr s => Ok s
  | PFloat f => Ok (floatstr f)
  | PBool true => Ok (text "true")
  | PBool false => Ok (text "false")
  | PNone => Ok (text "null")
  | PInt z => Ok (int_repr z)
  | _ => Err TypeError
  end.

Fixpoint encode (o : pyval) : result pystr :=
  match o with
  | PStr s => Ok (encode_basestring_ascii s)
  | PNone => Ok (text "null")
  | PBool true => Ok (text "true")
  | PBool false => Ok (text "false")
  | PInt z => Ok (int_repr z)
  | PFloat f => Ok (floatstr f)
  | PList l | PTuple l =>
      let* chunks := result_map encode l in
      Ok (text "[" ++ join_items chunks ++ text "]")
  | PDict d =>
      let* chunks :=
        result_map (fun kv =>
          let* k := key_text kv.1 in
          let* v := encode kv.2 in
          Ok (encode_basestring_ascii k ++ text ": " ++ v)) d in
      Ok (text "{" ++ join_items chunks ++ text "}")
  | PObject _ => Err TypeError
  end.

Definition json_dumps (o : pyval) : result pystr := encode o.

(** ** [json.loads] *)

Definition is_ws (c : N) : bool :=
  (c =? 32) || (c =? 9) || (c =? 10) || (c =? 13).

Fixpoint skip_ws (s : pystr) : pystr :=
  match s with
  | c :: s' => if is_ws c then skip_ws s' else s
  | [] => []
  end.

Fixpoint take_digits (s : pystr) : list N * pystr :=
  match s with
  | c :: s' =>
      if is_digit c then
        let (ds, r) := take_digits s' in (digit_val c :: ds, r)
      else ([], s)
  | [] => ([], [])
  end.

(** A number literal: sign, integer digits, fraction digits, exponent. *)
Record number_literal := {
  lit_neg : bool;
  lit_int : list N;
  lit_frac : option (list N);
  lit_exp : option Z
}.

(** [NUMBER_RE]: an optional minus sign, then [0] or a non-zero digit
    followed by digits; an optional fraction (a dot and at least one
    digit); an optional exponent ([e] or [E], an optional sign, at least
    one digit).  A group that does not match is left out. *)
Definition match_sign (s : pystr) : bool * pystr :=
  match s with
  | c :: s' => if c =? 45 then (true, s') else (false, s)
  | [] => (false, s)
  end.

Definition match_integer (s : pystr) : option (bool * list N * pystr) :=
  let (neg, s1) := match_sign s in
  match s1 with
  | c :: s2 =>
      if c =? 48 then Some (neg, [0], s2)
      else if is_digit c then
        let (ds, r) := take_digits s2 in Some (neg, digit_val c :: ds, r)
      else None
  | [] => None
  end.

Definition match_frac (s : pystr) : option (list N) * pystr :=
  match s with
  | c :: s1 =>
      if c =? 46 then
        match take_digits s1 with
        | ([], _) => (None, s)
        | (ds, r) => (Some ds, r)
        end
      else (None, s)
  | [] => (None, s)
  end.

Definition match_exp_sign (s : pystr) : bool * pystr :=
  match s with
  | c :: s' =>
      if c =? 45 then (true, s')
      else if c =? 43 then (false, s')
      else (false, s)
  | [] => (false, s)
  end.

Definition match_exp (s : pystr) : option Z * pystr :=
  match s with
  | c :: s1 =>
      if (c =? 101) || (c =? 69) then
        let (neg, s2) := match_exp_sign s1 in
        match take_digits s2 with
        | ([], _) => (None, s)
        | (ds, r) =>
            let n := Z.of_N (N_of_digits ds) in
            (Some (if neg then (- n)%Z else n), r)
        end
      else (None, s)
  | [] => (None, s)
  end.

Definition match_number (s : pystr) : option (number_literal * pystr) :=
  match match_integer s with
  | None => None
  | Some (neg, ip, r1) =>
      let (fp, r2) := match_frac r1 in
      let (ex, r3) := match_exp r2 in
      Some ({| lit_neg := neg; lit_int := ip; lit_frac := fp; lit_exp := ex |},
            r3)
  end.

(** [parse_float] when there is a fraction or an exponent, [parse_int]
    otherwise. *)
Definition number_value (l : number_literal) : pyval :=
  match lit_frac l, lit_exp l with
  | None, None =>
      let n := Z.of_N (N_of_digits (lit_int l)) in
      PInt (if lit_neg l then (- n)%Z else n)
  | fp, ex =>
      PFloat (float_of_literal (lit_neg l) (lit_int l)
                (default [] fp) (default 0%Z ex))
  end.

(** [scan_once], [JSONArray] and [JSONObject] of [json.decoder]; the
    first argument bounds the depth of the recursion. *)
Fixpoint scan_once (fuel : nat) (s : pystr) : result (pyval * pystr) :=
  match fuel with
  | O => Err RecursionError
  | S n =>
      match s with
      | [] => Err JSONDecodeError
      | c :: s1 =>
          if c =? 34 then
            let* (str, r) := scanstring s1 in Ok (PStr str, r)
          else if c =? 123 then
            match skip_ws s1 with
            | c' :: r =>
                if c' =? 125 then Ok (PDict [], r)
                else if c' =? 34 then
                  let* (pairs, r') := parse_members n r in
                  Ok (PDict (dict_of_pairs pairs), r')
                else Err JSONDecodeError
            | [] => Err JSONDecodeError
            end
          else if c =? 91 then
            if startswith (skip_ws s1) [93] then
              Ok (PList [], drop 1 (skip_ws s1))
            else
              let* (vs, r') := parse_items n (skip_ws s1) in Ok (PList vs, r')
          else if startswith s (text "null") then Ok (PNone, drop 4 s)
          else if startswith s (text "true") then Ok (PBool true, drop 4 s)
          else if startswith s (text "false") then Ok (PBool false, drop 5 s)
          else
            match match_number s with
            | Some (l, r) => Ok (number_value l, r)
            | None =>
                if startswith s (text "NaN") then Ok (PFloat FNan, drop 3 s)
                else if startswith s (text "Infinity") then
                  Ok (PFloat (FInf false), drop 8 s)
                else if startswith s (text "-Infinity") then
                  Ok (PFloat (FInf true), drop 9 s)
                else Err JSONDecodeError
            end
      end
  end

with parse_items (fuel : nat) (s : pystr) : result (list pyval * pystr) :=
  match fuel with
  | O => Err RecursionError
  | S n =>
      let* (v, r) := scan_once n s in
      match skip_ws r with
      | c :: r1 =>
          if c =? 93 then Ok ([v], r1)
          else if c =? 44 then
            let* (vs, r2) := parse_items n (skip_ws r1) in Ok (v :: vs, r2)
          else Err JSONDecodeError
      | [] => Err JSONDecodeError
      end
  end

with parse_members (fuel : nat) (s : pystr)
  : result (list (pystr * pyval) * pystr) :=
  match fuel with
  | O => Err RecursionError
  | S n =>
      let* (k, r) := scanstring s in
      if startswith (skip_ws r) [58] then
        let* (v, r2) := scan_once n (skip_ws (drop 1 (skip_ws r))) in
        match skip_ws r2 with
        | c :: r3 =>
            if c =? 125 then Ok ([(k, v)], r3)
            else if c =? 44 then
              if startswith (skip_ws r3) [34] then
                let* (ps, r5) := parse_members n (drop 1 (skip_ws r3)) in
                Ok ((k, v) :: ps, r5)
              else Err JSONDecodeError
            else Err JSONDecodeError
        | [] => Err JSONDecodeError
        end
      else Err JSONDecodeError
  end.

Definition json_loads (s : pystr) : result pyval :=
  if startswith s [0xfeff] then Err JSONDecodeError
  else
    let* (v, r) := scan_once (2 * length s + 2) (skip_ws s) in
    match skip_ws r with
    | [] => Ok v
    | _ => Err JSONDecodeError
    end.

(** ** [datetime]

    A [datetime] is its wall-clock reading, counted in microseconds from
    1970-01-01T00:00:00 on the same clock, and its [tzinfo]: [None] for a
    naive value, [Some off] for [datetime.timezone] with a fixed
    [utcoffset()] of [off] microseconds. *)

Record datetime := { wall_us : Z; tzinfo : option Z }.

Definition utc : Z := 0%Z.

(** [datetime.min] and [datetime.max] (years 1 to 9999). *)
Definition MIN_TIMESTAMP : Z := (-62135596800)%Z.
Definition MAX_TIMESTAMP : Z := 253402300799%Z.

Definition valid_datetime (t : datetime) : Prop :=
  (MIN_TIMESTAMP * 1000000 <= wall_us t <= MAX_TIMESTAMP * 1000000 + 999999)%Z /\
  match tzinfo t with
  | Some off => (-86400000000 < off < 86400000000)%Z
  | None => True
  end.

(** [t.timestamp()] of an aware [t] is [(t - _EPOCH).total_seconds()]:
    the float [us / 10**6] for this count [us] of microseconds. *)
Definition timestamp_us (t : datetime) (off : Z) : Z := (wall_us t - off)%Z.

(** Rounding [n / d] to the nearest integer, ties to even, for [0 < d]. *)
Definition round_half_even (n d : Z) : Z :=
  let q := (n / d)%Z in
  let r := (n mod d)%Z in
  if (2 * r <? d)%Z then q
  else if (d <? 2 * r)%Z then (q + 1)%Z
  else if Z.even q then q else (q + 1)%Z.

(** The binary exponent [e] of the quotient of two positive integers:
    [2^e <= a / b < 2^(e+1)]. *)
Definition ratio_exponent (a b : Z) : Z :=
  if (b <=? a)%Z then Z.log2 (a / b)
  else (- (Z.log2 ((b - 1) / a) + 1))%Z.

(** [int(a / b)] for integers [0 <= a] and [0 < b].  The true division
    of two integers is the binary64 number nearest to the quotient,
    ties to even: a mantissa [m] of 53 bits, for the value
    [m * 2^(-k)]; [int()] cuts that number to an integer. *)
Definition int_true_divide (a b : Z) : Z :=
  if (a =? 0)%Z then 0%Z
  else
    let k := (52 - ratio_exponent a b)%Z in
    if (0 <=? k)%Z then (round_half_even (a * 2 ^ k) b / 2 ^ k)%Z
    else (round_half_even a (b * 2 ^ (- k)) * 2 ^ (- k))%Z.

(** [int(x)] on the float [x = us / 10**6]: the quotient is rounded to
    binary64 and the float is cut toward zero. *)
Definition int_of_seconds (us : Z) : Z :=
  (Z.sgn us * int_true_divide (Z.abs us) 1000000)%Z.

(** The microseconds of a finite float, rounded half to even. *)
Definition float_us (neg : bool) (ds : list N) (e : Z) : Z :=
  let m := Z.of_N (N_of_digits ds) in
  let us :=
    if (0 <=? e + 6)%Z then (m * 10 ^ (e + 6))%Z
    else round_half_even m (10 ^ (- (e + 6)))%Z in
  if neg then (- us)%Z else us.

(** The instant [us] microseconds after the epoch, in UTC:
    [OverflowError] for seconds that do not fit the platform's
    [time_t], [ValueError] outside the years 1 to 9999.  (Far outside
    these years, where the C library gives up before the year is
    looked at, the exception is the platform's; the properties below
    stay within a day of the years 1 to 9999.) *)
Definition utc_of_us (us : Z) : result datetime :=
  let secs := (us / 1000000)%Z in
  if ((secs <? - 2 ^ 63) || (2 ^ 63 <=? secs))%Z then Err OverflowError
  else if ((secs <? MIN_TIMESTAMP) || (MAX_TIMESTAMP <? secs))%Z then
    Err ValueError
  else Ok {| wall_us := us; tzinfo := Some utc |}.

(** [datetime.datetime.fromtimestamp(timestamp, datetime.timezone.utc)] *)
Definition fromtimestamp_utc (timestamp : pyval) : result datetime :=
  match timestamp with
  | PInt z => utc_of_us (z * 1000000)
  | PBool b => utc_of_us (if b then 1000000 else 0)
  | PFloat FNan => Err ValueError
  | PFloat (FInf _) => Err OverflowError
  | PFloat (FFin neg ds e) => utc_of_us (float_us neg ds e)
  | _ => Err TypeError
  end.

(** * The module [_raw_jwt] *)

Definition _REGISTERED_NAMES : list pystr :=
  map text ["iss"; "sub"; "jti"; "aud"; "exp"; "nbf"; "iat"]%string.

Definition _from_datetime (t : datetime) : result Z :=
  match tzinfo t with
  | None => Err JwtInvalidError
  | Some off => Ok (int_of_seconds (timestamp_us t off))
  end.

Definition _to_datetime (timestamp : pyval) : result datetime :=
  fromtimestamp_utc timestamp.

(** [name in _REGISTERED_NAMES] *)
Definition in_registered (name : pyval) : bool :=
  match name with
  | PStr s => existsb (str_eqb s) _REGISTERED_NAMES
  | _ => false
  end.

Definition _validate_custom_claim_name (name : pyval) : result unit :=
  if in_registered name then Err JwtInvalidError else Ok tt.

(** ** Operations on the payload object

    [json.loads] may hand [__init__] any JSON value, so [in] and the
    subscript are those of the object's class. *)

(** [name in payload] *)
Definition py_contains (payload : pyval) (name : pystr) : result bool :=
  match payload with
  | PDict d => Ok (match dict_get d name with Some _ => true | None => false end)
  | PList l | PTuple l => Ok (existsb (key_is name) l)
  | PStr s => Ok (str_contains s name)
  | _ => Err TypeError
  end.

(** [payload[name]] *)
Definition py_getitem (payload : pyval) (name : pystr) : result pyval :=
  match payload with
  | PDict d =>
      match dict_get d name with
      | Some v => Ok v
      | None => Err KeyError
      end
  | _ => Err TypeError
  end.

(** [payload[name] = v] *)
Definition py_setitem (payload : pyval) (name : pystr) (v : pyval)
  : result pyval :=
  match payload with
  | PDict d => Ok (PDict (dict_set d name v))
  | _ => Err TypeError
  end.

(** ** Class [RawJwt] *)

Record RawJwt := { _payload : pyval }.

Definition _validate_string_claim (payload : pyval) (name : pystr)
  : result unit :=
  let* present := py_contains payload name in
  if present : bool then
    let* v := py_getitem payload name in
    if is_Text v then Ok tt else Err JwtInvalidError
  else Ok tt.

Definition _validate_number_claim (payload : pyval) (name : pystr)
  : result unit :=
  let* present := py_contains payload name in
  if present : bool then
    let* v := py_getitem payload name in
    if is_int_or_float v then Ok tt else Err JwtInvalidError
  else Ok tt.

(** Returns the payload, in which a string audience has been replaced by
    a one-element list. *)
Definition _validate_audience_claim (payload : pyval) : result pyval :=
  let* present := py_contains payload (text "aud") in
  if present : bool then
    let* audiences := py_getitem payload (text "aud") in
    if is_Text audiences then
      py_setitem payload (text "aud") (PList [audiences])
    else if negb (is_list audiences) || negb (truthy audiences) then
      Err JwtInvalidError
    else
      match audiences with
      | PList l =>
          if forallb is_Text l then Ok payload else Err JwtInvalidError
      | _ => Ok payload
      end
  else Ok payload.

Definition __init__ (payload : pyval) : result RawJwt :=
  let* _ := _validate_string_claim payload (text "iss") in
  let* _ := _validate_string_claim payload (text "sub") in
  let* _ := _validate_string_claim payload (text "jti") in
  let* _ := _validate_number_claim payload (text "exp") in
  let* _ := _validate_number_claim payload (text "nbf") in
  let* _ := _validate_number_claim payload (text "iat") in
  let* payload' := _validate_audience_claim payload in
  Ok {| _payload := payload' |}.

Definition has_issuer (self : RawJwt) : result bool :=
  py_contains (_payload self) (text "iss").
Definition issuer (self : RawJwt) : result pyval :=
  py_getitem (_payload self) (text "iss").

Definition has_subject (self : RawJwt) : result bool :=
  py_contains (_payload self) (text "sub").
Definition subject (self : RawJwt) : result pyval :=
  py_getitem (_payload self) (text "sub").

Definition has_audiences (self : RawJwt) : result bool :=
  py_contains (_payload self) (text "aud").

(** [list(x)] *)
Definition py_list (x : pyval) : result pyval :=
  match x with
  | PList l | PTuple l => Ok (PList l)
  | PStr s => Ok (PList (map (fun c => PStr [c]) s))
  | PDict d => Ok (PList (map fst d))
  | _ => Err TypeError
  end.

Definition audiences (self : RawJwt) : result pyval :=
  let* aud := py_getitem (_payload self) (text "aud") in py_list aud.

Definition has_jwt_id (self : RawJwt) : result bool :=
  py_contains (_payload self) (text "jti").
Definition jwt_id (self : RawJwt) : result pyval :=
  py_getitem (_payload self) (text "jti").

Definition has_expiration (self : RawJwt) : result bool :=
  py_contains (_payload self) (text "exp").
Definition expiration (self : RawJwt) : result datetime :=
  let* v := py_getitem (_payload self) (text "exp") in _to_datetime v.

Definition has_not_before (self : RawJwt) : result bool :=
  py_contains (_payload self) (text "nbf").
Definition not_before (self : RawJwt) : result datetime :=
  let* v := py_getitem (_payload self) (text "nbf") in _to_datetime v.

Definition has_issued_at (self : RawJwt) : result bool :=
  py_contains (_payload self) (text "iat").
Definition issued_at (self : RawJwt) : result datetime :=
  let* v := py_getitem (_payload self) (text "iat") in _to_datetime v.

(** On values, a deep copy is the value itself, when [copy.deepcopy]
    returns; object identity is the subject of [Module Store]. *)
Definition deepcopy (v : pyval) : pyval := v.

(** A shallow copy likewise. *)
Definition copy_copy (v : pyval) : pyval := v.

Definition custom_claim (self : RawJwt) (name : pystr) : result pyval :=
  let* _ := _validate_custom_claim_name (PStr name) in
  let* value := py_getitem (_payload self) name in
  if is_list value || is_dict value then Ok (deepcopy value) else Ok value.

Definition json_payload (self : RawJwt) : result pystr :=
  json_dumps (_payload self).

(** [RawJwt.custom_claim_names]: the keys of the payload that are not
    registered names.  The set is given by the list of its elements, in
    the order of the payload; [None] stands for the [AttributeError] of
    [self._payload.keys()] on a payload that is not a dictionary. *)
Definition custom_claim_names (self : RawJwt) : option (list pyval) :=
  match _payload self with
  | PDict d => Some (List.filter (fun n => negb (in_registered n)) (map fst d))
  | _ => None
  end.

(** The value stored for one custom claim. *)
Definition custom_claim_value (value : pyval) : result pyval :=
  match value with
  | PNone | PBool _ | PInt _ | PFloat _ | PStr _ => Ok value
  | PList _ => let* s := json_dumps value in json_loads s
  | PDict _ => let* s := json_dumps value in json_loads s
  | _ => Err JwtInvalidError
  end.

(** The loop of [create] over [custom_claims.items()]. *)
Fixpoint add_custom_claims (payload : list (pyval * pyval))
    (items : list (pyval * pyval)) : result (list (pyval * pyval)) :=
  match items with
  | [] => Ok payload
  | (name, value) :: rest =>
      let* _ := _validate_custom_claim_name name in
      match name with
      | PStr n =>
          let* stored := custom_claim_value value in
          add_custom_claims (dict_set payload n stored) rest
      | _ => Err JwtInvalidError
      end
  end.

Definition add_timestamp (payload : list (pyval * pyval)) (name : pystr)
    (t : option datetime) : result (list (pyval * pyval)) :=
  match t with
  | Some t => let* ts := _from_datetime t in Ok (dict_set payload name (PInt ts))
  | None => Ok payload
  end.

(** [RawJwt.create].  An argument left out is [PNone], [None] for the
    three instants, and the empty list for [custom_claims] (for which
    [None] and the empty mapping behave alike). *)
Definition create (issuer subject audiences jwt_id : pyval)
    (expiration not_before issued_at : option datetime)
    (custom_claims : list (pyval * pyval)) : result RawJwt :=
  let payload := [] in
  let payload :=
    if truthy issuer then dict_set payload (text "iss") issuer else payload in
  let payload :=
    if truthy subject then dict_set payload (text "sub") subject else payload in
  let payload :=
    if negb (is_None jwt_id) then dict_set payload (text "jti") jwt_id
    else payload in
  let payload :=
    if negb (is_None audiences) then
      dict_set payload (text "aud") (copy_copy audiences)
    else payload in
  let* payload := add_timestamp payload (text "exp") expiration in
  let* payload := add_timestamp payload (text "nbf") not_before in
  let* payload := add_timestamp payload (text "iat") issued_at in
  let* payload := add_custom_claims payload custom_claims in
  __init__ (PDict payload).

Definition from_json_payload (payload : pystr) : result RawJwt :=
  let* p := json_loads payload in __init__ p.

(** * The package [jwt] *)

Definition raw_jwt_from_json_payload (payload : pystr) : result RawJwt :=
  from_json_payload payload.

Definition new_raw_jwt (issuer subject audiences jwt_id : pyval)
    (expiration not_before issued_at : option datetime)
    (custom_claims : list (pyval * pyval)) : result RawJwt :=
  create issuer subject audiences jwt_id expiration not_before issued_at
    custom_claims.

(** * Objects with identity

    Lists and dictionaries are mutable objects: the values above tell
    what an object holds, the store below tells which object it is.  A
    [value] is an immutable scalar or a reference to an object of the
    store; the store is the list of all objects, a reference being an
    index into it. *)

Module Store.

Inductive value : Type :=
| VNone
| VBool (b : bool)
| VInt (z : Z)
| VFloat (f : pyfloat)
| VStr (s : pystr)
| VRef (l : nat).

Inductive object : Type :=
| OList (items : list value)
| ODict (items : list (pystr * value)).

Definition store := list object.

Definition refs_of_values (vs : list value) : list nat :=
  flat_map (fun v => match v with VRef l => [l] | _ => [] end) vs.

(** The objects an object refers to. *)
Definition refs_of (o : object) : list nat :=
  match o with
  | OList items => refs_of_values items
  | ODict items => refs_of_values (map snd items)
  end.

(** Building the objects of a JSON value, as [json.loads] does: every
    list and dictionary is a new object. *)
Fixpoint alloc (st : store) (v : pyval) : option (store * value) :=
  match v with
  | PNone => Some (st, VNone)
  | PBool b => Some (st, VBool b)
  | PInt z => Some (st, VInt z)
  | PFloat f => Some (st, VFloat f)
  | PStr s => Some (st, VStr s)
  | PList l =>
      match
        (fix go st l : option (store * list value) :=
           match l with
           | [] => Some (st, [])
           | x :: l' =>
               match alloc st x with
               | Some (st1, r) =>
                   match go st1 l' with
                   | Some (st2, rs) => Some (st2, r :: rs)
                   | None => None
                   end
               | None => None
               end
           end) st l
      with
      | Some (st1, rs) => Some (st1 ++ [OList rs], VRef (length st1))
      | None => None
      end
  | PDict d =>
      match
        (fix go st d : option (store * list (pystr * value)) :=
           match d with
           | [] => Some (st, [])
           | (PStr k, x) :: d' =>
               match alloc st x with
               | Some (st1, r) =>
                   match go st1 d' with
                   | Some (st2, rs) => Some (st2, (k, r) :: rs)
                   | None => None
                   end
               | None => None
               end
           | _ => None
           end) st d
      with
      | Some (st1, rs) => Some (st1 ++ [ODict rs], VRef (length st1))
      | None => None
      end
  | PTuple _ | PObject _ => None
  end.

Definition option_map_list {A B} (f : A -> option B)
  : list A -> option (list B) :=
  fix go l :=
    match l with
    | [] => Some []
    | x :: l' =>
        match f x, go l' with
        | Some y, Some ys => Some (y :: ys)
        | _, _ => None
        end
    end.

(** The value held by an object graph; [None] when the graph is deeper
    than [fuel] (in particular when it is circular). *)
Fixpoint read (fuel : nat) (st : store) (r : value) : option pyval :=
  match r with
  | VNone => Some PNone
  | VBool b => Some (PBool b)
  | VInt z => Some (PInt z)
  | VFloat f => Some (PFloat f)
  | VStr s => Some (PStr s)
  | VRef l =>
      match fuel with
      | O => None
      | S n =>
          match st !! l with
          | Some (OList items) =>
              option_map PList (option_map_list (read n st) items)
          | Some (ODict items) =>
              option_map PDict
                (option_map_list
                   (fun kv => option_map (fun x => (PStr kv.1, x))
                                         (read n st kv.2)) items)
          | None => None
          end
      end
  end.

(** [copy.deepcopy] of an object graph without sharing, when it
    returns: new objects with the same contents. *)
Definition deepcopy (st : store) (r : value) : option (store * value) :=
  match read (length st) st r with
  | Some v => alloc st v
  | None => None
  end.

Definition is_list_or_dict (r : value) : bool :=
  match r with VRef _ => true | _ => false end.

Fixpoint items_get (items : list (pystr * value)) (name : pystr)
  : option value :=
  match items with
  | [] => None
  | (k, v) :: items' => if str_eqb k name then Some v else items_get items' name
  end.

(** [self._payload[name]] *)
Definition getitem (st : store) (payload : value) (name : pystr)
  : result value :=
  match payload with
  | VRef l =>
      match st !! l with
      | Some (ODict items) =>
          match items_get items name with
          | Some v => Ok v
          | None => Err KeyError
          end
      | _ => Err TypeError
      end
  | _ => Err TypeError
  end.

(** [RawJwt.custom_claim] on a claim set whose [_payload] is the
    object [payload]: the new store and the returned reference. *)
Definition custom_claim (st : store) (payload : value) (name : pystr)
  : result (store * value) :=
  let* _ := _validate_custom_claim_name (PStr name) in
  let* v := getitem st payload name in
  if is_list_or_dict v then
    match deepcopy st v with
    | Some res => Ok res
    | None => Err RecursionError
    end
  else Ok (st, v).

(** [RawJwt.json_payload]; [json.dumps] raises [ValueError] on a
    circular structure. *)
Definition json_payload (st : store) (payload : value) : result pystr :=
  match read (length st) st payload with
  | Some v => json_dumps v
  | None => Err ValueError
  end.

(** [l] is an object that can be reached from [r]. *)
Inductive reachable (st : store) : value -> nat -> Prop :=
| reach_here l : reachable st (VRef l) l
| reach_next r l o l' :
    reachable st r l -> st !! l = Some o -> In l' (refs_of o) ->
    reachable st r l'.

Definition reach (st : store) (roots : list nat) (l : nat) : Prop :=
  exists r, In r roots /\ reachable st (VRef r) l.

(** What a caller holding the objects [roots] can do to the store:
    overwrite an object it can reach, or create a new one, in both
    cases with references to objects it can reach. *)
Inductive step : store * list nat -> store * list nat -> Prop :=
| step_write st roots l o :
    reach st roots l -> Forall (reach st roots) (refs_of o) ->
    step (st, roots) (<[l := o]> st, roots)
| step_new st roots o :
    Forall (reach st roots) (refs_of o) ->
    step (st, roots) (st ++ [o], length st :: roots).

Inductive steps : store * list nat -> store * list nat -> Prop :=
| steps_refl c : steps c c
| steps_cons c1 c2 c3 : step c1 c2 -> steps c2 c3 -> steps c1 c3.

End Store.

(** * The audiences as an object

    [RawJwt.audiences] is [list(self._payload['aud'])]: a new list
    object with the items of the stored one. *)

Module StoreAccess.

(** [list(x)]: a new list of the items of a list, of the keys of a
    dictionary or of the characters of a string.  A reference names an
    object of the store, so that the case [None] does not arise. *)
Definition py_list (st : Store.store) (x : Store.value)
  : result (Store.store * Store.value) :=
  match x with
  | Store.VRef l =>
      match st !! l with
      | Some (Store.OList items) =>
          Ok (st ++ [Store.OList items], Store.VRef (length st))
      | Some (Store.ODict items) =>
          Ok (st ++ [Store.OList (map (fun kv => Store.VStr kv.1) items)],
              Store.VRef (length st))
      | None => Err TypeError
      end
  | Store.VStr s =>
      Ok (st ++ [Store.OList (map (fun c => Store.VStr [c]) s)],
          Store.VRef (length st))
  | _ => Err TypeError
  end.

(** [RawJwt.audiences] on a claim set whose [_payload] is the object
    [payload]: the new store and the returned reference. *)
Definition audiences (st : Store.store) (payload : Store.value)
  : result (Store.store * Store.value) :=
  let* aud := Store.getitem st payload (text "aud") in py_list st aud.

End StoreAccess.

(** * Notions of the statements

    The predicates and functions in which the properties below are
    stated. *)

(** The registered entries of the dictionary [create] hands to
    [__init__], in terms of the arguments. *)
Definition timestamp_entry (t : option datetime) : option pyval :=
  match t with
  | Some t =>
      match _from_datetime t with
      | Ok z => Some (PInt z)
      | Err _ => None
      end
  | None => None
  end.

(** A claim set is built by one of the two factories. *)
Inductive built : RawJwt -> Prop :=
| built_create iss sub aud jti e n i cc jwt :
    create iss sub aud jti e n i cc = Ok jwt -> built jwt
| built_parse s jwt :
    from_json_payload s = Ok jwt -> built jwt.

Definition timestamp_names : list pystr :=
  map text ["exp"; "nbf"; "iat"]%string.

(** A number of whole seconds: an integer, or a float without
    fraction. *)
Definition whole_seconds (v : pyval) : Prop :=
  (exists z, v = PInt z) \/
  (exists neg ds e, v = PFloat (FFin neg ds e) /\ (0 <= e)%Z).

(** A build with one instant and nothing else. *)
Definition only_exp t := create PNone PNone PNone PNone (Some t) None None [].

Definition only_nbf t := create PNone PNone PNone PNone None (Some t) None [].

Definition only_iat t := create PNone PNone PNone PNone None None (Some t) [].

(** The instant [us] microseconds after the epoch, cut to the second
    toward the epoch, in UTC. *)
Definition utc_second (us : Z) : datetime :=
  {| wall_us := (us ÷ 1000000 * 1000000)%Z; tzinfo := Some utc |}.

(** An object of a class other than the built-in ones of the model:
    its truth value and its copy are that class's business. *)
Definition is_object (v : pyval) : bool :=
  match v with PObject _ => true | _ => false end.

(** The decoder returns less than it was given, and raises nothing but
    [JSONDecodeError] unless its fuel is short for the input. *)
Definition decoder_post {A} (need : nat) (fuel : nat) (s : pystr)
    (r : result (A * pystr)) : Prop :=
  match r with
  | Ok (_, rest) => (length rest < length s)%nat
  | Err e => e = JSONDecodeError \/ (e = RecursionError /\ (fuel < need)%nat)
  end.

(** What decoding makes of an encoded string: a high surrogate followed
    by a low one has become the code point of the pair. *)
Fixpoint merge_surrogates (s : pystr) : pystr :=
  match s with
  | [] => []
  | h :: t =>
      if is_high_surrogate h then
        match t with
        | l :: rest =>
            if is_low_surrogate l then
              join_surrogates h l :: merge_surrogates rest
            else h :: merge_surrogates t
        | [] => [h]
        end
      else h :: merge_surrogates t
  end.

Definition then_cons (c : N) (r : result (pystr * pystr))
  : result (pystr * pystr) :=
  let* (x, rest) := r in Ok (c :: x, rest).

(** The text [s] does not begin with the escape of a low surrogate. *)
Definition no_low_escape (s : pystr) : Prop :=
  match s with
  | c1 :: c2 :: s4 =>
      (c1 =? 92) && (c2 =? 117) = false \/
      exists g1 g2 g3 g4 s5 uni2,
        s4 = g1 :: g2 :: g3 :: g4 :: s5 /\
        decode_uXXXX g1 g2 g3 g4 = Some uni2 /\
        is_low_surrogate uni2 = false
  | _ => True
  end.

Inductive escape_shape (c : N) : Prop :=
| shape_backslash e :
    escape_char c = [92; e] -> (e =? 117) = false ->
    backslash_char e = Some c -> c < 55296 -> escape_shape c
| shape_literal :
    escape_char c = [c] -> (c =? 34) = false -> (c =? 92) = false ->
    (c <? 32) = false -> c < 55296 -> escape_shape c
| shape_u :
    escape_char c = u_escape c -> c < 65536 -> escape_shape c
| shape_pair hi lo :
    escape_char c = u_escape hi ++ u_escape lo ->
    is_high_surrogate hi = true -> is_low_surrogate lo = true ->
    join_surrogates hi lo = c -> 65536 <= c -> escape_shape c.

Definition not_digit_head (s : pystr) : Prop :=
  match s with [] => True | c :: _ => is_digit c = false end.

(** What may follow a number: nothing that would extend it. *)
Definition number_end (s : pystr) : Prop :=
  match s with
  | [] => True
  | c :: _ =>
      is_digit c = false /\ (c =? 46) = false /\
      (c =? 101) = false /\ (c =? 69) = false
  end.

Definition fold_and {A} (P : A -> Prop) (l : list A) : Prop :=
  fold_right (fun x acc => P x /\ acc) True l.

(** A well-formed Python value: code points and floats are. *)
Fixpoint valid_val (v : pyval) : Prop :=
  match v with
  | PStr s => valid_str s
  | PFloat f => valid_float f
  | PList l | PTuple l => fold_and valid_val l
  | PDict d => fold_and (fun kv => valid_val kv.1 /\ valid_val kv.2) d
  | _ => True
  end.

(** The string a dictionary key is written as. *)
Definition key_str (k : pyval) : pystr :=
  match key_text k with Ok t => t | Err _ => [] end.

(** What [json.loads(json.dumps(v))] is when [json.dumps] accepts [v]:
    tuples have become lists, keys strings (the last of equal keys
    winning), surrogate pairs code points. *)
Fixpoint canon (v : pyval) : pyval :=
  match v with
  | PStr s => PStr (merge_surrogates s)
  | PList l | PTuple l => PList (map canon l)
  | PDict d =>
      PDict (dict_of_pairs
               (map (fun kv => (merge_surrogates (key_str kv.1), canon kv.2)) d))
  | _ => v
  end.

(** A bound on the depth of recursion of the decoder on the text of a
    value. *)
Fixpoint size (v : pyval) : nat :=
  match v with
  | PList l | PTuple l => S (fold_right (fun x acc => S (size x) + acc)%nat 0%nat l)
  | PDict d => S (fold_right (fun kv acc => S (size kv.2) + acc)%nat 0%nat d)
  | _ => 1
  end.

(** Where a value begins: not at a blank and not at a closing
    bracket. *)
Definition starts_value (s : pystr) : Prop :=
  match s with
  | [] => False
  | c :: _ => is_ws c = false /\ (c =? 93) = false /\ c < 128
  end.

(** Where a value ends: at a comma or at a closing bracket or brace. *)
Definition delim (s : pystr) : Prop :=
  match s with
  | [] => True
  | c :: _ => c = 44 \/ c = 93 \/ c = 125
  end.

(** Texts of ASCII characters. *)
Definition ascii_str (s : pystr) : Prop := Forall (fun c => c < 128) s.

Definition items_size (l : list pyval) : nat :=
  fold_right (fun x acc => S (size x) + acc)%nat 0%nat l.

Definition members_size (d : list (pyval * pyval)) : nat :=
  fold_right (fun kv acc => S (size kv.2) + acc)%nat 0%nat d.

(** The text of one entry of a dictionary. *)
Definition encode_member (kv : pyval * pyval) : result pystr :=
  let* k := key_text kv.1 in
  let* v := encode kv.2 in
  Ok (encode_basestring_ascii k ++ text ": " ++ v).

(** The decoder gives back a value that was encoded. *)
Definition decodes (v : pyval) : Prop :=
  forall t, valid_val v -> encode v = Ok t ->
  forall n rest, (size v <= n)%nat -> delim rest ->
  scan_once n (t ++ rest) = Ok (canon v, rest).

(** The keys [json.dumps] accepts: [str], [int], [float], [bool] and
    [None]. *)
Definition is_key (k : pyval) : bool :=
  match k with
  | PNone | PBool _ | PInt _ | PFloat _ | PStr _ => true
  | _ => false
  end.

(** The values [json.dumps] accepts: no object of another class at any
    depth, and no key of another class. *)
Fixpoint encodable (v : pyval) : bool :=
  match v with
  | PList l | PTuple l => forallb encodable l
  | PDict d => forallb (fun kv => is_key kv.1 && encodable kv.2) d
  | PObject _ => false
  | _ => true
  end.

(** The classes [create] takes a custom claim value from. *)
Definition is_claim_type (v : pyval) : bool :=
  match v with PTuple _ | PObject _ => false | _ => true end.




(** The store [st2] holds the objects of [st] as they are. *)
Definition agree (st st2 : list Store.object) : Prop :=
  forall l, (l < length st)%nat -> st2 !! l = st !! l.

(** A reference into the objects from [n] on. *)
Definition in_region (n : nat) (r : Store.value) : Prop :=
  match r with Store.VRef l => (n <= l)%nat | _ => True end.

(** The objects from [n] on refer to one another only. *)
Definition region_closed (n : nat) (st : list Store.object) : Prop :=
  forall l o, (n <= l)%nat -> st !! l = Some o ->
  Forall (fun l' => (n <= l')%nat) (Store.refs_of o).




(** The caller of a claim set whose store was [st0] holds objects made
    after it only, so that the objects of [st0] are as they were. *)
Definition separated (st0 : list Store.object)
    (c : Store.store * list nat) : Prop :=
  agree st0 c.1 /\
  (length st0 <= length c.1)%nat /\
  Forall (fun l => (length st0 <= l)%nat) c.2 /\
  region_closed (length st0) c.1.

(** The values of JSON: no tuple and no object of another class, and
    the keys of a dictionary are strings, each once. *)
Fixpoint json_value (v : pyval) : Prop :=
  match v with
  | PList l => fold_and json_value l
  | PDict d =>
      fold_and (fun kv => is_Text kv.1 = true /\ json_value kv.2) d /\
      List.NoDup (map fst d)
  | PTuple _ | PObject _ => False
  | _ => True
  end.

(** What the decoder returns from a well-formed text: a well-formed
    value of JSON. *)
Definition sound (v : pyval) : Prop := json_value v /\ valid_val v.

Definition sound_entry (kv : pyval * pyval) : Prop :=
  (is_Text kv.1 = true /\ json_value kv.2) /\ (valid_val kv.1 /\ valid_val kv.2).

Definition decoded {A} (P : A -> Prop) (r : result (A * pystr)) : Prop :=
  match r with
  | Ok (a, rest) => P a /\ valid_str rest
  | Err _ => True
  end.

(** No high surrogate of the string is followed by a low surrogate. *)
Fixpoint no_surrogate_pair (s : pystr) : bool :=
  match s with
  | [] => true
  | h :: t =>
      negb (is_high_surrogate h &&
            match t with l :: _ => is_low_surrogate l | [] => false end)
      && no_surrogate_pair t
  end.

(** No string of the value, key or not, has such a pair. *)
Fixpoint plain (v : pyval) : Prop :=
  match v with
  | PStr s => no_surrogate_pair s = true
  | PList l | PTuple l => fold_and plain l
  | PDict d => fold_and (fun kv => plain kv.1 /\ plain kv.2) d
  | _ => True
  end.

(** An entry of a payload under construction: a string key and a
    well-formed value, which under a custom name is a value of JSON. *)
Definition entry_ok (kv : pyval * pyval) : Prop :=
  is_Text kv.1 = true /\ valid_val kv.1 /\ valid_val kv.2 /\
  (in_registered kv.1 = true \/ json_value kv.2).

Definition payload_ok (d : list (pyval * pyval)) : Prop :=
  Forall entry_ok d /\ List.NoDup (map fst d).

(** A claim set made by one of the two factories, from well-formed
    arguments. *)
Inductive constructed : RawJwt -> Prop :=
| constructed_create iss sub aud jti e n i cc jwt :
    valid_val iss -> valid_val sub -> valid_val aud -> valid_val jti ->
    Forall (fun kv : pyval * pyval => valid_val kv.1 /\ valid_val kv.2) cc ->
    create iss sub aud jti e n i cc = Ok jwt -> constructed jwt
| constructed_parse s jwt :
    valid_str s -> from_json_payload s = Ok jwt -> constructed jwt.

(** The exception of a subscript with a name that is not [in] the
    payload. *)
Definition absent_error (self : RawJwt) : error :=
  if is_dict (_payload self) then KeyError else TypeError.

(** [x is not None], for an optional instant. *)
Definition given (t : option datetime) : bool :=
  match t with Some _ => true | None => false end.

(** What a getter of an instant returns for the stored number [z] of
    seconds: the instant in UTC, or [ValueError] outside the years 1
    to 9999. *)
Definition instant_of_seconds (z : Z) : result datetime :=
  if ((MIN_TIMESTAMP <=? z) && (z <=? MAX_TIMESTAMP))%Z
  then Ok {| wall_us := z * 1000000; tzinfo := Some utc |}
  else Err ValueError.

(** * Properties *)

(** ** Fallible computations *)

Lemma bind_ok {A B} (c : result A) (k : A -> result B) b :
  bind c k = Ok b -> exists a, c = Ok a /\ k a = Ok b.
Proof. destruct c; simpl; eauto; discriminate. Qed.

Lemma bind_err {A B} (c : result A) (k : A -> result B) e :
  bind c k = Err e -> c = Err e \/ exists a, c = Ok a /\ k a = Err e.
Proof.
  destruct c; simpl; intros H; [right; eauto | left; congruence].
Qed.

(** Inverts successful binds among the hypotheses. *)
Ltac inv_ok :=
  repeat match goal with
  | H : bind _ _ = Ok _ |- _ =>
      let a := fresh "a" in
      let Ha := fresh "Ha" in
      apply bind_ok in H; destruct H as (a & Ha & H)
  | H : Ok _ = Ok _ |- _ => injection H as H
  | H : Err _ = Ok _ |- _ => discriminate H
  | H : (if ?b then Err _ else _) = Ok _ |- _ =>
      let E := fresh "E" in destruct b eqn:E; [discriminate H|]
  | H : (if ?b then _ else Err _) = Ok _ |- _ =>
      let E := fresh "E" in destruct b eqn:E; [|discriminate H]
  end.

(** ** Strings and dictionaries *)

Lemma str_eqb_eq a b : str_eqb a b = true <-> a = b.
Proof.
  revert b; induction a as [|x a IH]; intros [|y b]; simpl;
    try (split; (discriminate || reflexivity)).
  rewrite andb_true_iff, N.eqb_eq, IH. split.
  - intros [-> ->]; reflexivity.
  - intros [= -> ->]; auto.
Qed.

Lemma str_eqb_refl a : str_eqb a a = true.
Proof. apply str_eqb_eq; reflexivity. Qed.

Lemma str_eqb_neq a b : a <> b -> str_eqb a b = false.
Proof.
  intros H. destruct (str_eqb a b) eqn:E; [|reflexivity].
  apply str_eqb_eq in E. contradiction.
Qed.

Lemma str_eqb_sym a b : str_eqb a b = str_eqb b a.
Proof.
  destruct (str_eqb b a) eqn:E.
  - apply str_eqb_eq in E as ->. apply str_eqb_refl.
  - apply str_eqb_neq. intros ->. rewrite str_eqb_refl in E. discriminate.
Qed.

Lemma key_is_true k k' : key_is k k' = true <-> k' = PStr k.
Proof.
  destruct k'; simpl; try (split; [discriminate|intros [=]]).
  rewrite str_eqb_eq. split; [intros ->; reflexivity|intros [= ->]; reflexivity].
Qed.

Lemma dict_get_set d k v k2 :
  dict_get (dict_set d k v) k2 =
  if str_eqb k k2 then Some v else dict_get d k2.
Proof.
  induction d as [|[k' v'] d IH]; simpl.
  - reflexivity.
  - destruct (key_is k k') eqn:E; simpl.
    + apply key_is_true in E as ->. simpl.
      destruct (str_eqb k k2); reflexivity.
    + rewrite IH. destruct (key_is k2 k') eqn:E2; [|reflexivity].
      apply key_is_true in E2 as ->. simpl in E.
      rewrite str_eqb_sym, E. reflexivity.
Qed.

Lemma dict_get_set_eq d k v : dict_get (dict_set d k v) k = Some v.
Proof. rewrite dict_get_set, str_eqb_refl. reflexivity. Qed.

Lemma dict_get_set_ne d k v k2 :
  k <> k2 -> dict_get (dict_set d k v) k2 = dict_get d k2.
Proof. intros H. rewrite dict_get_set, str_eqb_neq; auto. Qed.

Lemma in_registered_iff k :
  in_registered (PStr k) = true <-> In k _REGISTERED_NAMES.
Proof.
  unfold in_registered. rewrite existsb_exists. split.
  - intros (x & Hx & E). apply str_eqb_eq in E as ->. exact Hx.
  - intros H. exists k. split; [exact H|apply str_eqb_refl].
Qed.

(** ** The validators on a dictionary *)

Lemma validate_string_dict d name :
  _validate_string_claim (PDict d) name =
  match dict_get d name with
  | Some v => if is_Text v then Ok tt else Err JwtInvalidError
  | None => Ok tt
  end.
Proof.
  unfold _validate_string_claim; simpl. destruct (dict_get d name); reflexivity.
Qed.

Lemma validate_number_dict d name :
  _validate_number_claim (PDict d) name =
  match dict_get d name with
  | Some v => if is_int_or_float v then Ok tt else Err JwtInvalidError
  | None => Ok tt
  end.
Proof.
  unfold _validate_number_claim; simpl. destruct (dict_get d name); reflexivity.
Qed.

Lemma validate_audience_dict d :
  _validate_audience_claim (PDict d) =
  match dict_get d (text "aud") with
  | None => Ok (PDict d)
  | Some (PStr s) => Ok (PDict (dict_set d (text "aud") (PList [PStr s])))
  | Some (PList l) =>
      if negb (is_empty l) && forallb is_Text l then Ok (PDict d)
      else Err JwtInvalidError
  | Some _ => Err JwtInvalidError
  end.
Proof.
  unfold _validate_audience_claim; simpl.
  destruct (dict_get d (text "aud")) as [[]|]; simpl; try reflexivity.
  destruct l; reflexivity.
Qed.

(** On a dictionary, [__init__] raises nothing but [JwtInvalidError]. *)
Lemma init_dict_err d e : __init__ (PDict d) = Err e -> e = JwtInvalidError.
Proof.
  unfold __init__.
  rewrite !validate_string_dict, !validate_number_dict, validate_audience_dict.
  repeat match goal with
  | |- context [dict_get d ?k] => destruct (dict_get d k) as [[]|]; simpl
  | |- context [if ?b then _ else _] => destruct b; simpl
  end; congruence.
Qed.

(** The payload of the object [__init__] builds from a dictionary: the
    dictionary itself, up to the normalisation of a string audience. *)
Lemma init_dict_ok d jwt :
  __init__ (PDict d) = Ok jwt ->
  (forall name, In name (map text ["iss"; "sub"; "jti"]%string) ->
     forall v, dict_get d name = Some v -> is_Text v = true) /\
  (forall name, In name (map text ["exp"; "nbf"; "iat"]%string) ->
     forall v, dict_get d name = Some v -> is_int_or_float v = true) /\
  _validate_audience_claim (PDict d) = Ok (_payload jwt).
Proof.
  unfold __init__. intros H. inv_ok. subst jwt. simpl.
  rewrite validate_string_dict in Ha, Ha0, Ha1.
  rewrite validate_number_dict in Ha2, Ha3, Ha4.
  split; [|split; [|assumption]].
  - intros name [<-|[<-|[<-|[]]]] v Hv;
      match goal with
      | H : context [dict_get d ?k], Hv : dict_get d ?k = _ |- _ =>
          rewrite Hv in H; destruct (is_Text v); [reflexivity|discriminate H]
      end.
  - intros name [<-|[<-|[<-|[]]]] v Hv;
      match goal with
      | H : context [dict_get d ?k], Hv : dict_get d ?k = _ |- _ =>
          rewrite Hv in H; destruct (is_int_or_float v);
          [reflexivity|discriminate H]
      end.
Qed.

(** ** The builder *)

Lemma dict_get_if (b : bool) d k v k2 :
  dict_get (if b then dict_set d k v else d) k2 =
  if b && str_eqb k k2 then Some v else dict_get d k2.
Proof. destruct b; simpl; [apply dict_get_set|reflexivity]. Qed.

Lemma add_custom_claims_get p items p' k :
  add_custom_claims p items = Ok p' ->
  In k _REGISTERED_NAMES ->
  dict_get p' k = dict_get p k.
Proof.
  revert p; induction items as [|[name value] items IH]; simpl; intros p H Hk.
  - congruence.
  - unfold _validate_custom_claim_name in H.
    destruct (in_registered name) eqn:E; [discriminate|]. simpl in H.
    destruct name; try discriminate. inv_ok.
    rewrite (IH _ H Hk). apply dict_get_set_ne. intros ->.
    apply in_registered_iff in Hk. congruence.
Qed.

Lemma add_timestamp_get p name t p' k :
  add_timestamp p name t = Ok p' ->
  dict_get p' k =
  match t with
  | Some t =>
      if str_eqb name k then option_map PInt
                               (match _from_datetime t with
                                | Ok z => Some z
                                | Err _ => None
                                end)
      else dict_get p k
  | None => dict_get p k
  end.
Proof.
  destruct t as [t|]; simpl; intros H; inv_ok; subst; [|reflexivity].
  rewrite Ha, dict_get_set. reflexivity.
Qed.

Lemma create_inv iss sub aud jti e n i cc jwt :
  create iss sub aud jti e n i cc = Ok jwt ->
  exists p,
    __init__ (PDict p) = Ok jwt /\
    dict_get p (text "iss") = (if truthy iss then Some iss else None) /\
    dict_get p (text "sub") = (if truthy sub then Some sub else None) /\
    dict_get p (text "jti") = (if is_None jti then None else Some jti) /\
    dict_get p (text "aud") = (if is_None aud then None else Some aud) /\
    dict_get p (text "exp") = timestamp_entry e /\
    dict_get p (text "nbf") = timestamp_entry n /\
    dict_get p (text "iat") = timestamp_entry i.
Proof.
  unfold create. intros H. inv_ok. exists a2. split; [exact H|].
  assert (R : forall k, In k _REGISTERED_NAMES ->
    dict_get a2 k = dict_get a1 k)
    by (intros; eapply add_custom_claims_get; eauto).
  pose proof (fun k => add_timestamp_get _ _ _ _ k Ha1) as G1.
  pose proof (fun k => add_timestamp_get _ _ _ _ k Ha0) as G0.
  pose proof (fun k => add_timestamp_get _ _ _ _ k Ha) as G.
  unfold timestamp_entry, copy_copy.
  repeat split; (rewrite R by (simpl; tauto));
    rewrite G1, ?G0, ?G, ?dict_get_if;
    destruct e, n, i; simpl; rewrite ?G1, ?G0, ?G, ?dict_get_if; simpl;
    repeat match goal with
    | |- context [_from_datetime ?t] => destruct (_from_datetime t); simpl
    | |- context [truthy ?v] => destruct (truthy v); simpl
    | |- context [is_None ?v] => destruct (is_None v); simpl
    end; reflexivity.
Qed.

(** ** What [__init__] accepts *)

Lemma init_dict_payload d jwt :
  __init__ (PDict d) = Ok jwt ->
  exists d',
    _payload jwt = PDict d' /\
    (forall k, k <> text "aud" -> dict_get d' k = dict_get d k) /\
    dict_get d' (text "aud") =
      match dict_get d (text "aud") with
      | Some (PStr s) => Some (PList [PStr s])
      | o => o
      end /\
    match dict_get d (text "aud") with
    | Some (PStr _) | None => True
    | Some (PList l) => l <> [] /\ forallb is_Text l = true
    | Some _ => False
    end.
Proof.
  intros H. apply init_dict_ok in H as (_ & _ & H).
  rewrite validate_audience_dict in H.
  destruct (dict_get d (text "aud")) as [v|] eqn:E.
  - destruct v; try discriminate H.
    + injection H as <-. eexists; split; [reflexivity|].
      split; [|split; [apply dict_get_set_eq|exact I]].
      intros k Hk. apply dict_get_set_ne. congruence.
    + destruct l as [|x l]; [discriminate H|].
      destruct (forallb is_Text (x :: l)) eqn:F; [|discriminate H].
      injection H as <-. exists d. rewrite E. repeat split; congruence.
  - injection H as <-. exists d. rewrite E. repeat split; congruence.
Qed.

Lemma getitem_not_dict p name :
  is_dict p = false -> py_getitem p name = Err TypeError.
Proof. destruct p; simpl; congruence. Qed.

Lemma validate_string_not_dict p name :
  is_dict p = false ->
  _validate_string_claim p name = Ok tt -> py_contains p name = Ok false.
Proof.
  intros Hp. unfold _validate_string_claim. rewrite getitem_not_dict by exact Hp.
  destruct (py_contains p name) as [[]|]; simpl; congruence.
Qed.

Lemma validate_number_not_dict p name :
  is_dict p = false ->
  _validate_number_claim p name = Ok tt -> py_contains p name = Ok false.
Proof.
  intros Hp. unfold _validate_number_claim. rewrite getitem_not_dict by exact Hp.
  destruct (py_contains p name) as [[]|]; simpl; congruence.
Qed.

(** A payload that is no dictionary is accepted when none of the
    registered names is [in] it, and is stored as it is. *)
Lemma init_not_dict p jwt :
  is_dict p = false ->
  __init__ p = Ok jwt ->
  _payload jwt = p /\
  forall name, In name _REGISTERED_NAMES -> py_contains p name = Ok false.
Proof.
  intros Hp H. unfold __init__ in H. inv_ok.
  destruct a, a0, a1, a2, a3, a4.
  apply validate_string_not_dict in Ha, Ha0, Ha1; try exact Hp.
  apply validate_number_not_dict in Ha2, Ha3, Ha4; try exact Hp.
  unfold _validate_audience_claim in Ha5.
  rewrite getitem_not_dict in Ha5 by exact Hp.
  destruct (py_contains p (text "aud")) as [[]|] eqn:E; try discriminate Ha5.
  simpl in Ha5. injection Ha5 as <-. subst jwt. split; [reflexivity|].
  intros name [<-|[<-|[<-|[<-|[<-|[<-|[<-|[]]]]]]]]; assumption.
Qed.

Lemma contains_dict d name :
  py_contains (PDict d) name =
  Ok (match dict_get d name with Some _ => true | None => false end).
Proof. reflexivity. Qed.

(** ** Claim sets in existence *)

(** When a registered name is [in] the payload of a claim set, the
    payload is a dictionary with an entry of that name. *)
Lemma built_contains jwt name :
  built jwt -> In name _REGISTERED_NAMES ->
  py_contains (_payload jwt) name = Ok true ->
  exists d v, _payload jwt = PDict d /\ dict_get d name = Some v.
Proof.
  intros B Hn Hc.
  assert (D : is_dict (_payload jwt) = true).
  { destruct B as [iss sub aud jti e n i cc jwt H|s jwt H].
    - apply create_inv in H as (p & H & _).
      apply init_dict_payload in H as (d' & -> & _). reflexivity.
    - unfold from_json_payload in H. inv_ok.
      destruct (is_dict a) eqn:D.
      + destruct a; try discriminate D.
        apply init_dict_payload in H as (d' & -> & _). reflexivity.
      + apply init_not_dict in H as [E H]; [|exact D].
        rewrite E in Hc. rewrite (H _ Hn) in Hc. discriminate Hc. }
  destruct (_payload jwt) as [| | | | | | |d|]; try discriminate D.
  rewrite contains_dict in Hc. exists d.
  destruct (dict_get d name) as [v|]; [eauto|discriminate Hc].
Qed.

(** ** Timestamps *)

Lemma timestamp_names_registered name :
  In name timestamp_names -> In name _REGISTERED_NAMES.
Proof. simpl. tauto. Qed.

(** C3, as stated, fails on the parse path: the payload
    [{"exp": 1.5}] is accepted and its [exp] is not a whole number of
    seconds. *)
Lemma C3_fractional_exp_accepted :
  exists jwt v,
    from_json_payload (text "{" ++ quoted "exp" ++ text ": 1.5}") = Ok jwt /\
    py_getitem (_payload jwt) (text "exp") = Ok v /\
    ~ whole_seconds v.
Proof.
  eexists _, _. split; [vm_compute; reflexivity|].
  split; [vm_compute; reflexivity|].
  intros [[z [=]]|(neg & ds & e & [= <- <- <-] & He)]. lia.
Qed.

(** C3 (amended).  In every claim set, whichever factory built it, an
    [exp], [nbf] or [iat] that is present is a number, that is an
    instance of [int] or [float], not necessarily whole; on the builder
    path it is an integer; and a dictionary in which one of the three is
    present and is not a number is rejected with [JwtInvalidError], by
    the builder and by the parser alike. *)
Theorem C3_timestamp_claims_are_numbers :
  (forall jwt name,
      built jwt -> In name timestamp_names ->
      py_contains (_payload jwt) name = Ok true ->
      exists v, py_getitem (_payload jwt) name = Ok v /\
                is_int_or_float v = true) /\
  (forall iss sub aud jti e n i cc jwt name,
      create iss sub aud jti e n i cc = Ok jwt -> In name timestamp_names ->
      py_contains (_payload jwt) name = Ok true ->
      exists z, py_getitem (_payload jwt) name = Ok (PInt z)) /\
  (forall d name v,
      In name timestamp_names -> dict_get d name = Some v ->
      is_int_or_float v = false ->
      __init__ (PDict d) = Err JwtInvalidError /\
      forall s, json_loads s = Ok (PDict d) ->
                from_json_payload s = Err JwtInvalidError).
Proof.
  split; [|split].
  - intros jwt name B Hn Hc.
    destruct (built_contains jwt name B (timestamp_names_registered _ Hn) Hc)
      as (d & v & Hd & Hv).
    exists v. rewrite Hd; simpl. rewrite Hv. split; [reflexivity|].
    assert (exists d0, __init__ (PDict d0) = Ok jwt /\ dict_get d0 name = Some v)
      as (d0 & H0 & Hv0).
    { destruct B as [iss sub aud jti e n i cc jwt H|s jwt H].
      - apply create_inv in H as (p & H & _).
        destruct (init_dict_payload _ _ H) as (d' & Hd' & Hk & _).
        exists p. split; [exact H|]. rewrite <- Hk.
        + congruence.
        + intros ->. simpl in Hn. clear -Hn.
          repeat (destruct Hn as [Hn|Hn]; [discriminate Hn|]). exact Hn.
      - unfold from_json_payload in H. inv_ok.
        destruct a; try (apply init_not_dict in H as [E _];
          [rewrite E in Hd; discriminate Hd|reflexivity]).
        destruct (init_dict_payload _ _ H) as (d' & Hd' & Hk & _).
        exists d0. split; [exact H|]. rewrite <- Hk.
        + congruence.
        + intros ->. simpl in Hn. clear -Hn.
          repeat (destruct Hn as [Hn|Hn]; [discriminate Hn|]). exact Hn. }
    apply init_dict_ok in H0 as (_ & H0 & _). eapply H0; eauto.
  - intros iss sub aud jti e n i cc jwt name H Hn Hc.
    destruct (built_contains jwt name (built_create _ _ _ _ _ _ _ _ _ H)
                (timestamp_names_registered _ Hn) Hc) as (d & v & Hd & Hv).
    apply create_inv in H as (p & H & _ & _ & _ & _ & He & Hnb & Hi).
    destruct (init_dict_payload _ _ H) as (d' & Hd' & Hk & _).
    rewrite Hd; simpl. rewrite Hv.
    assert (d' = d) as -> by congruence.
    assert (Hp : dict_get p name = Some v).
    { rewrite <- Hk; [exact Hv|]. intros ->. simpl in Hn. clear -Hn.
      repeat (destruct Hn as [Hn|Hn]; [discriminate Hn|]). exact Hn. }
    assert (T : forall t, timestamp_entry t = Some v -> exists z, v = PInt z).
    { intros [t|]; simpl; [|discriminate].
      destruct (_from_datetime t); [|discriminate]. intros [= <-]. eauto. }
    destruct Hn as [<-|[<-|[<-|[]]]];
      [rewrite He in Hp|rewrite Hnb in Hp|rewrite Hi in Hp];
      destruct (T _ Hp) as [z ->]; eauto.
  - intros d name v Hn Hv Hf.
    assert (R : __init__ (PDict d) = Err JwtInvalidError).
    { destruct (__init__ (PDict d)) as [jwt|e] eqn:E.
      - apply init_dict_ok in E as (_ & E & _).
        rewrite (E _ Hn _ Hv) in Hf. discriminate Hf.
      - apply init_dict_err in E as ->. reflexivity. }
    split; [exact R|]. intros s Hs. unfold from_json_payload.
    rewrite Hs. exact R.
Qed.

(** C3 at work: the float [exp] of a parsed payload is a number, and the
    payload [{"exp": "1"}] is rejected. *)
Lemma C3_timestamp_claims_are_numbers_witness :
  (exists v,
      py_getitem (PDict [(PStr (text "exp"), PFloat (FFin false [1; 5] (-1)))])
        (text "exp") = Ok v /\ is_int_or_float v = true) /\
  __init__ (PDict [(PStr (text "exp"), PStr (text "1"))]) = Err JwtInvalidError.
Proof.
  split.
  - apply (proj1 C3_timestamp_claims_are_numbers
             {| _payload :=
                 PDict [(PStr (text "exp"), PFloat (FFin false [1; 5] (-1)))] |}
             (text "exp")).
    + apply (built_parse (text "{" ++ quoted "exp" ++ text ": 1.5}")).
      vm_compute. reflexivity.
    + simpl. tauto.
    + reflexivity.
  - apply (proj2 (proj2 C3_timestamp_claims_are_numbers)
             _ (text "exp") (PStr (text "1"))).
    + simpl. tauto.
    + reflexivity.
    + reflexivity.
Defined.

(** ** Audiences *)

(** C4.  In every claim set, whichever factory built it, an [aud] that
    is present is a non-empty list of strings; a string audience is
    stored as the list of that one string, by the builder and by the
    parser; and a dictionary whose [aud] is neither a string nor a
    non-empty list of strings is rejected with [JwtInvalidError], so that
    neither factory returns a claim set for it. *)
Theorem C4_audience_invariant :
  (forall jwt,
      built jwt -> has_audiences jwt = Ok true ->
      exists l, py_getitem (_payload jwt) (text "aud") = Ok (PList l) /\
                l <> [] /\ Forall (fun v => is_Text v = true) l) /\
  (forall d s jwt,
      dict_get d (text "aud") = Some (PStr s) ->
      __init__ (PDict d) = Ok jwt ->
      audiences jwt = Ok (PList [PStr s])) /\
  (forall iss sub s jti e n i cc jwt,
      create iss sub (PStr s) jti e n i cc = Ok jwt ->
      has_audiences jwt = Ok true /\ audiences jwt = Ok (PList [PStr s])) /\
  (forall d v,
      dict_get d (text "aud") = Some v ->
      is_Text v = false ->
      (forall l, v = PList l -> l = [] \/ forallb is_Text l = false) ->
      __init__ (PDict d) = Err JwtInvalidError /\
      (forall s, json_loads s = Ok (PDict d) ->
                 from_json_payload s = Err JwtInvalidError)) /\
  (forall iss sub v jti e n i cc,
      is_None v = false ->
      is_Text v = false ->
      (forall l, v = PList l -> l = [] \/ forallb is_Text l = false) ->
      is_ok (create iss sub v jti e n i cc) = false).
Proof.
  assert (N : forall d s jwt,
    dict_get d (text "aud") = Some (PStr s) ->
    __init__ (PDict d) = Ok jwt ->
    has_audiences jwt = Ok true /\ audiences jwt = Ok (PList [PStr s])).
  { intros d s jwt Hs H.
    apply init_dict_payload in H as (d' & Hd' & _ & Ha & _).
    rewrite Hs in Ha. unfold has_audiences, audiences.
    rewrite Hd'; simpl. rewrite Ha. split; reflexivity. }
  assert (R : forall d v,
    dict_get d (text "aud") = Some v ->
    is_Text v = false ->
    (forall l, v = PList l -> l = [] \/ forallb is_Text l = false) ->
    __init__ (PDict d) = Err JwtInvalidError).
  { intros d v Hv Ht Hl.
    destruct (__init__ (PDict d)) as [jwt|e] eqn:E.
    - apply init_dict_payload in E as (d' & _ & _ & _ & E).
      rewrite Hv in E. destruct v; try contradiction; try discriminate Ht.
      destruct E as [E1 E2]. destruct (Hl l eq_refl); congruence.
    - apply init_dict_err in E as ->. reflexivity. }
  split; [|split; [|split; [|split]]].
  - intros jwt B Hc.
    assert (Hr : In (text "aud") _REGISTERED_NAMES) by (simpl; tauto).
    destruct (built_contains jwt _ B Hr Hc) as (d & v & Hd & Hv).
    assert (exists d0, __init__ (PDict d0) = Ok jwt) as (d0 & H0).
    { destruct B as [iss sub aud jti e n i cc jwt H|s jwt H].
      - apply create_inv in H as (p & H & _). eauto.
      - unfold from_json_payload in H. inv_ok.
        destruct a; try (apply init_not_dict in H as [E _];
          [rewrite E in Hd; discriminate Hd|reflexivity]).
        eauto. }
    apply init_dict_payload in H0 as (d' & Hd' & _ & Ha & Hok).
    assert (d' = d) as -> by congruence. rewrite Hv in Ha.
    rewrite Hd; simpl. rewrite Hv.
    destruct (dict_get d0 (text "aud")) as [[]|]; try contradiction;
      try discriminate Ha; injection Ha as ->.
    + exists [PStr s]. split; [reflexivity|]. split; [discriminate|].
      repeat constructor.
    + exists l. split; [reflexivity|]. destruct Hok as [Hne Hall].
      split; [exact Hne|]. apply List.Forall_forall. intros x Hx.
      rewrite forallb_forall in Hall. apply Hall. exact Hx.
  - intros d s jwt Hs H. apply (N d s jwt Hs H).
  - intros iss sub s jti e n i cc jwt H.
    apply create_inv in H as (p & H & _ & _ & _ & Ha & _).
    apply (N p s jwt Ha H).
  - intros d v Hv Ht Hl. pose proof (R d v Hv Ht Hl) as E.
    split; [exact E|]. intros s Hs. unfold from_json_payload.
    rewrite Hs. exact E.
  - intros iss sub v jti e n i cc Hn Ht Hl.
    destruct (create iss sub v jti e n i cc) as [jwt|] eqn:E; [|reflexivity].
    apply create_inv in E as (p & H & _ & _ & _ & Ha & _).
    rewrite Hn in Ha. rewrite (R p v Ha Ht Hl) in H. discriminate H.
Qed.

(** C4 at work: the audience ["example.com"] given as a string is read
    back as a list of one string, and an empty list of audiences is
    refused. *)
Lemma C4_audience_invariant_witness :
  (exists jwt,
      create PNone PNone (PStr (text "example.com")) PNone None None None []
        = Ok jwt /\
      has_audiences jwt = Ok true /\
      audiences jwt = Ok (PList [PStr (text "example.com")])) /\
  is_ok (create PNone PNone (PList []) PNone None None None []) = false.
Proof.
  split.
  - eexists. split; [vm_compute; reflexivity|].
    apply (proj1 (proj2 (proj2 C4_audience_invariant))
             PNone PNone (text "example.com") PNone None None None []).
    vm_compute. reflexivity.
  - apply (proj2 (proj2 (proj2 (proj2 C4_audience_invariant)))).
    + reflexivity.
    + reflexivity.
    + intros l [= <-]. left. reflexivity.
Defined.

(** ** Empty strings *)

(** C10.  An empty string as issuer or as subject is dropped: the build
    goes on as if the argument had been left out, and the claim set it
    returns has no issuer (no subject); an empty string as JWT id is
    stored.  The three builds with nothing but the empty string
    succeed. *)
Theorem C10_empty_issuer_subject_dropped_empty_jwt_id_kept :
  (forall sub aud jti e n i cc,
      create (PStr []) sub aud jti e n i cc
      = create PNone sub aud jti e n i cc) /\
  (forall iss aud jti e n i cc,
      create iss (PStr []) aud jti e n i cc
      = create iss PNone aud jti e n i cc) /\
  (forall sub aud jti e n i cc jwt,
      create (PStr []) sub aud jti e n i cc = Ok jwt ->
      has_issuer jwt = Ok false) /\
  (forall iss aud jti e n i cc jwt,
      create iss (PStr []) aud jti e n i cc = Ok jwt ->
      has_subject jwt = Ok false) /\
  (forall iss sub aud e n i cc jwt,
      create iss sub aud (PStr []) e n i cc = Ok jwt ->
      has_jwt_id jwt = Ok true /\ jwt_id jwt = Ok (PStr [])) /\
  create (PStr []) PNone PNone PNone None None None []
    = Ok {| _payload := PDict [] |} /\
  create PNone (PStr []) PNone PNone None None None []
    = Ok {| _payload := PDict [] |} /\
  create PNone PNone PNone (PStr []) None None None []
    = Ok {| _payload := PDict [(PStr (text "jti"), PStr [])] |}.
Proof.
  assert (G : forall p jwt k, k <> text "aud" ->
    __init__ (PDict p) = Ok jwt ->
    py_contains (_payload jwt) k
      = Ok (match dict_get p k with Some _ => true | None => false end) /\
    py_getitem (_payload jwt) k
      = match dict_get p k with Some v => Ok v | None => Err KeyError end).
  { intros p jwt k Hk H.
    apply init_dict_payload in H as (d' & -> & Hd & _).
    simpl. rewrite (Hd k Hk). split; reflexivity. }
  split; [reflexivity|]. split; [reflexivity|].
  split; [|split; [|split; [|repeat split; reflexivity]]].
  - intros sub aud jti e n i cc jwt H.
    apply create_inv in H as (p & H & Hi & _).
    destruct (G p jwt (text "iss") ltac:(discriminate) H) as [G1 _].
    unfold has_issuer. rewrite G1, Hi. reflexivity.
  - intros iss aud jti e n i cc jwt H.
    apply create_inv in H as (p & H & _ & Hs & _).
    destruct (G p jwt (text "sub") ltac:(discriminate) H) as [G1 _].
    unfold has_subject. rewrite G1, Hs. reflexivity.
  - intros iss sub aud e n i cc jwt H.
    apply create_inv in H as (p & H & _ & _ & Hj & _).
    destruct (G p jwt (text "jti") ltac:(discriminate) H) as [G1 G2].
    unfold has_jwt_id, jwt_id. rewrite G1, G2, Hj. split; reflexivity.
Qed.

(** C10 at work: with an issuer besides, the empty subject is absent and
    the empty JWT id present. *)
Lemma C10_empty_issuer_subject_dropped_empty_jwt_id_kept_witness :
  has_subject
    {| _payload := PDict [(PStr (text "iss"), PStr (text "me"));
                          (PStr (text "jti"), PStr [])] |} = Ok false /\
  has_jwt_id
    {| _payload := PDict [(PStr (text "iss"), PStr (text "me"));
                          (PStr (text "jti"), PStr [])] |} = Ok true.
Proof.
  split.
  - apply (proj1 (proj2 (proj2 (proj2
             C10_empty_issuer_subject_dropped_empty_jwt_id_kept)))
             (PStr (text "me")) PNone (PStr []) None None None []).
    vm_compute. reflexivity.
  - apply (proj1 (proj2 (proj2 (proj2 (proj2
             C10_empty_issuer_subject_dropped_empty_jwt_id_kept))))
             (PStr (text "me")) (PStr []) PNone None None None []).
    vm_compute. reflexivity.
Defined.

(** ** Instants *)

Lemma utc_of_whole_seconds z :
  (MIN_TIMESTAMP <= z <= MAX_TIMESTAMP)%Z ->
  utc_of_us (z * 1000000) = Ok {| wall_us := z * 1000000; tzinfo := Some utc |}.
Proof.
  unfold utc_of_us, MIN_TIMESTAMP, MAX_TIMESTAMP. intros H.
  rewrite Z.div_mul by lia.
  destruct (z <? - 2 ^ 63)%Z eqn:E1; [lia|].
  destruct (2 ^ 63 <=? z)%Z eqn:E2; [lia|].
  destruct (z <? -62135596800)%Z eqn:E3; [lia|].
  destruct (253402300799 <? z)%Z eqn:E4; [lia|]. reflexivity.
Qed.

Lemma only_exp_aware t off :
  tzinfo t = Some off ->
  only_exp t = Ok {| _payload :=
    PDict [(PStr (text "exp"), PInt (int_of_seconds (timestamp_us t off)))] |}.
Proof.
  intros H. unfold only_exp, create, add_timestamp, _from_datetime.
  rewrite H. reflexivity.
Qed.

Lemma only_nbf_aware t off :
  tzinfo t = Some off ->
  only_nbf t = Ok {| _payload :=
    PDict [(PStr (text "nbf"), PInt (int_of_seconds (timestamp_us t off)))] |}.
Proof.
  intros H. unfold only_nbf, create, add_timestamp, _from_datetime.
  rewrite H. reflexivity.
Qed.

Lemma only_iat_aware t off :
  tzinfo t = Some off ->
  only_iat t = Ok {| _payload :=
    PDict [(PStr (text "iat"), PInt (int_of_seconds (timestamp_us t off)))] |}.
Proof.
  intros H. unfold only_iat, create, add_timestamp, _from_datetime.
  rewrite H. reflexivity.
Qed.

(** *** The float of a timestamp *)

(** The mantissa of [a / 10**6] at the scale [P = 2^k]: it is at the
    whole seconds when there is no fraction, and below the next second
    when that is more than a microsecond on the scale away. *)
Lemma round_half_even_scaled a P :
  (0 <= a)%Z -> (0 < P)%Z ->
  let s := (a / 1000000)%Z in
  let m := round_half_even (a * P) 1000000 in
  (s * P <= m <= s * P + P)%Z /\
  ((a mod 1000000 = 0)%Z -> m = (s * P)%Z) /\
  ((500000 < P)%Z -> (m < s * P + P)%Z).
Proof.
  intros Ha HP s m.
  pose proof (Z.div_mod a 1000000 ltac:(lia)) as D.
  pose proof (Z.mod_pos_bound a 1000000 ltac:(lia)) as R.
  fold s in D. set (r := (a mod 1000000)%Z) in *.
  assert (E : (a * P = 1000000 * (s * P) + r * P)%Z)
    by (rewrite D at 1; ring).
  assert (Y0 : (0 <= r * P)%Z) by (apply Z.mul_nonneg_nonneg; lia).
  assert (Y1 : (r * P <= 999999 * P)%Z)
    by (apply Z.mul_le_mono_nonneg_r; lia).
  assert (Y2 : r = 0%Z -> (r * P = 0)%Z) by (intros ->; reflexivity).
  pose proof (Z.div_mod (a * P) 1000000 ltac:(lia)) as D'.
  pose proof (Z.mod_pos_bound (a * P) 1000000 ltac:(lia)) as R'.
  subst m. unfold round_half_even.
  set (q' := (a * P / 1000000)%Z) in *.
  set (r' := ((a * P) mod 1000000)%Z) in *.
  set (X := (s * P)%Z) in *. set (Y := (r * P)%Z) in *.
  destruct (2 * r' <? 1000000)%Z eqn:C1; [lia|].
  destruct (1000000 <? 2 * r')%Z eqn:C2; [lia|].
  destruct (Z.even q'); lia.
Qed.

Lemma ratio_exponent_bound a n :
  (0 < a)%Z -> (0 <= n)%Z -> (a < 2 ^ n * 1000000)%Z ->
  (ratio_exponent a 1000000 < n)%Z.
Proof.
  intros Ha Hn H. unfold ratio_exponent.
  destruct (1000000 <=? a)%Z eqn:C.
  - apply Z.log2_lt_pow2.
    + apply Z.div_str_pos. lia.
    + apply Z.div_lt_upper_bound; lia.
  - pose proof (Z.log2_nonneg ((1000000 - 1) / a)). lia.
Qed.

(** [int(a / 10**6)] is the quotient or one more; it is the quotient
    when the division is exact, and whenever the quotient is below
    [2^34], where the floats are less than two microseconds apart. *)
Lemma int_true_divide_spec a :
  (0 <= a < 2 ^ 53 * 1000000)%Z ->
  let z := int_true_divide a 1000000 in
  (a / 1000000 <= z <= a / 1000000 + 1)%Z /\
  ((a mod 1000000 = 0)%Z -> z = (a / 1000000)%Z) /\
  ((a < 2 ^ 34 * 1000000)%Z -> z = (a / 1000000)%Z).
Proof.
  intros [H0 H1] z. subst z. unfold int_true_divide.
  destruct (a =? 0)%Z eqn:Z0.
  { apply Z.eqb_eq in Z0 as ->. rewrite Z.div_0_l by lia. lia. }
  assert (Ha : (0 < a)%Z) by lia.
  pose proof (ratio_exponent_bound a 53 Ha ltac:(lia) H1) as B.
  set (k := (52 - ratio_exponent a 1000000)%Z) in *.
  replace (0 <=? k)%Z with true by (symmetry; apply Z.leb_le; lia).
  assert (P0 : (0 < 2 ^ k)%Z) by (apply Z.pow_pos_nonneg; lia).
  destruct (round_half_even_scaled a (2 ^ k) H0 P0) as (M1 & M2 & M3).
  set (m := round_half_even (a * 2 ^ k) 1000000) in *.
  set (s := (a / 1000000)%Z) in *.
  assert (Q : forall x, (s * 2 ^ k <= x < s * 2 ^ k + 2 ^ k)%Z ->
                        (x / 2 ^ k)%Z = s).
  { intros x Hx. symmetry.
    apply (Z.div_unique x (2 ^ k) s (x - s * 2 ^ k)); lia. }
  split; [|split].
  - destruct (Z.eq_dec m (s * 2 ^ k + 2 ^ k)%Z) as [->|N].
    + replace (s * 2 ^ k + 2 ^ k)%Z with ((s + 1) * 2 ^ k)%Z by ring.
      rewrite Z.div_mul by lia. lia.
    + rewrite (Q m) by lia. lia.
  - intros R. rewrite (M2 R). apply Z.div_mul. lia.
  - intros S. apply Q.
    assert (K : (19 <= k)%Z).
    { pose proof (ratio_exponent_bound a 34 Ha ltac:(lia) S). lia. }
    assert ((2 ^ 19 <= 2 ^ k)%Z) by (apply Z.pow_le_mono_r; lia).
    change (2 ^ 19)%Z with 524288%Z in *. lia.
Qed.

Lemma quot_sgn_abs us :
  (us ÷ 1000000 = Z.sgn us * (Z.abs us / 1000000))%Z.
Proof.
  destruct (Z.lt_trichotomy us 0) as [H|[->|H]]; [|reflexivity|].
  - rewrite Z.sgn_neg, Z.abs_neq by lia.
    rewrite <- (Z.opp_involutive us) at 1.
    rewrite Z.quot_opp_l, Z.quot_div_nonneg by lia. lia.
  - rewrite Z.sgn_pos, Z.abs_eq by lia. rewrite Z.quot_div_nonneg by lia. lia.
Qed.

(** The seconds stored for a count [us] of microseconds: the count cut
    to the second toward zero, or one second further from zero when the
    float of the timestamp was rounded to a whole number; never the
    latter for a whole number of seconds, nor at less than [2^34]
    seconds from the epoch. *)
Lemma int_of_seconds_spec us :
  (Z.abs us < 2 ^ 53 * 1000000)%Z ->
  let z := int_of_seconds us in
  (z = us ÷ 1000000 \/ z = us ÷ 1000000 + Z.sgn us)%Z /\
  (Z.rem us 1000000 = 0%Z -> z = (us ÷ 1000000)%Z) /\
  ((Z.abs us < 2 ^ 34 * 1000000)%Z -> z = (us ÷ 1000000)%Z).
Proof.
  intros H z. subst z. unfold int_of_seconds.
  destruct (int_true_divide_spec (Z.abs us) ltac:(lia)) as (A & B & C).
  rewrite quot_sgn_abs.
  set (p := int_true_divide (Z.abs us) 1000000) in *.
  set (s := (Z.abs us / 1000000)%Z) in *.
  split; [|split].
  - assert (D : p = s \/ p = (s + 1)%Z) by lia.
    destruct D as [->| ->]; [left; reflexivity|right].
    destruct (Z.lt_trichotomy us 0) as [N|[->|P]]; [|reflexivity|].
    + rewrite Z.sgn_neg by lia. lia.
    + rewrite Z.sgn_pos by lia. lia.
  - intros R. rewrite B; [reflexivity|].
    assert (Z.rem (Z.abs us) 1000000 = 0%Z).
    { rewrite Z.rem_abs_l by lia. rewrite R. reflexivity. }
    rewrite <- Z.rem_mod_nonneg; lia.
  - intros S. rewrite (C S). reflexivity.
Qed.

(** The microseconds from the epoch of an instant of the years 1 to
    9999, in any time zone. *)
Lemma valid_datetime_us t off :
  valid_datetime t -> tzinfo t = Some off ->
  ((MIN_TIMESTAMP - 86400) * 1000000 < wall_us t - off
   < (MAX_TIMESTAMP + 86400 + 1) * 1000000)%Z.
Proof.
  intros [W O] E. rewrite E in O. unfold MIN_TIMESTAMP, MAX_TIMESTAMP in *.
  lia.
Qed.

Lemma naive_refused t iss sub aud jti e n i cc :
  tzinfo t = None ->
  create iss sub aud jti (Some t) n i cc = Err JwtInvalidError /\
  create iss sub aud jti e (Some t) i cc = Err JwtInvalidError /\
  create iss sub aud jti e n (Some t) cc = Err JwtInvalidError.
Proof.
  intros H.
  assert (F : forall p name, add_timestamp p name (Some t) = Err JwtInvalidError).
  { intros p name. unfold add_timestamp, _from_datetime. rewrite H.
    reflexivity. }
  assert (A : forall p name t', exists r,
    add_timestamp p name t' = r /\
    (r = Err JwtInvalidError \/ exists p', r = Ok p')).
  { intros p name [t'|]; simpl; [|eauto].
    unfold _from_datetime. destruct (tzinfo t'); simpl; eauto. }
  unfold create; cbv zeta. split; [|split].
  - rewrite F. reflexivity.
  - match goal with |- context [add_timestamp ?p ?k e] =>
      destruct (A p k e) as (r & -> & [->|[p' ->]]) end;
      [reflexivity|]. cbn [bind]. rewrite F. reflexivity.
  - match goal with |- context [add_timestamp ?p ?k e] =>
      destruct (A p k e) as (r & -> & [->|[p' ->]]) end;
      [reflexivity|]. cbn [bind].
    match goal with |- context [add_timestamp ?p ?k n] =>
      destruct (A p k n) as (r & -> & [->|[p'' ->]]) end;
      [reflexivity|]. cbn [bind]. rewrite F. reflexivity.
Qed.

(** C6, as stated, fails at the end of the calendar: the last instant
    of the year 9999 in UTC is accepted by the builder, the float of
    its timestamp is the whole number 253402300800, and the getter
    raises [ValueError] on that number instead of returning the
    instant. *)
Lemma C6_last_instant_not_read_back :
  let t := {| wall_us := 253402300799999999; tzinfo := Some utc |} in
  valid_datetime t /\
  exists jwt,
    only_exp t = Ok jwt /\ has_expiration jwt = Ok true /\
    py_getitem (_payload jwt) (text "exp") = Ok (PInt 253402300800) /\
    expiration jwt = Err ValueError.
Proof.
  split.
  - split; [unfold MIN_TIMESTAMP, MAX_TIMESTAMP; simpl; lia|].
    unfold utc; simpl. lia.
  - eexists. split; [vm_compute; reflexivity|]. repeat split.
Qed.

(** C6 (amended).  A build in which the expiration, the not-before or
    the issued-at instant has no [tzinfo] fails with [JwtInvalidError],
    whatever the other instants and the custom claims, for an issuer, a
    subject and audiences of the built-in classes.  A build with an
    instant that carries a UTC offset and lies less than [2^34] seconds
    from the epoch (after 1425-08-04T22:06:56Z and before
    2514-05-30T01:53:04Z) succeeds, and the getter returns the same
    instant in UTC, cut to the second toward the epoch: an instant with
    no fraction of a second, less than one second away from the
    input. *)
Theorem C6_timezone_required :
  (forall t iss sub aud jti e n i cc,
      is_object iss = false -> is_object sub = false ->
      is_object aud = false -> tzinfo t = None ->
      create iss sub aud jti (Some t) n i cc = Err JwtInvalidError /\
      create iss sub aud jti e (Some t) i cc = Err JwtInvalidError /\
      create iss sub aud jti e n (Some t) cc = Err JwtInvalidError) /\
  (forall t off,
      valid_datetime t -> tzinfo t = Some off ->
      (Z.abs (wall_us t - off) < 2 ^ 34 * 1000000)%Z ->
      let back := utc_second (wall_us t - off) in
      (Z.abs (wall_us t - off - wall_us back) < 1000000)%Z /\
      (exists jwt, only_exp t = Ok jwt /\ has_expiration jwt = Ok true /\
                   expiration jwt = Ok back) /\
      (exists jwt, only_nbf t = Ok jwt /\ has_not_before jwt = Ok true /\
                   not_before jwt = Ok back) /\
      (exists jwt, only_iat t = Ok jwt /\ has_issued_at jwt = Ok true /\
                   issued_at jwt = Ok back)).
Proof.
  split.
  - intros t iss sub aud jti e n i cc _ _ _ H. apply naive_refused. exact H.
  - intros t off V H B back.
    pose proof (valid_datetime_us t off V H) as U.
    assert (U53 : (Z.abs (wall_us t - off) < 2 ^ 53 * 1000000)%Z)
      by (unfold MIN_TIMESTAMP, MAX_TIMESTAMP in U; lia).
    destruct (int_of_seconds_spec (wall_us t - off) U53) as (_ & _ & S).
    specialize (S B).
    assert (R : (MIN_TIMESTAMP <= (wall_us t - off) ÷ 1000000
                 <= MAX_TIMESTAMP)%Z).
    { unfold MIN_TIMESTAMP, MAX_TIMESTAMP.
      Z.to_euclidean_division_equations. lia. }
    subst back. unfold utc_second. cbn [wall_us].
    split; [Z.to_euclidean_division_equations; lia|].
    split; [|split]; eexists;
      (split; [eauto using only_exp_aware, only_nbf_aware, only_iat_aware|]);
      (split; [reflexivity|]);
      unfold expiration, not_before, issued_at; simpl;
      unfold _to_datetime, fromtimestamp_utc, timestamp_us; rewrite S;
      apply utc_of_whole_seconds; exact R.
Qed.

(** C6 at work: one second and a half after the epoch, without a time
    zone and on a clock two hours ahead of UTC. *)
Lemma C6_timezone_required_witness :
  only_exp {| wall_us := 1500000; tzinfo := None |} = Err JwtInvalidError /\
  exists jwt,
    only_exp {| wall_us := 7201500000; tzinfo := Some 7200000000%Z |}
      = Ok jwt /\
    has_expiration jwt = Ok true /\
    expiration jwt = Ok {| wall_us := 1000000; tzinfo := Some utc |}.
Proof.
  split.
  - apply (proj1 C6_timezone_required
             {| wall_us := 1500000; tzinfo := None |}
             PNone PNone PNone PNone None None None []); reflexivity.
  - apply (proj2 C6_timezone_required
             {| wall_us := 7201500000; tzinfo := Some 7200000000%Z |}
             7200000000%Z).
    + unfold valid_datetime, MIN_TIMESTAMP, MAX_TIMESTAMP; simpl. lia.
    + reflexivity.
    + simpl. lia.
Defined.

(** C7, as stated, fails before the epoch: one second and a half before
    it the stored value is [-1], and the floor of [-1.5] is [-2]. *)
Lemma C7_negative_timestamp_not_floored :
  let t := {| wall_us := -1500000; tzinfo := Some utc |} in
  exists jwt z,
    only_exp t = Ok jwt /\
    py_getitem (_payload jwt) (text "exp") = Ok (PInt z) /\
    z = (-1)%Z /\ (-1500000 / 1000000 = -2)%Z.
Proof.
  eexists _, _. split; [vm_compute; reflexivity|].
  split; [vm_compute; reflexivity|]. split; reflexivity.
Qed.

(** Nor is the fraction always cut: from [2^34] seconds on the float of
    the timestamp has no room for the microseconds, and the last
    microsecond of a second is stored as the next second. *)
Lemma late_instant_rounded_up :
  _from_datetime {| wall_us := 19880899200999999; tzinfo := Some utc |}
  = Ok 19880899201%Z.
Proof. vm_compute. reflexivity. Qed.

(** C7 (amended).  For an instant of the years 1 to 9999 with a time
    zone, [us] microseconds from the epoch, the stored number of
    seconds is the float of the timestamp cut toward zero, as [int()]
    does.  At less than [2^34] seconds from the epoch this is the
    timestamp itself cut toward zero: its floor from the epoch on, its
    ceiling before the epoch.  Further away the float may have been
    rounded to the next whole second, away from zero: the stored number
    is then that second, and it is never more than that. *)
Theorem C7_timestamp_truncated_toward_zero t off :
  valid_datetime t -> tzinfo t = Some off ->
  let us := (wall_us t - off)%Z in
  exists z,
    _from_datetime t = Ok z /\
    only_exp t = Ok {| _payload := PDict [(PStr (text "exp"), PInt z)] |} /\
    ((Z.abs us < 2 ^ 34 * 1000000)%Z ->
     ((0 <= us)%Z -> z = (us / 1000000)%Z) /\
     ((us < 0)%Z -> z = (- (- us / 1000000))%Z)) /\
    (z = (us ÷ 1000000)%Z \/ z = (us ÷ 1000000 + Z.sgn us)%Z) /\
    (Z.rem us 1000000 = 0%Z -> z = (us ÷ 1000000)%Z).
Proof.
  intros V H us. pose proof (valid_datetime_us t off V H) as U.
  assert (U53 : (Z.abs us < 2 ^ 53 * 1000000)%Z)
    by (unfold MIN_TIMESTAMP, MAX_TIMESTAMP in U; subst us; lia).
  destruct (int_of_seconds_spec us U53) as (A & B & S).
  exists (int_of_seconds us). split; [|split; [|split; [|split]]].
  - unfold _from_datetime. rewrite H. reflexivity.
  - apply (only_exp_aware t off H).
  - intros L. rewrite (S L). split.
    + intros P. apply Z.quot_div_nonneg; lia.
    + intros P. rewrite <- (Z.opp_involutive us) at 1.
      rewrite Z.quot_opp_l by lia. f_equal. apply Z.quot_div_nonneg; lia.
  - exact A.
  - exact B.
Qed.

(** C7 at work, one second and a half before the epoch on a clock one
    hour behind UTC. *)
Lemma C7_timestamp_truncated_toward_zero_witness :
  _from_datetime {| wall_us := -3601500000; tzinfo := Some (-3600000000)%Z |}
  = Ok (-1)%Z.
Proof.
  destruct (C7_timestamp_truncated_toward_zero
              {| wall_us := -3601500000; tzinfo := Some (-3600000000)%Z |}
              (-3600000000)%Z) as (z & E & _ & F & _).
  - unfold valid_datetime, MIN_TIMESTAMP, MAX_TIMESTAMP; simpl. lia.
  - reflexivity.
  - rewrite E. f_equal. cbn [wall_us] in F.
    destruct F as [_ F]; [simpl; lia|]. apply F. lia.
Defined.

(** ** The decoder consumes its input *)

Lemma skip_ws_length s : (length (skip_ws s) <= length s)%nat.
Proof.
  induction s as [|c s IH]; simpl; [lia|]. destruct (is_ws c); simpl; lia.
Qed.

Lemma take_digits_length s :
  (length (take_digits s).2 <= length s)%nat.
Proof.
  induction s as [|c s IH]; simpl; [lia|].
  destruct (is_digit c); simpl; [|lia].
  destruct (take_digits s); simpl in *; lia.
Qed.

Lemma match_sign_length s : (length (match_sign s).2 <= length s)%nat.
Proof. destruct s as [|c s]; simpl; [lia|]. destruct (c =? 45); simpl; lia. Qed.

Lemma match_exp_sign_length s :
  (length (match_exp_sign s).2 <= length s)%nat.
Proof.
  destruct s as [|c s]; simpl; [lia|].
  destruct (c =? 45); simpl; [lia|]. destruct (c =? 43); simpl; lia.
Qed.

Lemma match_integer_length s neg ip r :
  match_integer s = Some (neg, ip, r) -> (length r < length s)%nat.
Proof.
  unfold match_integer. pose proof (match_sign_length s) as L.
  destruct (match_sign s) as [sg s1]; simpl in L.
  destruct s1 as [|c s2]; [discriminate|]. simpl in L.
  destruct (c =? 48); [intros [= <- <- <-]; lia|].
  destruct (is_digit c); [|discriminate].
  pose proof (take_digits_length s2) as T.
  destruct (take_digits s2) as [ds r']; simpl in T.
  intros [= <- <- <-]. lia.
Qed.

Lemma match_frac_length s : (length (match_frac s).2 <= length s)%nat.
Proof.
  destruct s as [|c s]; simpl; [lia|].
  destruct (c =? 46); simpl; [|lia].
  pose proof (take_digits_length s) as T.
  destruct (take_digits s) as [[|d ds] r]; simpl in *; lia.
Qed.

Lemma match_exp_length s : (length (match_exp s).2 <= length s)%nat.
Proof.
  destruct s as [|c s]; simpl; [lia|].
  destruct ((c =? 101) || (c =? 69)); simpl; [|lia].
  pose proof (match_exp_sign_length s) as S.
  destruct (match_exp_sign s) as [neg s2]; simpl in S.
  pose proof (take_digits_length s2) as T.
  destruct (take_digits s2) as [[|d ds] r]; simpl in *; lia.
Qed.

Lemma match_number_length s l r :
  match_number s = Some (l, r) -> (length r < length s)%nat.
Proof.
  unfold match_number.
  destruct (match_integer s) as [[[neg ip] r1]|] eqn:I; [|discriminate].
  apply match_integer_length in I.
  pose proof (match_frac_length r1) as F.
  destruct (match_frac r1) as [fp r2]; simpl in F.
  pose proof (match_exp_length r2) as X.
  destruct (match_exp r2) as [ex r3]; simpl in X.
  intros [= <- <-]. lia.
Qed.

(** [scanstring] raises nothing but [JSONDecodeError], and on success
    leaves less than it was given. *)
Lemma scanstring_spec n : forall s,
  (length s <= n)%nat ->
  match scanstring s with
  | Ok (_, rest) => (length rest < length s)%nat
  | Err e => e = JSONDecodeError
  end.
Proof.
  induction n as [|n IH]; intros s L.
  - destruct s; [reflexivity|simpl in L; lia].
  - assert (K : forall t (c : N) m, (length t <= n)%nat ->
      (length t < m)%nat ->
      match (let* (r, rest) := scanstring t in Ok (c :: r, rest)) with
      | Ok (_, rest) => (length rest < m)%nat
      | Err e => e = JSONDecodeError
      end).
    { intros t c m Lt Lm. specialize (IH t Lt).
      destruct (scanstring t) as [[r rest]|e]; simpl; [lia|exact IH]. }
    destruct s as [|c s1]; [reflexivity|]. simpl in L.
    cbn [scanstring]. destruct (c =? 34); [simpl; lia|].
    destruct (c =? 92).
    + destruct s1 as [|e s2]; [reflexivity|]. simpl in L.
      destruct (e =? 117).
      * destruct s2 as [|h1 [|h2 [|h3 [|h4 s3]]]]; try reflexivity.
        simpl in L.
        destruct (decode_uXXXX h1 h2 h3 h4) as [uni|]; [|reflexivity].
        destruct (is_high_surrogate uni); [|apply K; simpl in *; lia].
        destruct s3 as [|c1 [|c2 s4]]; try (apply K; simpl in *; lia).
        destruct ((c1 =? 92) && (c2 =? 117)); [|apply K; simpl in *; lia].
        destruct s4 as [|g1 [|g2 [|g3 [|g4 s5]]]]; try reflexivity.
        destruct (decode_uXXXX g1 g2 g3 g4) as [uni2|]; [|reflexivity].
        simpl in L.
        destruct (is_low_surrogate uni2); apply K; simpl in *; lia.
      * destruct (backslash_char e) as [ch|]; [|reflexivity].
        apply K; simpl in *; lia.
    + destruct (c <? 32); [reflexivity|]. apply K; simpl in *; lia.
Qed.

Lemma scanstring_length s r rest :
  scanstring s = Ok (r, rest) -> (length rest < length s)%nat.
Proof.
  intros H. pose proof (scanstring_spec (length s) s (le_n _)) as S.
  rewrite H in S. exact S.
Qed.

Lemma scanstring_err s e : scanstring s = Err e -> e = JSONDecodeError.
Proof.
  intros H. pose proof (scanstring_spec (length s) s (le_n _)) as S.
  rewrite H in S. exact S.
Qed.

Lemma startswith_single s c :
  startswith s [c] = true -> exists t, s = c :: t.
Proof.
  destruct s as [|x t]; simpl; [discriminate|].
  destruct (x =? c) eqn:E; [|discriminate].
  apply N.eqb_eq in E as ->. eauto.
Qed.

Lemma decoder_spec n :
  (forall s, decoder_post (2 * length s + 1) n s (scan_once n s)) /\
  (forall s, decoder_post (2 * length s + 2) n s (parse_items n s)) /\
  (forall s, decoder_post (2 * length s + 1) n s (parse_members n s)).
Proof.
  induction n as [|n (IHv & IHi & IHm)].
  { repeat split; intros s; simpl; right; split; (reflexivity || lia). }
  split; [|split]; intros s.
  - cbn [scan_once]. destruct s as [|c s1]; [left; reflexivity|].
    pose proof (skip_ws_length s1) as W.
    destruct (c =? 34).
    { pose proof (scanstring_spec _ s1 (le_n _)) as S.
      destruct (scanstring s1) as [[str r]|e]; simpl in *; [lia|auto]. }
    destruct (c =? 123).
    { destruct (skip_ws s1) as [|c' r] eqn:E; [left; reflexivity|].
      simpl in W. destruct (c' =? 125); [simpl; lia|].
      destruct (c' =? 34); [|left; reflexivity].
      specialize (IHm r). unfold decoder_post in *.
      destruct (parse_members n r) as [[ps r']|e]; simpl in *; [lia|].
      destruct IHm as [->|[-> ?]]; [auto|right; split; [reflexivity|lia]]. }
    destruct (c =? 91).
    { destruct (startswith (skip_ws s1) [93]) eqn:E.
      - simpl. rewrite length_drop. lia.
      - specialize (IHi (skip_ws s1)). unfold decoder_post in *.
        destruct (parse_items n (skip_ws s1)) as [[vs r']|e]; simpl in *;
          [lia|].
        destruct IHi as [->|[-> ?]]; [auto|right; split; [reflexivity|lia]]. }
    repeat match goal with
    | |- context [if startswith ?a ?b then _ else _] =>
        destruct (startswith a b);
        [unfold decoder_post; rewrite length_drop; simpl; lia|]
    end.
    destruct (match_number (c :: s1)) as [[l r]|] eqn:M.
    { apply match_number_length in M. exact M. }
    repeat match goal with
    | |- context [if startswith ?a ?b then _ else _] =>
        destruct (startswith a b);
        [unfold decoder_post; rewrite length_drop; simpl; lia|]
    end.
    left; reflexivity.
  - cbn [parse_items]. specialize (IHv s). unfold decoder_post in *.
    destruct (scan_once n s) as [[v r]|e]; simpl;
      [|destruct IHv as [->|[-> ?]]; [auto|right; split; [reflexivity|lia]]].
    pose proof (skip_ws_length r) as W.
    destruct (skip_ws r) as [|c r1]; [left; reflexivity|]. simpl in W.
    destruct (c =? 93); [simpl; lia|].
    destruct (c =? 44); [|left; reflexivity].
    pose proof (skip_ws_length r1) as W1. specialize (IHi (skip_ws r1)).
    unfold decoder_post in IHi.
    destruct (parse_items n (skip_ws r1)) as [[vs r2]|e]; simpl; [lia|].
    destruct IHi as [->|[-> ?]]; [auto|right; split; [reflexivity|lia]].
  - cbn [parse_members]. unfold decoder_post in *.
    pose proof (scanstring_spec _ s (le_n _)) as S.
    destruct (scanstring s) as [[k r]|e]; cbn [bind]; [|simpl; auto].
    pose proof (skip_ws_length r) as W.
    destruct (startswith (skip_ws r) [58]) eqn:E; [|left; reflexivity].
    apply startswith_single in E as [t E]. rewrite E in *. simpl in W.
    change (drop 1 (58 :: t)) with t. pose proof (skip_ws_length t) as W1.
    specialize (IHv (skip_ws t)). unfold decoder_post in IHv.
    destruct (scan_once n (skip_ws t)) as [[v r2]|e]; cbn [bind];
      [|simpl; destruct IHv as [->|[-> ?]];
        [auto|right; split; [reflexivity|lia]]].
    pose proof (skip_ws_length r2) as W2.
    destruct (skip_ws r2) as [|c r3]; [left; reflexivity|]. simpl in W2.
    destruct (c =? 125); [simpl; lia|].
    destruct (c =? 44); [|left; reflexivity].
    pose proof (skip_ws_length r3) as W3.
    destruct (startswith (skip_ws r3) [34]) eqn:E3; [|left; reflexivity].
    apply startswith_single in E3 as [t3 E3]. rewrite E3 in *. simpl in W3.
    change (drop 1 (34 :: t3)) with t3. specialize (IHm t3). unfold decoder_post in IHm.
    destruct (parse_members n t3) as [[ps r5]|e]; simpl; [lia|].
    destruct IHm as [->|[-> ?]]; [auto|right; split; [reflexivity|lia]].
Qed.

(** The fuel of [json_loads] is never short: when the decoder of the
    model fails, it is on a text that is not a JSON text.  (The
    interpreter's recursion limit, which makes the real decoder fail on
    a text nested about a thousand deep, is not part of the model: the
    properties below are stated for whatever exception the decoder
    raises.) *)
Lemma json_loads_err s e : json_loads s = Err e -> e = JSONDecodeError.
Proof.
  unfold json_loads. destruct (startswith s [65279]); [congruence|].
  pose proof (proj1 (decoder_spec (2 * length s + 2)) (skip_ws s)) as D.
  pose proof (skip_ws_length s) as W. unfold decoder_post in D.
  destruct (scan_once (2 * length s + 2) (skip_ws s)) as [[v r]|e']; simpl.
  - destruct (skip_ws r); congruence.
  - intros [= <-]. destruct D as [->|[_ D]]; [reflexivity|lia].
Qed.

(** C2, as stated, fails: on the text [{], which is not valid JSON, the
    failure is the decoder's [JSONDecodeError], not
    [JwtInvalidError]. *)
Lemma C2_decode_error_is_not_invalid_claim :
  json_loads (text "{") = Err JSONDecodeError /\
  from_json_payload (text "{") = Err JSONDecodeError /\
  from_json_payload (text "{") <> Err JwtInvalidError.
Proof. split; [reflexivity|]. split; [reflexivity|discriminate]. Qed.

(** C2 (amended).  [from_json_payload] calls [json.loads] without a
    handler: on a text that the decoder refuses, whatever exception the
    decoder raises is the exception of [from_json_payload] and of
    [raw_jwt_from_json_payload], unchanged.  So the failure is
    [JwtInvalidError] only if that is what the decoder raised; and
    conversely a [JwtInvalidError] of [from_json_payload] that the
    decoder did not raise comes from the validation of a value the
    decoder returned. *)
Theorem C2_decoder_exception_passed_on s :
  (forall e, json_loads s = Err e ->
     from_json_payload s = Err e /\ raw_jwt_from_json_payload s = Err e /\
     (e <> JwtInvalidError -> from_json_payload s <> Err JwtInvalidError)) /\
  (from_json_payload s = Err JwtInvalidError ->
   json_loads s = Err JwtInvalidError \/
   exists p, json_loads s = Ok p /\ __init__ p = Err JwtInvalidError).
Proof.
  unfold raw_jwt_from_json_payload, from_json_payload. split.
  - intros e H. rewrite H. cbn [bind]. repeat split. congruence.
  - destruct (json_loads s) as [p|e]; cbn [bind]; intros H.
    + right. exists p. split; [reflexivity|exact H].
    + left. congruence.
Qed.

(** C2 at work, on a list that is not closed. *)
Lemma C2_decoder_exception_passed_on_witness :
  from_json_payload (text "[1, 2") = Err JSONDecodeError /\
  from_json_payload (text "[1, 2") <> Err JwtInvalidError.
Proof.
  destruct (proj1 (C2_decoder_exception_passed_on (text "[1, 2"))
              JSONDecodeError eq_refl) as (H & _ & N).
  split; [exact H|]. apply N. discriminate.
Defined.

(** * The JSON round trip *)

(** ** Escapes *)

Lemma lor_shiftl_add x y :
  y < 1024 -> N.lor (N.shiftl x 10) y = x * 1024 + y.
Proof.
  intros H.
  assert (D : N.land (N.shiftl x 10) y = 0).
  { apply N.bits_inj. intros m. rewrite N.land_spec, N.bits_0.
    destruct (N.lt_ge_cases m 10) as [L|L].
    - rewrite N.shiftl_spec_low by exact L. reflexivity.
    - rewrite <- (N.mod_small y (2 ^ 10)) by exact H.
      rewrite N.mod_pow2_bits_high by exact L. apply andb_false_r. }
  rewrite <- N.lxor_lor by exact D.
  rewrite <- N.add_nocarry_lxor by exact D.
  rewrite N.shiftl_mul_pow2. reflexivity.
Qed.

Lemma hex_val_char x : x < 16 -> hex_val (hex_char x) = Some x.
Proof.
  intros H. unfold hex_val, hex_char.
  destruct (x <? 10) eqn:E.
  - apply N.ltb_lt in E.
    replace ((48 <=? 48 + x) && (48 + x <=? 57)) with true
      by (symmetry; apply andb_true_iff; split; apply N.leb_le; lia).
    f_equal. lia.
  - apply N.ltb_ge in E.
    replace ((48 <=? 87 + x) && (87 + x <=? 57)) with false
      by (symmetry; apply andb_false_iff; right; apply N.leb_gt; lia).
    replace ((97 <=? 87 + x) && (87 + x <=? 102)) with true
      by (symmetry; apply andb_true_iff; split; apply N.leb_le; lia).
    f_equal. lia.
Qed.

Lemma decode_hex4 n :
  n < 65536 ->
  match hex4 n with
  | [a; b; c; d] => decode_uXXXX a b c d = Some n
  | _ => False
  end.
Proof.
  intros H. unfold hex4, decode_uXXXX.
  rewrite !hex_val_char by (apply N.mod_lt; discriminate).
  f_equal.
  pose proof (N.div_mod n 16 ltac:(discriminate)).
  pose proof (N.div_mod (n / 16) 16 ltac:(discriminate)).
  pose proof (N.div_mod (n / 16 / 16) 16 ltac:(discriminate)).
  assert (n / 16 / 16 / 16 < 16).
  { rewrite !N.Div0.div_div. apply N.Div0.div_lt_upper_bound. exact H. }
  replace (n / 4096) with (n / 16 / 16 / 16) by (rewrite !N.Div0.div_div; reflexivity).
  replace (n / 256) with (n / 16 / 16) by (rewrite !N.Div0.div_div; reflexivity).
  rewrite (N.mod_small (n / 16 / 16 / 16) 16) by assumption.
  lia.
Qed.

Lemma scanstring_literal c s :
  (c =? 34) = false -> (c =? 92) = false -> (c <? 32) = false ->
  scanstring (c :: s) = then_cons c (scanstring s).
Proof. intros E1 E2 E3. cbn [scanstring]. rewrite E1, E2, E3. reflexivity. Qed.

Lemma scanstring_backslash e ch s :
  (e =? 117) = false -> backslash_char e = Some ch ->
  scanstring (92 :: e :: s) = then_cons ch (scanstring s).
Proof.
  intros E1 E2. cbn [scanstring].
  change (92 =? 34) with false. change (92 =? 92) with true. cbn iota.
  rewrite E1, E2. reflexivity.
Qed.

Lemma scanstring_u_single uni s :
  uni < 65536 ->
  is_high_surrogate uni = false \/ no_low_escape s ->
  scanstring (u_escape uni ++ s) = then_cons uni (scanstring s).
Proof.
  intros H C. pose proof (decode_hex4 uni H) as D. unfold u_escape.
  destruct (hex4 uni) as [|a [|b [|c [|d [|]]]]]; try contradiction.
  change (text "\u" ++ [a; b; c; d]) with [92; 117; a; b; c; d].
  cbn [app scanstring].
  change (92 =? 34) with false. change (92 =? 92) with true.
  change (117 =? 117) with true. cbn iota. rewrite D.
  destruct (is_high_surrogate uni); [|reflexivity].
  destruct C as [C|C]; [discriminate C|].
  destruct s as [|c1 [|c2 s4]]; try reflexivity.
  destruct C as [C|(g1 & g2 & g3 & g4 & s5 & uni2 & -> & D2 & L)].
  - rewrite C. reflexivity.
  - destruct ((c1 =? 92) && (c2 =? 117)); [|reflexivity].
    rewrite D2, L. reflexivity.
Qed.

Lemma scanstring_u_pair hi lo s :
  hi < 65536 -> lo < 65536 ->
  is_high_surrogate hi = true -> is_low_surrogate lo = true ->
  scanstring (u_escape hi ++ u_escape lo ++ s)
  = then_cons (join_surrogates hi lo) (scanstring s).
Proof.
  intros Hh Hl Ih Il.
  pose proof (decode_hex4 hi Hh) as D. pose proof (decode_hex4 lo Hl) as D2.
  unfold u_escape.
  destruct (hex4 hi) as [|a [|b [|c [|d [|]]]]]; try contradiction.
  destruct (hex4 lo) as [|a' [|b' [|c' [|d' [|]]]]]; try contradiction.
  change (text "\u" ++ [a; b; c; d]) with [92; 117; a; b; c; d].
  change (text "\u" ++ [a'; b'; c'; d']) with [92; 117; a'; b'; c'; d'].
  cbn [app scanstring].
  change (92 =? 34) with false. change (92 =? 92) with true.
  change (117 =? 117) with true. cbn iota. rewrite D, Ih.
  cbn [andb]. rewrite D2, Il. reflexivity.
Qed.

Lemma surrogate_disjoint c :
  is_high_surrogate c = true -> is_low_surrogate c = false.
Proof.
  unfold is_high_surrogate, is_low_surrogate.
  rewrite andb_true_iff, andb_false_iff, !N.leb_le, N.leb_gt. lia.
Qed.

Lemma high_surrogate_range c :
  is_high_surrogate c = true <-> 55296 <= c <= 56319.
Proof. unfold is_high_surrogate. rewrite andb_true_iff, !N.leb_le. tauto. Qed.

Lemma low_surrogate_range c :
  is_low_surrogate c = true <-> 56320 <= c <= 57343.
Proof. unfold is_low_surrogate. rewrite andb_true_iff, !N.leb_le. tauto. Qed.

Lemma not_high_surrogate c :
  c < 55296 \/ 56319 < c -> is_high_surrogate c = false.
Proof.
  intros H. destruct (is_high_surrogate c) eqn:E; [|reflexivity].
  apply high_surrogate_range in E. lia.
Qed.

Lemma not_low_surrogate c :
  c < 56320 \/ 57343 < c -> is_low_surrogate c = false.
Proof.
  intros H. destruct (is_low_surrogate c) eqn:E; [|reflexivity].
  apply low_surrogate_range in E. lia.
Qed.

(** The surrogate pair of a code point above the BMP. *)
Lemma surrogate_pair c :
  65536 <= c < 1114112 ->
  let n := c - 65536 in
  let hi := N.lor 55296 (N.land (N.shiftr n 10) 1023) in
  let lo := N.lor 56320 (N.land n 1023) in
  55296 <= hi <= 56319 /\ 56320 <= lo <= 57343 /\ join_surrogates hi lo = c.
Proof.
  intros H n hi lo.
  assert (Hn : n < 1048576) by (unfold n; lia).
  assert (A : N.land (N.shiftr n 10) 1023 = n / 1024).
  { change 1023 with (N.ones 10). rewrite N.land_ones, N.shiftr_div_pow2.
    change (2 ^ 10) with 1024. apply N.mod_small.
    apply N.Div0.div_lt_upper_bound. exact Hn. }
  assert (B : N.land n 1023 = n mod 1024).
  { change 1023 with (N.ones 10). rewrite N.land_ones. reflexivity. }
  assert (Q : n / 1024 < 1024)
    by (apply N.Div0.div_lt_upper_bound; exact Hn).
  assert (R : n mod 1024 < 1024) by (apply N.mod_lt; discriminate).
  assert (Eh : hi = 55296 + n / 1024).
  { unfold hi. rewrite A. change 55296 with (N.shiftl 54 10) at 1.
    rewrite lor_shiftl_add by exact Q. reflexivity. }
  assert (El : lo = 56320 + n mod 1024).
  { unfold lo. rewrite B. change 56320 with (N.shiftl 55 10) at 1.
    rewrite lor_shiftl_add by exact R. reflexivity. }
  split; [lia|]. split; [lia|].
  unfold join_surrogates. rewrite Eh, El.
  replace (55296 + n / 1024 - 55296) with (n / 1024) by lia.
  replace (56320 + n mod 1024 - 56320) with (n mod 1024) by lia.
  rewrite lor_shiftl_add by exact R.
  pose proof (N.div_mod n 1024 ltac:(discriminate)). unfold n in *. lia.
Qed.

Lemma escape_char_shape c : c < 1114112 -> escape_shape c.
Proof.
  intros V. unfold escape_char.
  destruct (c =? 34) eqn:E1.
  { apply N.eqb_eq in E1 as ->.
    apply (shape_backslash 34 34); reflexivity. }
  destruct (c =? 92) eqn:E2.
  { apply N.eqb_eq in E2 as ->.
    apply (shape_backslash 92 92); reflexivity. }
  destruct (c =? 10) eqn:E3.
  { apply N.eqb_eq in E3 as ->.
    apply (shape_backslash 10 110); reflexivity. }
  destruct (c =? 13) eqn:E4.
  { apply N.eqb_eq in E4 as ->.
    apply (shape_backslash 13 114); reflexivity. }
  destruct (c =? 9) eqn:E5.
  { apply N.eqb_eq in E5 as ->.
    apply (shape_backslash 9 116); reflexivity. }
  destruct (c =? 8) eqn:E6.
  { apply N.eqb_eq in E6 as ->.
    apply (shape_backslash 8 98); reflexivity. }
  destruct (c =? 12) eqn:E7.
  { apply N.eqb_eq in E7 as ->.
    apply (shape_backslash 12 102); reflexivity. }
  destruct ((32 <=? c) && (c <=? 126)) eqn:E8.
  { apply andb_true_iff in E8 as [L U].
    apply N.leb_le in L, U.
    apply shape_literal.
    - unfold escape_char. rewrite E1, E2, E3, E4, E5, E6, E7.
      replace ((32 <=? c) && (c <=? 126)) with true; [reflexivity|].
      symmetry. apply andb_true_iff. split; apply N.leb_le; assumption.
    - exact E1.
    - exact E2.
    - apply N.ltb_ge. exact L.
    - lia. }
  destruct (c <? 65536) eqn:E9.
  { apply N.ltb_lt in E9. apply shape_u; [|exact E9].
    unfold escape_char. rewrite E1, E2, E3, E4, E5, E6, E7, E8.
    replace (c <? 65536) with true by (symmetry; apply N.ltb_lt; exact E9).
    reflexivity. }
  apply N.ltb_ge in E9.
  destruct (surrogate_pair c (conj E9 V)) as (Hh & Hl & J).
  eapply shape_pair; [| | |exact J|exact E9].
  - unfold escape_char. rewrite E1, E2, E3, E4, E5, E6, E7, E8.
    replace (c <? 65536) with false by (symmetry; apply N.ltb_ge; exact E9).
    reflexivity.
  - apply high_surrogate_range. exact Hh.
  - apply low_surrogate_range. exact Hl.
Qed.

Lemma merge_not_high c t :
  is_high_surrogate c = false ->
  merge_surrogates (c :: t) = c :: merge_surrogates t.
Proof. intros H. simpl. rewrite H. reflexivity. Qed.

Lemma no_low_escape_char l tail :
  l < 1114112 -> is_low_surrogate l = false ->
  no_low_escape (escape_char l ++ tail).
Proof.
  intros V L.
  destruct (escape_char_shape l V)
    as [e E1 E2 _ _|E1 _ E2 _ _|E1 E2|hi lo E1 Hh _ _ _]; rewrite E1.
  - simpl. left. rewrite E2. reflexivity.
  - destruct tail as [|c2 tail]; simpl; [exact I|]. left. rewrite E2.
    reflexivity.
  - pose proof (decode_hex4 l E2) as D. unfold u_escape.
    destruct (hex4 l) as [|a [|b [|c [|d [|]]]]]; try contradiction.
    simpl. right. exists a, b, c, d, tail, l. auto.
  - assert (Hr : hi < 65536) by (apply high_surrogate_range in Hh; lia).
    pose proof (decode_hex4 hi Hr) as D. unfold u_escape.
    destruct (hex4 hi) as [|a [|b [|c [|d [|]]]]]; try contradiction.
    simpl. right. eexists a, b, c, d, _, hi.
    split; [reflexivity|]. split; [exact D|].
    apply surrogate_disjoint. exact Hh.
Qed.

(** Decoding an encoded string. *)
Lemma scanstring_escape n : forall s,
  (length s <= n)%nat -> valid_str s ->
  forall rest,
    scanstring (flat_map escape_char s ++ 34 :: rest)
    = Ok (merge_surrogates s, rest).
Proof.
  induction n as [|n IH]; intros s Ln V rest.
  { destruct s; [reflexivity|simpl in Ln; lia]. }
  destruct s as [|c s']; [reflexivity|].
  simpl in Ln. inversion V as [|? ? Vc V']; subst.
  cbn [flat_map]. rewrite <- app_assoc.
  set (tail := flat_map escape_char s' ++ 34 :: rest).
  assert (T : scanstring tail = Ok (merge_surrogates s', rest))
    by (apply IH; [lia|exact V']).
  destruct (escape_char_shape c Vc)
    as [e E1 E2 E3 Hc|E1 E2 E3 E4 Hc|E1 Hc|hi lo E1 Hh Hl J Hc]; rewrite E1.
  - change ([92; e] ++ tail) with (92 :: e :: tail).
    rewrite (scanstring_backslash e c tail E2 E3), T.
    rewrite merge_not_high by (apply not_high_surrogate; lia). reflexivity.
  - change ([c] ++ tail) with (c :: tail).
    rewrite (scanstring_literal c tail E2 E3 E4), T.
    rewrite merge_not_high by (apply not_high_surrogate; lia). reflexivity.
  - destruct (is_high_surrogate c) eqn:H.
    + destruct s' as [|l s''].
      * rewrite scanstring_u_single; [|exact Hc|].
        -- rewrite T. simpl. rewrite H. reflexivity.
        -- right. unfold tail. simpl.
           destruct rest as [|c2 rest]; [exact I|]. left. reflexivity.
      * inversion V' as [|? ? Vl V'']; subst. simpl in Ln.
        destruct (is_low_surrogate l) eqn:L.
        -- assert (Hl : l < 65536) by (apply low_surrogate_range in L; lia).
           assert (El : escape_char l = u_escape l).
           { destruct (escape_char_shape l Vl)
               as [e _ _ _ X|_ _ _ _ X|X _|hi lo _ _ _ _ X];
               try (apply low_surrogate_range in L; lia). exact X. }
           unfold tail. cbn [flat_map]. rewrite El, <- app_assoc.
           rewrite scanstring_u_pair by assumption.
           rewrite (IH s'' ltac:(lia) V''). simpl. rewrite H, L. reflexivity.
        -- rewrite scanstring_u_single; [|exact Hc|].
           ++ rewrite T. simpl. rewrite H, L. reflexivity.
           ++ right. unfold tail. cbn [flat_map]. rewrite <- app_assoc.
              apply no_low_escape_char; assumption.
    + rewrite scanstring_u_single; [|exact Hc|left; exact H].
      rewrite T. rewrite merge_not_high by exact H. reflexivity.
  - rewrite <- app_assoc.
    rewrite scanstring_u_pair; try assumption.
    + rewrite T, J.
      rewrite merge_not_high by (apply not_high_surrogate; lia). reflexivity.
    + apply high_surrogate_range in Hh. lia.
    + apply low_surrogate_range in Hl. lia.
Qed.

Lemma scanstring_encoded s rest :
  valid_str s ->
  scanstring (flat_map escape_char s ++ 34 :: rest)
  = Ok (merge_surrogates s, rest).
Proof. intros V. exact (scanstring_escape (length s) s (le_n _) V rest). Qed.

(** ** Digits *)

Lemma digits_of_uint_lt u : Forall (fun d => d < 10) (digits_of_uint u).
Proof. induction u; simpl; constructor; (reflexivity || assumption). Qed.

Lemma uint_of_digits_of_uint u : uint_of_digits (digits_of_uint u) = u.
Proof. induction u; simpl; rewrite ?IHu; reflexivity. Qed.

Lemma N_of_digits_of_N n : N_of_digits (digits_of_N n) = n.
Proof.
  unfold N_of_digits, digits_of_N. rewrite uint_of_digits_of_uint.
  apply DecimalN.Unsigned.of_to.
Qed.

Lemma N_of_digits_zero ds : N_of_digits (0 :: ds) = N_of_digits ds.
Proof. reflexivity. Qed.

Lemma nzhead_shape u :
  match Decimal.nzhead u with Decimal.D0 _ => False | _ => True end.
Proof. induction u; simpl; auto. Qed.

(** The digits of a number: [0] alone, or digits without a leading
    zero. *)
Lemma digits_of_N_shape n :
  Forall (fun d => d < 10) (digits_of_N n) /\
  match digits_of_N n with
  | [] => False
  | d :: ds => if d =? 0 then n = 0 /\ ds = [] else n <> 0
  end.
Proof.
  split; [apply digits_of_uint_lt|].
  unfold digits_of_N.
  pose proof (DecimalN.Unsigned.to_of (N.to_uint n)) as E.
  rewrite DecimalN.Unsigned.of_to in E.
  assert (Z : n = 0 -> N.to_uint n = Decimal.D0 Decimal.Nil)
    by (intros ->; reflexivity).
  assert (NZ : N.to_uint n = Decimal.D0 Decimal.Nil -> n = 0).
  { intros H. apply DecimalN.Unsigned.to_uint_inj. rewrite H. reflexivity. }
  unfold Decimal.unorm in E. pose proof (nzhead_shape (N.to_uint n)) as S.
  destruct (Decimal.nzhead (N.to_uint n)) eqn:Hn; try contradiction;
    rewrite E; simpl; auto;
    intros ->; discriminate E.
Qed.

Lemma is_digit_char d : d < 10 -> is_digit (digit_char d) = true.
Proof.
  intros H. unfold is_digit, digit_char.
  apply andb_true_iff. split; apply N.leb_le; lia.
Qed.

Lemma digit_val_char d : digit_val (digit_char d) = d.
Proof. unfold digit_val, digit_char. lia. Qed.

Lemma take_digits_text ds rest :
  Forall (fun d => d < 10) ds -> not_digit_head rest ->
  take_digits (digits_text ds ++ rest) = (ds, rest).
Proof.
  intros F H. induction F as [|d ds Hd F IH];
    cbn [digits_text map app take_digits].
  - destruct rest as [|c rest]; [reflexivity|].
    cbn [take_digits]. simpl in H. rewrite H. reflexivity.
  - rewrite (is_digit_char d Hd). fold (digits_text ds). rewrite IH.
    rewrite digit_val_char. reflexivity.
Qed.

Lemma strip_zeros_nonzero d ds : d <> 0 -> strip_zeros (d :: ds) = d :: ds.
Proof. intros H. destruct d; [contradiction|reflexivity]. Qed.

Lemma strip_zeros_zeros m ds : strip_zeros (zeros m ++ ds) = strip_zeros ds.
Proof. induction m; simpl; auto. Qed.

Lemma rev_zeros m : rev (zeros m) = zeros m.
Proof.
  unfold zeros. induction m; simpl; [reflexivity|].
  rewrite IHm. symmetry. apply repeat_cons.
Qed.

Lemma last_rev_head {A} (l : list A) : last l = head (rev l).
Proof.
  induction l as [|x l IH] using rev_ind; [reflexivity|].
  rewrite last_snoc, rev_app_distr. reflexivity.
Qed.

(** Stripping the trailing zeros of digits that end in a non-zero. *)
Lemma strip_trailing ds m :
  last ds <> Some 0 -> ds <> [] ->
  rev (strip_zeros (rev (ds ++ zeros m))) = ds.
Proof.
  intros L Hne. rewrite rev_app_distr, rev_zeros, strip_zeros_zeros.
  rewrite last_rev_head in L.
  destruct (rev ds) as [|x r] eqn:E.
  - apply (f_equal (@rev N)) in E. rewrite rev_involutive in E. contradiction.
  - rewrite strip_zeros_nonzero by (simpl in L; congruence).
    rewrite <- E. apply rev_involutive.
Qed.

Lemma zeros_length m : length (zeros m) = m.
Proof. apply repeat_length. Qed.

Lemma zeros_lt m : Forall (fun d => d < 10) (zeros m).
Proof. induction m; simpl; constructor; (reflexivity || assumption). Qed.

(** ** Number literals *)

Lemma number_end_not_digit s : number_end s -> not_digit_head s.
Proof. destruct s; simpl; tauto. Qed.

Lemma digit_char_neq (d k : N) :
  d < 10 -> k < 48 \/ 57 < k -> (digit_char d =? k) = false.
Proof. intros H1 H2. apply N.eqb_neq. unfold digit_char. lia. Qed.

Lemma match_integer_text (neg : bool) d ds rest :
  Forall (fun d => d < 10) (d :: ds) -> (d = 0 -> ds = []) ->
  not_digit_head rest ->
  match_integer ((if neg then text "-" else @nil N) ++ digits_text (d :: ds) ++ rest)
  = Some (neg, d :: ds, rest).
Proof.
  intros F Z H. inversion F as [|? ? Hd F']; subst.
  assert (S : match_sign ((if neg then text "-" else @nil N)
                          ++ digits_text (d :: ds) ++ rest)
              = (neg, digits_text (d :: ds) ++ rest)).
  { destruct neg; [reflexivity|]. cbn [app digits_text map match_sign].
    rewrite digit_char_neq by (auto; lia). reflexivity. }
  unfold match_integer. rewrite S. cbn [digits_text map app].
  fold (digits_text ds).
  destruct (N.eq_dec d 0) as [->|Hz].
  - rewrite (Z eq_refl). reflexivity.
  - replace (digit_char d =? 48) with false
      by (symmetry; apply N.eqb_neq; unfold digit_char; lia).
    rewrite is_digit_char by exact Hd.
    rewrite take_digits_text by assumption.
    rewrite digit_val_char. reflexivity.
Qed.

Lemma match_frac_none rest : number_end rest -> match_frac rest = (None, rest).
Proof.
  destruct rest as [|c rest]; [reflexivity|]. intros (_ & E & _).
  cbn [match_frac]. rewrite E. reflexivity.
Qed.

Lemma match_exp_none rest : number_end rest -> match_exp rest = (None, rest).
Proof.
  destruct rest as [|c rest]; [reflexivity|]. intros (_ & _ & E1 & E2).
  cbn [match_exp]. rewrite E1, E2. reflexivity.
Qed.

Lemma match_frac_text d ds rest :
  Forall (fun d => d < 10) (d :: ds) -> not_digit_head rest ->
  match_frac (text "." ++ digits_text (d :: ds) ++ rest) = (Some (d :: ds), rest).
Proof.
  intros F H. change (text "." ++ ?x) with (46 :: x).
  cbn [match_frac]. change (46 =? 46) with true. cbn iota.
  rewrite take_digits_text by assumption. reflexivity.
Qed.

Lemma match_exp_text x rest :
  not_digit_head rest ->
  match_exp (text "e" ++ exponent_text x ++ rest) = (Some x, rest).
Proof.
  intros H. change (text "e" ++ ?y) with (101 :: y).
  cbn [match_exp]. change ((101 =? 101) || (101 =? 69)) with true. cbn iota.
  unfold exponent_text.
  destruct (digits_of_N_shape (Z.to_N (Z.abs x))) as [F S].
  pose proof (N_of_digits_of_N (Z.to_N (Z.abs x))) as V.
  set (ds := digits_of_N (Z.to_N (Z.abs x))) in *.
  set (padded := match ds with [_] => 0 :: ds | _ => ds end).
  assert (Fp : Forall (fun d => d < 10) padded).
  { unfold padded. destruct ds as [|a [|b ds']]; auto.
    constructor; [reflexivity|exact F]. }
  assert (Vp : N_of_digits padded = Z.to_N (Z.abs x)).
  { unfold padded. destruct ds as [|a [|b ds']]; auto. }
  assert (Np : padded <> []).
  { unfold padded. destruct ds as [|a [|b ds']]; try discriminate.
    contradiction. }
  rewrite <- app_assoc.
  destruct (x <? 0)%Z eqn:E.
  - change (text "-" ++ ?y) with (45 :: y). cbn [match_exp_sign].
    change (45 =? 45) with true. cbn iota.
    rewrite take_digits_text by assumption.
    destruct padded as [|p ps]; [contradiction|].
    rewrite Vp. f_equal. f_equal. apply Z.ltb_lt in E. lia.
  - change (text "+" ++ ?y) with (43 :: y). cbn [match_exp_sign].
    change (43 =? 45) with false. change (43 =? 43) with true. cbn iota.
    rewrite take_digits_text by assumption.
    destruct padded as [|p ps]; [contradiction|].
    rewrite Vp. f_equal. f_equal. apply Z.ltb_ge in E. lia.
Qed.

Lemma match_frac_e rest : match_frac (text "e" ++ rest) = (None, text "e" ++ rest).
Proof. reflexivity. Qed.

(** An integer literal is read back as the integer. *)
Lemma number_int z rest :
  number_end rest ->
  exists l, match_number (int_repr z ++ rest) = Some (l, rest) /\
            number_value l = PInt z.
Proof.
  intros H. unfold int_repr, match_number. rewrite <- app_assoc.
  destruct (digits_of_N_shape (Z.to_N (Z.abs z))) as [F S].
  pose proof (N_of_digits_of_N (Z.to_N (Z.abs z))) as V.
  destruct (digits_of_N (Z.to_N (Z.abs z))) as [|d ds]; [contradiction|].
  rewrite match_integer_text.
  - rewrite match_frac_none, match_exp_none by exact H.
    eexists. split; [reflexivity|]. unfold number_value; simpl.
    rewrite V. f_equal. destruct (z <? 0)%Z eqn:E.
    + apply Z.ltb_lt in E. lia.
    + apply Z.ltb_ge in E. lia.
  - exact F.
  - intros ->. simpl in S. tauto.
  - apply number_end_not_digit. exact H.
Qed.

(** ** Float literals *)

Lemma digits_text_app a b : digits_text (a ++ b) = digits_text a ++ digits_text b.
Proof. apply map_app. Qed.

Lemma float_of_literal_digits neg ip fp x full m :
  strip_zeros (ip ++ fp) = full ++ zeros m ->
  full <> [] -> last full <> Some 0 ->
  float_of_literal neg ip fp x
  = FFin neg full (x - Z.of_nat (length fp) + Z.of_nat m).
Proof.
  intros E Hne L. unfold float_of_literal. rewrite E.
  rewrite strip_trailing by assumption.
  destruct full as [|d full']; [contradiction|].
  f_equal. rewrite length_app, zeros_length. lia.
Qed.

Lemma float_of_literal_exact neg ip fp x full :
  strip_zeros (ip ++ fp) = full ->
  full <> [] -> last full <> Some 0 ->
  float_of_literal neg ip fp x = FFin neg full (x - Z.of_nat (length fp)).
Proof.
  intros E Hne L.
  rewrite (float_of_literal_digits neg ip fp x full 0);
    [f_equal; lia| |assumption|assumption].
  rewrite E. symmetry. apply app_nil_r.
Qed.

Lemma zeros_snoc m : zeros m ++ [0] = zeros (S m).
Proof. unfold zeros. simpl. symmetry. apply repeat_cons. Qed.

Lemma not_digit_dot s : not_digit_head (text "." ++ s).
Proof. reflexivity. Qed.

Lemma not_digit_e s : not_digit_head (text "e" ++ s).
Proof. reflexivity. Qed.

Lemma number_value_float neg ip fp ex :
  fp <> None \/ ex <> None ->
  number_value {| lit_neg := neg; lit_int := ip; lit_frac := fp; lit_exp := ex |}
  = PFloat (float_of_literal neg ip (default [] fp) (default 0%Z ex)).
Proof.
  unfold number_value; simpl. destruct fp, ex; try reflexivity.
  intros [H|H]; contradiction.
Qed.

(** A float literal is read back as the float. *)
Lemma number_float neg ds e rest :
  valid_float (FFin neg ds e) -> number_end rest ->
  exists l, match_number (float_repr neg ds e ++ rest) = Some (l, rest) /\
            number_value l = PFloat (FFin neg ds e).
Proof.
  intros [F V] H. pose proof (number_end_not_digit _ H) as H'.
  unfold float_repr, match_number. rewrite <- app_assoc.
  destruct ds as [|d ds'].
  { subst e.
    change (text "0.0" ++ rest)
      with (digits_text [0] ++ text "." ++ digits_text [0] ++ rest).
    rewrite match_integer_text;
      [|repeat constructor|reflexivity|apply not_digit_dot].
    rewrite match_frac_text; [|repeat constructor|exact H'].
    rewrite match_exp_none by exact H.
    eexists. split; [reflexivity|]. reflexivity. }
  destruct V as [Hd L].
  assert (Hne : d :: ds' <> []) by discriminate.
  inversion F as [|? ? Fd F']; subst.
  set (k := Z.of_nat (length (d :: ds'))).
  set (decpt := (k + e)%Z).
  assert (Hk : k = (1 + Z.of_nat (length ds'))%Z) by (unfold k; simpl; lia).
  destruct ((decpt <=? -4) || (16 <? decpt))%Z eqn:Esci.
  - (* scientific notation *)
    change (digit_char d :: ?x) with (digits_text [d] ++ x).
    rewrite <- !app_assoc.
    destruct ds' as [|d2 ds''].
    + cbn [app].
      rewrite match_integer_text;
        [|repeat constructor; exact Fd|reflexivity|apply not_digit_e].
      rewrite match_frac_e, match_exp_text by exact H'.
      eexists. split; [reflexivity|].
      rewrite number_value_float by (right; discriminate). simpl default.
      rewrite (float_of_literal_exact neg [d] [] _ [d]);
        [|apply strip_zeros_nonzero; exact Hd|discriminate|exact L].
      do 2 f_equal. unfold decpt, k. simpl. lia.
    + rewrite <- !app_assoc.
      rewrite match_integer_text;
        [|repeat constructor; exact Fd|reflexivity|apply not_digit_dot].
      rewrite match_frac_text; [|exact F'|apply not_digit_e].
      rewrite match_exp_text by exact H'.
      eexists. split; [reflexivity|].
      rewrite number_value_float by (left; discriminate). simpl default.
      rewrite (float_of_literal_exact neg [d] (d2 :: ds'') _
                 (d :: d2 :: ds''));
        [|apply strip_zeros_nonzero; exact Hd|discriminate|exact L].
      do 2 f_equal. unfold decpt. rewrite Hk. simpl length. lia.
  - apply orb_false_iff in Esci as [E1 E2].
    apply Z.leb_gt in E1. apply Z.ltb_ge in E2.
    destruct (decpt <=? 0)%Z eqn:E3.
    + (* 0.000ddd *)
      apply Z.leb_le in E3.
      set (m := Z.to_nat (- decpt)).
      change (text "0." ++ ?x) with (digits_text [0] ++ text "." ++ x).
      rewrite <- !app_assoc.
      rewrite match_integer_text;
        [|repeat constructor|reflexivity|apply not_digit_dot].
      assert (Fz : Forall (fun d => d < 10) (zeros m ++ d :: ds'))
        by (apply Forall_app; split; [apply zeros_lt|exact F]).
      destruct (zeros m ++ d :: ds') as [|z0 zs] eqn:Ez.
      { destruct (zeros m); discriminate Ez. }
      rewrite match_frac_text; [|exact Fz|exact H'].
      rewrite match_exp_none by exact H.
      eexists. split; [reflexivity|].
      rewrite number_value_float by (left; discriminate). simpl default.
      rewrite <- Ez.
      rewrite (float_of_literal_exact neg [0] (zeros m ++ d :: ds') _
                 (d :: ds'));
        [|change ([0] ++ ?x) with (0 :: x); cbn [strip_zeros];
          rewrite strip_zeros_zeros; apply strip_zeros_nonzero; exact Hd
         |discriminate|exact L].
      do 2 f_equal. rewrite length_app, zeros_length.
      unfold m, decpt in *. fold k. lia.
    + apply Z.leb_gt in E3.
      destruct (k <=? decpt)%Z eqn:E4.
      * (* ddd000.0 *)
        apply Z.leb_le in E4.
        set (m := Z.to_nat (decpt - k)).
        change (text ".0") with (text "." ++ digits_text [0]).
        rewrite <- !app_assoc.
        change ((d :: ds') ++ zeros m) with (d :: (ds' ++ zeros m)).
        rewrite match_integer_text;
          [|constructor; [exact Fd|apply Forall_app; split;
                                   [exact F'|apply zeros_lt]]
           |intros ->; contradiction|apply not_digit_dot].
        rewrite match_frac_text; [|repeat constructor|exact H'].
        rewrite match_exp_none by exact H.
        eexists. split; [reflexivity|].
        rewrite number_value_float by (left; discriminate). simpl default.
        rewrite (float_of_literal_digits neg _ [0] _ (d :: ds') (S m));
          [|change (d :: ds' ++ zeros m) with ((d :: ds') ++ zeros m);
            rewrite <- app_assoc, zeros_snoc;
            apply strip_zeros_nonzero; exact Hd
           |discriminate|exact L].
        do 2 f_equal. unfold m, decpt in *. simpl length. lia.
      * (* dd.ddd *)
        apply Z.leb_gt in E4.
        set (p := Z.to_nat decpt).
        assert (Hp : (1 <= p < length (d :: ds'))%nat)
          by (unfold p, k in *; lia).
        destruct p as [|p'] eqn:Ep; [lia|].
        cbn [take firstn]. fold (take p' ds').
        rewrite <- !app_assoc.
        rewrite match_integer_text;
          [|constructor; [exact Fd|apply Forall_take; exact F']
           |intros ->; contradiction|apply not_digit_dot].
        cbn [drop skipn]. fold (drop p' ds').
        assert (Fdr : Forall (fun d => d < 10) (drop p' ds'))
          by (apply Forall_drop; exact F').
        destruct (drop p' ds') as [|x xs] eqn:Ed.
        { apply (f_equal (@length N)) in Ed. rewrite length_drop in Ed.
          simpl in Ed, Hp. lia. }
        rewrite match_frac_text; [|exact Fdr|exact H'].
        rewrite match_exp_none by exact H.
        eexists. split; [reflexivity|].
        rewrite number_value_float by (left; discriminate). simpl default.
        rewrite <- Ed.
        rewrite (float_of_literal_exact neg _ (drop p' ds') _ (d :: ds'));
          [|change ((d :: take p' ds') ++ drop p' ds')
              with (d :: (take p' ds' ++ drop p' ds'));
            rewrite take_drop; apply strip_zeros_nonzero; exact Hd
           |discriminate|exact L].
        do 2 f_equal. rewrite length_drop. unfold p, decpt in *. simpl in Hp. lia.
Qed.

(** ** Induction on values *)

Lemma pyval_induction (P : pyval -> Prop) :
  P PNone -> (forall b, P (PBool b)) -> (forall z, P (PInt z)) ->
  (forall f, P (PFloat f)) -> (forall s, P (PStr s)) ->
  (forall l, Forall P l -> P (PList l)) ->
  (forall l, Forall P l -> P (PTuple l)) ->
  (forall d, Forall (fun kv => P kv.1 /\ P kv.2) d -> P (PDict d)) ->
  (forall id, P (PObject id)) ->
  forall v, P v.
Proof.
  intros HN HB HI HF HS HL HT HD HO.
  fix IH 1. intros [| | | | |l|l|d|].
  - exact HN.
  - apply HB.
  - apply HI.
  - apply HF.
  - apply HS.
  - apply HL. induction l as [|x l IHl]; constructor; [apply IH|exact IHl].
  - apply HT. induction l as [|x l IHl]; constructor; [apply IH|exact IHl].
  - apply HD. induction d as [|[k x] d IHd]; constructor;
      [split; apply IH|exact IHd].
  - apply HO.
Qed.

Lemma fold_and_Forall {A} (P : A -> Prop) l : fold_and P l <-> Forall P l.
Proof.
  induction l as [|x l IH]; simpl.
  - split; [constructor|exact (fun _ => I)].
  - rewrite Forall_cons, IH. reflexivity.
Qed.

(** ** Steps of the decoder *)

Lemma delim_number_end s : delim s -> number_end s.
Proof.
  destruct s as [|c s]; [exact (fun _ => I)|].
  intros [-> | [-> | ->]]; repeat split; reflexivity.
Qed.

Lemma skip_ws_starts s : starts_value s -> skip_ws s = s.
Proof.
  destruct s as [|c s]; [contradiction|]. intros [H _]. simpl. rewrite H.
  reflexivity.
Qed.

Lemma scan_once_string n s rest :
  valid_str s ->
  scan_once (S n) (encode_basestring_ascii s ++ rest)
  = Ok (PStr (merge_surrogates s), rest).
Proof.
  intros V. unfold encode_basestring_ascii.
  cbn [app scan_once]. change (34 =? 34) with true. cbn iota.
  rewrite <- app_assoc. cbn [app].
  rewrite scanstring_encoded by exact V. reflexivity.
Qed.

Lemma scan_once_number n s l r :
  match_number s = Some (l, r) ->
  scan_once (S n) s = Ok (number_value l, r).
Proof.
  intros M. destruct s as [|c s1]; [discriminate M|].
  assert (C : c = 45 \/ is_digit c = true).
  { unfold match_number in M.
    destruct (match_integer (c :: s1)) as [[[neg ip] r1]|] eqn:I;
      [|discriminate M].
    unfold match_integer in I. cbn [match_sign] in I.
    destruct (c =? 45) eqn:E; [left; apply N.eqb_eq; exact E|right].
    destruct (c =? 48) eqn:E0.
    - apply N.eqb_eq in E0 as ->. reflexivity.
    - destruct (is_digit c); [reflexivity|discriminate I]. }
  assert (Q : forall k, (k < 45 \/ 45 < k < 48 \/ 57 < k) -> (c =? k) = false).
  { intros k Hk. apply N.eqb_neq.
    destruct C as [->|C]; [lia|].
    unfold is_digit in C. apply andb_true_iff in C as [C1 C2].
    apply N.leb_le in C1, C2. lia. }
  cbn [scan_once].
  rewrite (Q 34), (Q 123), (Q 91) by lia.
  change (text "null") with [110; 117; 108; 108].
  change (text "true") with [116; 114; 117; 101].
  change (text "false") with [102; 97; 108; 115; 101].
  cbn [startswith]. rewrite (Q 110), (Q 116), (Q 102) by lia.
  cbn [andb]. rewrite M. reflexivity.
Qed.

Lemma scan_once_list n s vs r :
  starts_value s ->
  parse_items n s = Ok (vs, r) ->
  scan_once (S n) (91 :: s) = Ok (PList vs, r).
Proof.
  intros H P. cbn [scan_once].
  change (91 =? 34) with false. change (91 =? 123) with false.
  change (91 =? 91) with true. cbn iota.
  rewrite skip_ws_starts by exact H.
  destruct s as [|c s]; [contradiction|]. destruct H as (_ & H & _).
  cbn [startswith]. rewrite H. cbn [andb]. rewrite P. reflexivity.
Qed.

Lemma scan_once_dict n s ps r :
  parse_members n s = Ok (ps, r) ->
  scan_once (S n) (123 :: 34 :: s) = Ok (PDict (dict_of_pairs ps), r).
Proof.
  intros P. cbn [scan_once skip_ws].
  change (123 =? 34) with false. change (123 =? 123) with true.
  change (is_ws 34) with false. change (34 =? 125) with false.
  change (34 =? 34) with true. cbn iota. rewrite P. reflexivity.
Qed.

Lemma skip_ws_delim s : delim s -> skip_ws s = s.
Proof.
  destruct s as [|c s]; [reflexivity|].
  intros [-> | [-> | ->]]; reflexivity.
Qed.

Lemma parse_items_last n s v r :
  scan_once n s = Ok (v, 93 :: r) ->
  parse_items (S n) s = Ok ([v], r).
Proof. intros H. cbn [parse_items]. rewrite H. reflexivity. Qed.

Lemma parse_items_more n s v s' vs r :
  scan_once n s = Ok (v, 44 :: 32 :: s') ->
  starts_value s' ->
  parse_items n s' = Ok (vs, r) ->
  parse_items (S n) s = Ok (v :: vs, r).
Proof.
  intros H S P. cbn [parse_items]. rewrite H. cbn [bind].
  change (skip_ws (44 :: 32 :: s')) with (44 :: 32 :: s').
  change (44 =? 93) with false. change (44 =? 44) with true. cbn iota.
  change (skip_ws (32 :: s')) with (skip_ws s').
  rewrite skip_ws_starts by exact S. rewrite P. reflexivity.
Qed.

Lemma parse_members_value n s k s1 :
  scanstring s = Ok (k, 58 :: 32 :: s1) ->
  starts_value s1 ->
  parse_members (S n) s =
  let* (v, r2) := scan_once n s1 in
  match skip_ws r2 with
  | c :: r3 =>
      if c =? 125 then Ok ([(k, v)], r3)
      else if c =? 44 then
        if startswith (skip_ws r3) [34] then
          let* (ps, r5) := parse_members n (drop 1 (skip_ws r3)) in
          Ok ((k, v) :: ps, r5)
        else Err JSONDecodeError
      else Err JSONDecodeError
  | [] => Err JSONDecodeError
  end.
Proof.
  intros H S. cbn [parse_members]. rewrite H. cbn [bind].
  change (skip_ws (58 :: 32 :: s1)) with (58 :: 32 :: s1).
  change (startswith (58 :: 32 :: s1) [58]) with true. cbn iota.
  change (drop 1 (58 :: 32 :: s1)) with (32 :: s1).
  change (skip_ws (32 :: s1)) with (skip_ws s1).
  rewrite skip_ws_starts by exact S. reflexivity.
Qed.

Lemma parse_members_last n s k s1 v r :
  scanstring s = Ok (k, 58 :: 32 :: s1) ->
  starts_value s1 ->
  scan_once n s1 = Ok (v, 125 :: r) ->
  parse_members (S n) s = Ok ([(k, v)], r).
Proof.
  intros H S P. rewrite (parse_members_value n s k s1 H S), P. reflexivity.
Qed.

Lemma parse_members_more n s k s1 v s2 ps r :
  scanstring s = Ok (k, 58 :: 32 :: s1) ->
  starts_value s1 ->
  scan_once n s1 = Ok (v, 44 :: 32 :: 34 :: s2) ->
  parse_members n s2 = Ok (ps, r) ->
  parse_members (S n) s = Ok ((k, v) :: ps, r).
Proof.
  intros H S P M. rewrite (parse_members_value n s k s1 H S), P. cbn [bind].
  change (skip_ws (44 :: 32 :: 34 :: s2)) with (44 :: 32 :: 34 :: s2).
  change (44 =? 125) with false. change (44 =? 44) with true. cbn iota.
  change (skip_ws (32 :: 34 :: s2)) with (34 :: s2).
  change (startswith (34 :: s2) [34]) with true. cbn iota.
  change (drop 1 (34 :: s2)) with s2. rewrite M. reflexivity.
Qed.

(** ** The texts of scalars *)

Lemma match_number_head s l r :
  match_number s = Some (l, r) ->
  exists c s1, s = c :: s1 /\ (c = 45 \/ is_digit c = true).
Proof.
  intros M. destruct s as [|c s1]; [discriminate M|].
  exists c, s1. split; [reflexivity|].
  unfold match_number in M.
  destruct (match_integer (c :: s1)) as [[[neg ip] r1]|] eqn:I;
    [|discriminate M].
  unfold match_integer in I. cbn [match_sign] in I.
  destruct (c =? 45) eqn:E; [left; apply N.eqb_eq; exact E|right].
  destruct (c =? 48) eqn:E0.
  - apply N.eqb_eq in E0 as ->. reflexivity.
  - destruct (is_digit c); [reflexivity|discriminate I].
Qed.

Lemma number_starts_value s l r :
  match_number s = Some (l, r) -> starts_value s.
Proof.
  intros M. destruct (match_number_head s l r M) as (c & s1 & -> & C).
  simpl. destruct C as [->|C]; [repeat split; reflexivity|].
  unfold is_digit in C. apply andb_true_iff in C as [C1 C2].
  apply N.leb_le in C1, C2. unfold is_ws.
  split; [|split; [apply N.eqb_neq; lia|lia]].
  repeat (apply orb_false_iff; split); apply N.eqb_neq; lia.
Qed.

Lemma starts_value_app s rest : starts_value s -> starts_value (s ++ rest).
Proof. destruct s; [contradiction|exact id]. Qed.

Lemma starts_value_of_app s rest :
  s <> [] -> starts_value (s ++ rest) -> starts_value s.
Proof. destruct s; [contradiction|intros _; exact id]. Qed.

Lemma int_repr_starts z : starts_value (int_repr z).
Proof.
  destruct (number_int z [] I) as (l & M & _). rewrite app_nil_r in M.
  exact (number_starts_value _ _ _ M).
Qed.

Lemma float_repr_starts neg ds e :
  valid_float (FFin neg ds e) -> starts_value (float_repr neg ds e).
Proof.
  intros V. destruct (number_float neg ds e [] V I) as (l & M & _).
  rewrite app_nil_r in M. exact (number_starts_value _ _ _ M).
Qed.

Lemma ascii_valid s : ascii_str s -> valid_str s.
Proof.
  intros F. eapply Forall_impl; [exact F|]. intros c H. cbv beta in *. lia.
Qed.

Lemma ascii_digits ds :
  Forall (fun d => d < 10) ds -> ascii_str (digits_text ds).
Proof.
  intros F. unfold ascii_str, digits_text. apply Forall_map.
  eapply Forall_impl; [exact F|]. intros d H. cbv beta in *.
  unfold digit_char. lia.
Qed.

Lemma ascii_text_literal (s : string) :
  forallb (fun c => c <? 128) (text s) = true -> ascii_str (text s).
Proof.
  intros H. apply List.Forall_forall. intros c Hc.
  rewrite forallb_forall in H. apply N.ltb_lt. apply H. exact Hc.
Qed.

Lemma ascii_int_repr z : ascii_str (int_repr z).
Proof.
  unfold int_repr. apply Forall_app. split.
  - destruct (z <? 0)%Z; [apply ascii_text_literal; reflexivity|constructor].
  - apply ascii_digits. apply digits_of_N_shape.
Qed.

Lemma ascii_exponent_text x : ascii_str (exponent_text x).
Proof.
  unfold exponent_text. apply Forall_app. split.
  - destruct (x <? 0)%Z; apply ascii_text_literal; reflexivity.
  - apply ascii_digits.
    pose proof (proj1 (digits_of_N_shape (Z.to_N (Z.abs x)))) as F.
    destruct (digits_of_N (Z.to_N (Z.abs x))) as [|a [|b ds]]; auto.
    constructor; [reflexivity|exact F].
Qed.

Lemma ascii_float_repr neg ds e :
  Forall (fun d => d < 10) ds -> ascii_str (float_repr neg ds e).
Proof.
  intros F. unfold float_repr. apply Forall_app. split.
  { destruct neg; [apply ascii_text_literal; reflexivity|constructor]. }
  destruct ds as [|d rest]; [apply ascii_text_literal; reflexivity|].
  inversion F as [|? ? Fd F']; subst.
  repeat match goal with
  | |- Forall _ (if ?b then _ else _) => destruct b
  | |- Forall _ (match ?l with [] => _ | _ => _ end) => destruct l
  | |- Forall _ (_ ++ _) => apply Forall_app; split
  | |- Forall _ (digit_char _ :: _) =>
      apply Forall_cons; split; [unfold digit_char; lia|]
  | |- Forall _ [] => constructor
  | |- Forall _ (text _) => apply ascii_text_literal; reflexivity
  | |- Forall _ (exponent_text _) => apply ascii_exponent_text
  | |- Forall _ (digits_text _) => apply ascii_digits
  | |- Forall _ (zeros _) => apply zeros_lt
  | |- Forall _ (take _ _) => apply Forall_take
  | |- Forall _ (drop _ _) => apply Forall_drop
  | |- Forall _ _ => assumption
  end.
Qed.

(** The text of a key that [json.dumps] accepts is a string. *)
Lemma key_text_valid k t :
  valid_val k -> key_text k = Ok t -> valid_str t.
Proof.
  destruct k as [|[]|z|f|s| | | |]; simpl; intros V [= <-];
    try (apply ascii_valid; apply ascii_text_literal; reflexivity).
  - apply ascii_valid, ascii_int_repr.
  - destruct f as [|[]|neg ds e];
      try (apply ascii_valid; apply ascii_text_literal; reflexivity).
    apply ascii_valid, ascii_float_repr. apply V.
  - exact V.
Qed.

(** The text of a value begins where a value may begin. *)
Lemma encode_starts v t : valid_val v -> encode v = Ok t -> starts_value t.
Proof.
  destruct v as [|[]|z|f|s|l|l|d|]; cbn [encode]; intros V H;
    try (injection H as <-; repeat split; reflexivity);
    try discriminate H.
  - injection H as <-. apply int_repr_starts.
  - injection H as <-. destruct f as [|[]|neg ds e];
      try (repeat split; reflexivity).
    apply float_repr_starts. exact V.
  - apply bind_ok in H as (chunks & _ & [= <-]). repeat split; reflexivity.
  - apply bind_ok in H as (chunks & _ & [= <-]). repeat split; reflexivity.
  - apply bind_ok in H as (chunks & _ & [= <-]). repeat split; reflexivity.
Qed.

Lemma scan_once_literals n rest :
  scan_once (S n) (text "null" ++ rest) = Ok (PNone, rest) /\
  scan_once (S n) (text "true" ++ rest) = Ok (PBool true, rest) /\
  scan_once (S n) (text "false" ++ rest) = Ok (PBool false, rest) /\
  scan_once (S n) (text "NaN" ++ rest) = Ok (PFloat FNan, rest) /\
  scan_once (S n) (text "Infinity" ++ rest) = Ok (PFloat (FInf false), rest) /\
  scan_once (S n) (text "-Infinity" ++ rest) = Ok (PFloat (FInf true), rest).
Proof. repeat split; reflexivity. Qed.

(** ** Decoding the text of a value *)

Lemma size_list l : size (PList l) = S (items_size l).
Proof. reflexivity. Qed.

Lemma size_tuple l : size (PTuple l) = S (items_size l).
Proof. reflexivity. Qed.

Lemma size_dict d : size (PDict d) = S (members_size d).
Proof. reflexivity. Qed.

Lemma encode_list l :
  encode (PList l) =
  let* chunks := result_map encode l in
  Ok (text "[" ++ join_items chunks ++ text "]").
Proof. reflexivity. Qed.

Lemma encode_tuple l : encode (PTuple l) = encode (PList l).
Proof. reflexivity. Qed.

Lemma encode_dict d :
  encode (PDict d) =
  let* chunks := result_map encode_member d in
  Ok (text "{" ++ join_items chunks ++ text "}").
Proof. reflexivity. Qed.

Lemma result_map_cons {A B} (f : A -> result B) x l ys :
  result_map f (x :: l) = Ok ys ->
  exists y ys', f x = Ok y /\ result_map f l = Ok ys' /\ ys = y :: ys'.
Proof.
  cbn [result_map]. intros H.
  apply bind_ok in H as (y & Hy & H).
  apply bind_ok in H as (ys' & Hys & [= <-]). eauto.
Qed.

Lemma join_items_cons a b cs :
  join_items (a :: b :: cs) = a ++ 44 :: 32 :: join_items (b :: cs).
Proof. reflexivity. Qed.

Lemma join_items_starts a cs rest :
  starts_value a -> starts_value (join_items (a :: cs) ++ rest).
Proof.
  intros H. destruct cs as [|b cs].
  - apply starts_value_app. exact H.
  - rewrite join_items_cons. rewrite <- app_assoc.
    apply starts_value_app. exact H.
Qed.

Lemma parse_items_encoded l :
  Forall decodes l -> l <> [] ->
  forall chunks, Forall valid_val l -> result_map encode l = Ok chunks ->
  forall n rest, (items_size l <= n)%nat ->
  parse_items n (join_items chunks ++ 93 :: rest) = Ok (map canon l, rest).
Proof.
  induction 1 as [|x l' Hx Hl IH]; [contradiction|]. intros _ chunks V E n rest Hn.
  apply result_map_cons in E as (cx & chunks' & Ex & E' & ->).
  inversion V as [|? ? Vx V']; subst.
  cbn [items_size fold_right] in Hn. fold (items_size l') in Hn.
  destruct n as [|n]; [lia|].
  destruct l' as [|y l''].
  - injection E' as <-. cbn [join_items map].
    apply parse_items_last. apply Hx; [exact Vx|exact Ex|lia|].
    right; left; reflexivity.
  - destruct (result_map_cons _ _ _ _ E') as (cy & chunks'' & Ey & _ & ->).
    inversion V' as [|? ? Vy _]; subst.
    rewrite join_items_cons, <- app_assoc. cbn [app map].
    eapply parse_items_more.
    + apply Hx; [exact Vx|exact Ex|lia|]. left; reflexivity.
    + apply join_items_starts. exact (encode_starts y cy Vy Ey).
    + apply IH; [discriminate|exact V'|exact E'|lia].
Qed.

Lemma member_text k vt tail :
  (encode_basestring_ascii k ++ text ": " ++ vt) ++ tail
  = 34 :: flat_map escape_char k ++ 34 :: 58 :: 32 :: vt ++ tail.
Proof.
  unfold encode_basestring_ascii. change (text ": ") with [58; 32].
  cbn [app]. rewrite <- !app_assoc. reflexivity.
Qed.

Lemma parse_members_encoded d :
  Forall (fun kv => decodes kv.1 /\ decodes kv.2) d -> d <> [] ->
  forall chunks,
    Forall (fun kv => valid_val kv.1 /\ valid_val kv.2) d ->
    result_map encode_member d = Ok chunks ->
  forall n rest, (members_size d <= n)%nat ->
  exists body,
    join_items chunks ++ 125 :: rest = 34 :: body /\
    parse_members n body
    = Ok (map (fun kv => (merge_surrogates (key_str kv.1), canon kv.2)) d,
          rest).
Proof.
  induction 1 as [|[k x] d' [_ Hx] Hd IH]; [contradiction|].
  intros _ chunks V E n rest Hn.
  apply result_map_cons in E as (cx & chunks' & Ex & E' & ->).
  inversion V as [|? ? [Vk Vx] V']; subst. simpl in Vk, Vx.
  unfold encode_member in Ex. cbn [fst snd] in Ex.
  apply bind_ok in Ex as (kt & Ek & Ex).
  apply bind_ok in Ex as (vt & Ev & Ex).
  assert (cx = encode_basestring_ascii kt ++ text ": " ++ vt) as ->
    by congruence.
  clear Ex. pose proof (key_text_valid k kt Vk Ek) as Vkt.
  cbn [members_size fold_right] in Hn. fold (members_size d') in Hn.
  simpl in Hn. simpl in Hx.
  destruct n as [|n]; [lia|].
  assert (Ks : key_str k = kt) by (unfold key_str; rewrite Ek; reflexivity).
  destruct d' as [|[k2 y] d''].
  - injection E' as <-. cbn [join_items map].
    eexists. split; [rewrite member_text; reflexivity|].
    simpl fst; simpl snd. rewrite Ks.
    eapply parse_members_last.
    + apply scanstring_encoded. exact Vkt.
    + apply starts_value_app. exact (encode_starts x vt Vx Ev).
    + apply Hx; [exact Vx|exact Ev|lia|]. right; right; reflexivity.
  - destruct (IH ltac:(discriminate) chunks' V' E' n rest ltac:(lia))
      as (body & Hb & Pb).
    destruct (result_map_cons _ _ _ _ E') as (cy & chunks'' & _ & _ & ->).
    eexists. split.
    { rewrite join_items_cons, <- app_assoc. cbn [app]. rewrite Hb.
      rewrite member_text. reflexivity. }
    cbn [map]. simpl fst; simpl snd. rewrite Ks.
    eapply parse_members_more.
    + apply scanstring_encoded. exact Vkt.
    + apply starts_value_app. exact (encode_starts x vt Vx Ev).
    + apply Hx; [exact Vx|exact Ev|lia|]. left; reflexivity.
    + exact Pb.
Qed.

Theorem decodes_all v : decodes v.
Proof.
  induction v as [|b|z|f|s|l IH|l IH|d IH|id] using pyval_induction;
    intros t V E n rest Hn D;
    rewrite ?size_list, ?size_tuple, ?size_dict in Hn;
    (destruct n as [|n]; [simpl in Hn; lia|]).
  - injection E as <-. apply scan_once_literals.
  - destruct b; injection E as <-; apply scan_once_literals.
  - injection E as <-.
    destruct (number_int z rest (delim_number_end _ D)) as (l & M & Hl).
    rewrite (scan_once_number _ _ _ _ M), Hl. reflexivity.
  - injection E as <-. destruct f as [|[]|neg ds e];
      try apply scan_once_literals.
    destruct (number_float neg ds e rest V (delim_number_end _ D))
      as (l & M & Hl).
    rewrite (scan_once_number _ _ _ _ M), Hl. reflexivity.
  - injection E as <-. apply scan_once_string. exact V.
  - rewrite encode_list in E. apply bind_ok in E as (chunks & E & Et).
    assert (t = text "[" ++ join_items chunks ++ text "]") as -> by congruence.
    clear Et. destruct l as [|x l'].
    + injection E as <-. reflexivity.
    + change (text "[" ++ ?a ++ text "]") with (91 :: a ++ [93]).
      cbn [app]. rewrite <- app_assoc. cbn [app].
      destruct (result_map_cons _ _ _ _ E) as (cx & chunks' & Ex & _ & ->).
      apply fold_and_Forall in V. inversion V as [|? ? Vx _]; subst.
      apply scan_once_list.
      * apply join_items_starts. exact (encode_starts x cx Vx Ex).
      * apply parse_items_encoded;
          [exact IH|discriminate|exact V|exact E|lia].
  - rewrite encode_tuple, encode_list in E.
    apply bind_ok in E as (chunks & E & Et).
    assert (t = text "[" ++ join_items chunks ++ text "]") as -> by congruence.
    clear Et. destruct l as [|x l'].
    + injection E as <-. reflexivity.
    + change (text "[" ++ ?a ++ text "]") with (91 :: a ++ [93]).
      cbn [app]. rewrite <- app_assoc. cbn [app].
      destruct (result_map_cons _ _ _ _ E) as (cx & chunks' & Ex & _ & ->).
      apply fold_and_Forall in V. inversion V as [|? ? Vx _]; subst.
      apply scan_once_list.
      * apply join_items_starts. exact (encode_starts x cx Vx Ex).
      * apply parse_items_encoded;
          [exact IH|discriminate|exact V|exact E|lia].
  - rewrite encode_dict in E. apply bind_ok in E as (chunks & E & Et).
    assert (t = text "{" ++ join_items chunks ++ text "}") as -> by congruence.
    clear Et. destruct d as [|kv d'].
    + injection E as <-. reflexivity.
    + change (text "{" ++ ?a ++ text "}") with (123 :: a ++ [125]).
      cbn [app]. rewrite <- app_assoc. cbn [app].
      apply fold_and_Forall in V.
      destruct (parse_members_encoded (kv :: d') IH ltac:(discriminate)
                  chunks V E n rest ltac:(lia))
        as (body & -> & P).
      apply scan_once_dict. exact P.
  - discriminate E.
Qed.

(** ** [json.loads] after [json.dumps] *)

Lemma float_repr_length neg ds e : (1 <= length (float_repr neg ds e))%nat.
Proof.
  unfold float_repr. rewrite length_app.
  destruct ds as [|d rest]; [simpl; lia|].
  repeat match goal with
  | |- context [if ?b then _ else _] => destruct b
  end; rewrite ?length_app; simpl length; lia.
Qed.

Lemma starts_value_length s : starts_value s -> (1 <= length s)%nat.
Proof. destruct s; [contradiction|simpl; lia]. Qed.

Lemma join_items_length a b cs :
  length (join_items (a :: b :: cs))
  = (length a + 2 + length (join_items (b :: cs)))%nat.
Proof. rewrite join_items_cons, length_app. simpl. lia. Qed.

Lemma items_size_le l :
  Forall (fun x => forall t, encode x = Ok t -> (size x <= length t)%nat) l ->
  forall chunks, result_map encode l = Ok chunks ->
  (items_size l <= length (join_items chunks) + 1)%nat.
Proof.
  induction 1 as [|x l' Hx _ IH]; intros chunks E.
  - simpl. lia.
  - apply result_map_cons in E as (cx & chunks' & Ex & E' & ->).
    specialize (Hx cx Ex). specialize (IH chunks' E').
    cbn [items_size fold_right]. fold (items_size l').
    destruct chunks' as [|cy chunks''].
    + destruct l' as [|y l'']; [simpl; lia|].
      apply result_map_cons in E' as (? & ? & _ & _ & [=]).
    + rewrite join_items_length. lia.
Qed.

Lemma members_size_le d :
  Forall (fun kv => forall t, encode kv.2 = Ok t -> (size kv.2 <= length t)%nat)
         d ->
  forall chunks, result_map encode_member d = Ok chunks ->
  (members_size d <= length (join_items chunks) + 1)%nat.
Proof.
  induction 1 as [|[k x] d' Hx _ IH]; intros chunks E.
  - simpl. lia.
  - apply result_map_cons in E as (cx & chunks' & Ex & E' & ->).
    unfold encode_member in Ex. cbn [fst snd] in Ex.
    apply bind_ok in Ex as (kt & _ & Ex).
    apply bind_ok in Ex as (vt & Ev & Ex).
    assert (cx = encode_basestring_ascii kt ++ text ": " ++ vt) as ->
      by congruence.
    clear Ex. specialize (Hx vt Ev). specialize (IH chunks' E').
    cbn [snd] in Hx.
    cbn [members_size fold_right snd]. fold (members_size d').
    assert (L : (length vt <= length (encode_basestring_ascii kt
                                       ++ text ": " ++ vt))%nat)
      by (rewrite !length_app; lia).
    destruct chunks' as [|cy chunks''].
    + destruct d' as [|y d''];
        [cbn [join_items members_size fold_right] in *; lia|].
      apply result_map_cons in E' as (? & ? & _ & _ & [=]).
    + rewrite join_items_length. lia.
Qed.

Lemma size_le_length v : forall t, encode v = Ok t -> (size v <= length t)%nat.
Proof.
  induction v as [|b|z|f|s|l IH|l IH|d IH|id] using pyval_induction;
    intros t E.
  - injection E as <-. simpl. lia.
  - destruct b; injection E as <-; simpl; lia.
  - injection E as <-. apply starts_value_length, int_repr_starts.
  - injection E as <-. destruct f as [|[]|neg ds e]; try (simpl; lia).
    apply float_repr_length.
  - injection E as <-. unfold encode_basestring_ascii. simpl. lia.
  - rewrite encode_list in E. apply bind_ok in E as (chunks & E & Et).
    assert (t = text "[" ++ join_items chunks ++ text "]") as -> by congruence.
    pose proof (items_size_le l IH chunks E).
    rewrite size_list, !length_app. simpl length. lia.
  - rewrite encode_tuple, encode_list in E.
    apply bind_ok in E as (chunks & E & Et).
    assert (t = text "[" ++ join_items chunks ++ text "]") as -> by congruence.
    pose proof (items_size_le l IH chunks E).
    rewrite size_tuple, !length_app. simpl length. lia.
  - rewrite encode_dict in E. apply bind_ok in E as (chunks & E & Et).
    assert (t = text "{" ++ join_items chunks ++ text "}") as -> by congruence.
    assert (IH' : Forall (fun kv => forall t, encode kv.2 = Ok t ->
                                    (size kv.2 <= length t)%nat) d)
      by (eapply Forall_impl; [exact IH|]; intros kv [_ H]; exact H).
    pose proof (members_size_le d IH' chunks E).
    rewrite size_dict, !length_app. simpl length. lia.
  - discriminate E.
Qed.

(** In the model, what the encoder writes the decoder reads, and what
    it reads is [canon] of the value written. *)
Theorem loads_dumps v t :
  valid_val v -> json_dumps v = Ok t -> json_loads t = Ok (canon v).
Proof.
  unfold json_dumps. intros V E.
  pose proof (encode_starts v t V E) as S.
  pose proof (size_le_length v t E) as L.
  unfold json_loads.
  assert (B : startswith t [65279] = false).
  { destruct t as [|c t']; [contradiction|]. destruct S as (_ & _ & S).
    cbn [startswith].
    replace (c =? 65279) with false by (symmetry; apply N.eqb_neq; lia).
    reflexivity. }
  rewrite B, skip_ws_starts by exact S.
  pose proof (decodes_all v t V E (2 * length t + 2)%nat [] ltac:(lia) I) as D.
  rewrite app_nil_r in D. rewrite D. reflexivity.
Qed.

(** ** What [json.dumps] accepts *)

Lemma key_text_spec k :
  match key_text k with
  | Ok _ => is_key k = true
  | Err e => is_key k = false /\ e = TypeError
  end.
Proof. destruct k as [|[]| | | | | | |]; simpl; auto. Qed.

Lemma result_map_spec {A B} (f : A -> result B) (ok : A -> bool) l :
  Forall (fun x => match f x with
                   | Ok _ => ok x = true
                   | Err e => ok x = false /\ e = TypeError
                   end) l ->
  match result_map f l with
  | Ok _ => forallb ok l = true
  | Err e => forallb ok l = false /\ e = TypeError
  end.
Proof.
  induction 1 as [|x l Hx _ IH]; [reflexivity|].
  cbn [result_map forallb].
  destruct (f x) as [y|e]; cbn [bind].
  - rewrite Hx. destruct (result_map f l) as [ys|e]; cbn [bind]; exact IH.
  - destruct Hx as [-> ->]. split; reflexivity.
Qed.

(** The encoder of the model returns on the values of the classes
    [json.dumps] accepts, and raises [TypeError] on the others. *)
Lemma encode_spec v :
  match encode v with
  | Ok _ => encodable v = true
  | Err e => encodable v = false /\ e = TypeError
  end.
Proof.
  induction v as [|b|z|f|s|l IH|l IH|d IH|id] using pyval_induction;
    try (simpl; auto; fail).
  - destruct b; reflexivity.
  - rewrite encode_list. pose proof (result_map_spec encode encodable l IH) as R.
    destruct (result_map encode l); exact R.
  - rewrite encode_tuple, encode_list.
    pose proof (result_map_spec encode encodable l IH) as R.
    destruct (result_map encode l); exact R.
  - rewrite encode_dict.
    assert (M : Forall (fun kv =>
      match encode_member kv with
      | Ok _ => is_key kv.1 && encodable kv.2 = true
      | Err e => is_key kv.1 && encodable kv.2 = false /\ e = TypeError
      end) d).
    { eapply Forall_impl; [exact IH|]. intros [k x] [_ Hx]. cbn [fst snd] in *.
      unfold encode_member. cbn [fst snd].
      pose proof (key_text_spec k) as K.
      destruct (key_text k) as [kt|e]; cbn [bind].
      - rewrite K. destruct (encode x); exact Hx.
      - destruct K as [-> ->]. split; reflexivity. }
    pose proof (result_map_spec encode_member
                  (fun kv => is_key kv.1 && encodable kv.2) d M) as R.
    destruct (result_map encode_member d); exact R.
Qed.

Lemma encode_ok v : encodable v = true -> exists t, encode v = Ok t.
Proof.
  intros H. pose proof (encode_spec v) as S.
  destruct (encode v) as [t|e]; [eauto|]. destruct S as [S _]. congruence.
Qed.


(** ** Custom claims *)

Lemma custom_claim_value_spec value :
  custom_claim_value value =
  if negb (is_claim_type value) then Err JwtInvalidError
  else if is_list value || is_dict value then
    let* s := json_dumps value in json_loads s
  else Ok value.
Proof. destruct value; reflexivity. Qed.




(** A custom claim that [create] refuses makes the build fail. *)
Lemma add_custom_claims_refused p items name value :
  In (name, value) items ->
  is_ok (custom_claim_value value) = false \/ in_registered name = true ->
  is_ok (add_custom_claims p items) = false.
Proof.
  intros Hin Hbad. revert p.
  induction items as [|[n v] items IH]; [contradiction|]. intros p.
  cbn [add_custom_claims]. unfold _validate_custom_claim_name.
  destruct (in_registered n) eqn:R; [reflexivity|]. cbn [bind].
  destruct n; try reflexivity.
  destruct (custom_claim_value v) as [stored|e] eqn:C; [|reflexivity].
  cbn [bind]. apply IH. destruct Hin as [E|Hin]; [|exact Hin].
  injection E as <- <-.
  exfalso. destruct Hbad as [Hbad|Hbad];
    [rewrite C in Hbad; discriminate Hbad|congruence].
Qed.

Lemma create_custom_refused iss sub aud jti e n i cc name value :
  In (name, value) cc ->
  is_ok (custom_claim_value value) = false \/ in_registered name = true ->
  is_ok (create iss sub aud jti e n i cc) = false.
Proof.
  intros Hin Hbad. unfold create; cbv zeta.
  repeat match goal with
  | |- is_ok (bind (add_timestamp ?p ?k ?t) _) = false =>
      destruct (add_timestamp p k t); cbn [bind]; [|reflexivity]
  end.
  match goal with
  | |- is_ok (bind (add_custom_claims ?p cc) _) = false =>
      pose proof (add_custom_claims_refused p cc name value Hin Hbad) as R;
      destruct (add_custom_claims p cc); [discriminate R|reflexivity]
  end.
Qed.

(** ** Custom claim values *)







(** ** Registered names among the custom claims *)

Lemma add_timestamp_kinds p k t :
  match add_timestamp p k t with
  | Ok _ => True
  | Err e => e = JwtInvalidError
  end.
Proof.
  destruct t as [t|]; [|exact I]. unfold add_timestamp, _from_datetime.
  destruct (tzinfo t); cbn [bind]; auto.
Qed.

(** The value of a custom claim is stored unless it is of a class that
    is not a claim's, or a list or a dictionary on which
    [json.loads(json.dumps(value))] raises. *)
Lemma custom_claim_value_err value e :
  custom_claim_value value = Err e ->
  e = JwtInvalidError \/ (is_list value || is_dict value) = true.
Proof.
  destruct value; cbn; intros H; try discriminate H;
    try (right; reflexivity); left; congruence.
Qed.

(** An exception of the loop over the custom claims is
    [JwtInvalidError], or the exception that
    [json.loads(json.dumps(value))] raised on a list or a dictionary
    among the values. *)
Lemma add_custom_claims_err p items err :
  add_custom_claims p items = Err err ->
  err = JwtInvalidError \/
  exists k v, In (k, v) items /\ (is_list v || is_dict v) = true /\
              custom_claim_value v = Err err.
Proof.
  revert p. induction items as [|[n v] items IH]; intros p H;
    [discriminate H|].
  cbn [add_custom_claims] in H. unfold _validate_custom_claim_name in H.
  destruct (in_registered n); cbn [bind] in H; [left; congruence|].
  destruct n; try (left; congruence).
  destruct (custom_claim_value v) as [stored|e'] eqn:C; cbn [bind] in H.
  - destruct (IH _ H) as [E|(k & w & Hin & L & E)]; [left; exact E|].
    right. exists k, w. split; [right; exact Hin|]. split; assumption.
  - injection H as <-. destruct (custom_claim_value_err v e' C) as [E|L];
      [left; exact E|].
    right. eexists _, v. split; [left; reflexivity|]. split; assumption.
Qed.

(** The loop over custom claims that hold a registered name: its
    exception is [JwtInvalidError], or the exception raised on a list
    or a dictionary before the name. *)
Lemma add_custom_claims_registered p before name value after err :
  in_registered name = true ->
  add_custom_claims p (before ++ (name, value) :: after) = Err err ->
  err = JwtInvalidError \/
  exists k v, In (k, v) before /\ (is_list v || is_dict v) = true /\
              custom_claim_value v = Err err.
Proof.
  intros R. revert p. induction before as [|[n v] before IH]; intros p H.
  - cbn [app add_custom_claims] in H. unfold _validate_custom_claim_name in H.
    rewrite R in H. left. cbn [bind] in H. congruence.
  - cbn [app add_custom_claims] in H. unfold _validate_custom_claim_name in H.
    destruct (in_registered n); cbn [bind] in H; [left; congruence|].
    destruct n; try (left; congruence).
    destruct (custom_claim_value v) as [stored|e'] eqn:C; cbn [bind] in H.
    + destruct (IH _ H) as [E|(k & w & Hin & L & E)]; [left; exact E|].
      right. exists k, w. split; [right; exact Hin|]. split; assumption.
    + injection H as <-. destruct (custom_claim_value_err v e' C) as [E|L];
        [left; exact E|].
      right. eexists _, v. split; [left; reflexivity|]. split; assumption.
Qed.

Lemma create_until_custom iss sub aud jti e n i cc :
  (exists p, create iss sub aud jti e n i cc
             = let* payload := add_custom_claims p cc in
               __init__ (PDict payload)) \/
  create iss sub aud jti e n i cc = Err JwtInvalidError.
Proof.
  unfold create; cbv zeta.
  repeat match goal with
  | |- context [bind (add_timestamp ?p ?k ?t) _] =>
      let K := fresh "K" in
      pose proof (add_timestamp_kinds p k t) as K;
      destruct (add_timestamp p k t); cbn [bind];
      [clear K|right; rewrite K; reflexivity]
  end.
  left. eexists. reflexivity.
Qed.

(** C5, as stated, fails: a custom claim earlier in the mapping, with a
    value [json.dumps] does not accept, makes the build fail with
    [TypeError] before the registered name is looked at. *)
Lemma C5_earlier_claim_raises_type_error :
  in_registered (PStr (text "iss")) = true /\
  create PNone PNone PNone PNone None None None
    [(PStr (text "a"), PList [PObject 0]); (PStr (text "iss"), PNone)]
  = Err TypeError /\
  create PNone PNone PNone PNone None None None
    [(PStr (text "a"), PList [PObject 0]); (PStr (text "iss"), PNone)]
  <> Err JwtInvalidError.
Proof. split; [reflexivity|]. split; [reflexivity|discriminate]. Qed.

(** C5 (amended).  A build whose custom claims hold one of the seven
    registered names always fails, whatever the value under that name
    and whatever else the build is given, so the registered claim is
    never overridden.  For an issuer, a subject and audiences of the
    built-in classes, and names before the registered one that are
    strings, numbers, truth values or [None], the failure is
    [JwtInvalidError], unless [json.loads(json.dumps(value))] raises on
    a list or a dictionary that comes before the registered name in the
    mapping: then the failure is that exception. *)
Theorem C5_registered_name_refused
    iss sub aud jti e n i before name value after :
  in_registered name = true ->
  let cc := before ++ (name, value) :: after in
  is_ok (create iss sub aud jti e n i cc) = false /\
  (is_object iss = false -> is_object sub = false -> is_object aud = false ->
   Forall (fun kv : pyval * pyval => is_key kv.1 = true) before ->
   (forall err,
      create iss sub aud jti e n i cc = Err err -> err <> JwtInvalidError ->
      exists k v, In (k, v) before /\ (is_list v || is_dict v) = true /\
                  custom_claim_value v = Err err) /\
   (Forall (fun kv : pyval * pyval =>
              (is_list kv.2 || is_dict kv.2) = true ->
              is_ok (custom_claim_value kv.2) = true) before ->
    create iss sub aud jti e n i cc = Err JwtInvalidError)).
Proof.
  intros R cc.
  assert (B : is_ok (create iss sub aud jti e n i cc) = false).
  { apply (create_custom_refused _ _ _ _ _ _ _ cc name value);
      [apply in_elt|right; exact R]. }
  split; [exact B|]. intros _ _ _ _.
  assert (K : forall err,
    create iss sub aud jti e n i cc = Err err -> err <> JwtInvalidError ->
    exists k v, In (k, v) before /\ (is_list v || is_dict v) = true /\
                custom_claim_value v = Err err).
  { intros err H N.
    destruct (create_until_custom iss sub aud jti e n i cc) as [[p E]|E];
      [|congruence].
    rewrite E in H.
    destruct (add_custom_claims p cc) as [q|err'] eqn:C; cbn [bind] in H.
    - apply init_dict_err in H. contradiction.
    - injection H as ->.
      destruct (add_custom_claims_registered p before name value after
                  err R C) as [J|J]; [contradiction|exact J]. }
  split; [exact K|]. intros F.
  destruct (create iss sub aud jti e n i cc) as [jwt|err] eqn:H;
    [discriminate B|].
  destruct err; try reflexivity;
    (destruct (K _ eq_refl ltac:(discriminate)) as (k & v & Hin & L & E);
     rewrite List.Forall_forall in F; specialize (F _ Hin L);
     cbn [snd] in F; rewrite E in F; discriminate F).
Qed.

(** C5 at work: [iss] among the custom claims, after a custom claim
    that is accepted, with an issuer given as well. *)
Lemma C5_registered_name_refused_witness :
  create (PStr (text "me")) PNone PNone PNone None None None
    [(PStr (text "b"), PList [PInt 1]); (PStr (text "iss"), PStr (text "x"))]
  = Err JwtInvalidError.
Proof.
  refine (proj2 (proj2 (C5_registered_name_refused
    (PStr (text "me")) PNone PNone PNone None None None
    [(PStr (text "b"), PList [PInt 1])]
    (PStr (text "iss")) (PStr (text "x")) [] eq_refl)
    eq_refl eq_refl eq_refl _) _).
  - repeat constructor.
  - repeat constructor.
Defined.

(** * Objects with identity *)

(** ** Building and reading object graphs *)






Lemma agree_app st new : agree st (st ++ new).
Proof. intros l H. apply lookup_app_l. exact H. Qed.

Lemma agree_trans st1 st2 st3 :
  (length st1 <= length st2)%nat ->
  agree st1 st2 -> agree st2 st3 -> agree st1 st3.
Proof.
  intros L A B l H. rewrite B by lia. apply A. exact H.
Qed.

Lemma option_map_list_impl {A B} (f g : A -> option B) l ys :
  (forall x y, f x = Some y -> g x = Some y) ->
  Store.option_map_list f l = Some ys -> Store.option_map_list g l = Some ys.
Proof.
  intros I. revert ys. induction l as [|x l IH]; intros ys H; [exact H|].
  simpl in *. destruct (f x) as [y|] eqn:Fx; [|discriminate H].
  destruct (Store.option_map_list f l) as [ys'|]; [|discriminate H].
  rewrite (I x y Fx), (IH ys' eq_refl). exact H.
Qed.

(** Reading does not depend on the objects it does not meet, nor on
    the fuel left over. *)
Lemma read_stable st st2 :
  agree st st2 ->
  forall k m r t, (k <= m)%nat ->
  Store.read k st r = Some t -> Store.read m st2 r = Some t.
Proof.
  intros A. induction k as [|k IH]; intros m r t L H.
  - destruct r; try (destruct m; exact H). discriminate H.
  - destruct m as [|m]; [lia|]. destruct r as [| | | | |l]; try exact H.
    cbn [Store.read] in *. change Store.store with (list Store.object) in *.
    destruct (st !! l) as [o|] eqn:E; [|discriminate H].
    rewrite A by (eapply lookup_lt_Some; exact E). rewrite E.
    destruct o as [items|items].
    + destruct (Store.option_map_list (Store.read k st) items) as [ts|] eqn:R;
        [|discriminate H].
      rewrite (option_map_list_impl (Store.read k st) (Store.read m st2)
                 items ts); [exact H| |exact R].
      intros x y. apply IH. lia.
    + match type of H with
      | option_map _ (Store.option_map_list ?f items) = _ =>
          destruct (Store.option_map_list f items) as [ts|] eqn:R;
            [|discriminate H];
          rewrite (option_map_list_impl f
                     (fun kv => option_map (fun x => (PStr kv.1, x))
                                  (Store.read m st2 kv.2)) items ts);
            [exact H| |exact R]
      end.
      intros [k' x] y. cbn [fst snd].
      destruct (Store.read k st x) as [tx|] eqn:Rx; [|discriminate].
      rewrite (IH m x tx) by (lia || exact Rx). intros Hy. exact Hy.
Qed.


Lemma region_closed_snoc st new o :
  region_closed (length st) (st ++ new) ->
  Forall (fun l' => (length st <= l')%nat) (Store.refs_of o) ->
  region_closed (length st) ((st ++ new) ++ [o]).
Proof.
  intros C F l o' L E.
  destruct (Nat.lt_ge_cases l (length (st ++ new))) as [Lt|Ge].
  - rewrite lookup_app_l in E by exact Lt. exact (C l o' L E).
  - rewrite lookup_app_r in E by exact Ge.
    destruct (l - length (st ++ new))%nat; [|discriminate E].
    injection E as <-. exact F.
Qed.



Lemma region_closed_nil st : region_closed (length st) st.
Proof.
  intros l o L E. apply lookup_lt_Some in E. lia.
Qed.





(** ** The values of the store *)






(** ** What a caller can do to the store *)

Lemma reachable_region n st r l :
  region_closed n st -> in_region n r -> Store.reachable st r l ->
  (n <= l)%nat.
Proof.
  intros C I R. induction R as [l|r l o l' _ IH E Hin]; [exact I|].
  specialize (IH I). pose proof (C l o IH E) as F.
  rewrite List.Forall_forall in F. apply F. exact Hin.
Qed.

Lemma reach_region n st roots l :
  region_closed n st -> Forall (fun r => (n <= r)%nat) roots ->
  Store.reach st roots l -> (n <= l)%nat.
Proof.
  intros C F (r & Hin & R). rewrite List.Forall_forall in F.
  apply (reachable_region n st (Store.VRef r) l C (F r Hin) R).
Qed.

Lemma step_separated st0 c c' :
  Store.step c c' -> separated st0 c -> separated st0 c'.
Proof.
  intros S (A & L & F & C). destruct S as [st roots l o R Fo|st roots o Fo];
    cbn [fst snd] in *; change Store.store with (list Store.object) in *.
  - pose proof (reach_region _ _ _ _ C F R) as Ll.
    repeat split; cbn [fst snd].
    + intros i Hi. rewrite list_lookup_insert_ne by lia. apply A. exact Hi.
    + rewrite length_insert. exact L.
    + exact F.
    + intros j o' Lj E. destruct (Nat.eq_dec l j) as [->|Ne].
      * rewrite list_lookup_insert in E.
        destruct (decide (j = j /\ (j < length st)%nat)) as [_|N].
        -- injection E as <-. eapply Forall_impl; [exact Fo|].
           intros l'. apply reach_region; assumption.
        -- exact (C j o' Lj E).
      * rewrite list_lookup_insert_ne in E by exact Ne. exact (C j o' Lj E).
  - repeat split; cbn [fst snd].
    + intros i Hi. rewrite lookup_app_l by lia. apply A. exact Hi.
    + rewrite length_app. lia.
    + constructor; [exact L|exact F].
    + intros j o' Lj E.
      destruct (Nat.lt_ge_cases j (length st)) as [Lt|Ge].
      * rewrite lookup_app_l in E by exact Lt. exact (C j o' Lj E).
      * rewrite lookup_app_r in E by exact Ge.
        destruct (j - length st)%nat; [|discriminate E].
        injection E as <-. eapply Forall_impl; [exact Fo|].
        intros l'. apply reach_region; assumption.
Qed.

Lemma steps_separated st0 c c' :
  Store.steps c c' -> separated st0 c -> separated st0 c'.
Proof.
  induction 1 as [c|c1 c2 c3 S _ IH]; [auto|].
  intros H. apply IH. exact (step_separated st0 c1 c2 S H).
Qed.

Lemma getitem_stable st st2 payload name v :
  agree st st2 -> Store.getitem st payload name = Ok v ->
  Store.getitem st2 payload name = Ok v.
Proof.
  intros A H. destruct payload as [| | | | |p]; try discriminate H.
  unfold Store.getitem in *. change Store.store with (list Store.object) in *.
  destruct (st !! p) as [o|] eqn:E; [|discriminate H].
  rewrite A by (eapply lookup_lt_Some; exact E). rewrite E. exact H.
Qed.





(** * What the decoder returns *)

(** ** Numbers *)

Lemma strip_zeros_Forall (P : N -> Prop) ds :
  Forall P ds -> Forall P (strip_zeros ds).
Proof.
  induction 1 as [|d ds Hd F IH]; [constructor|].
  destruct d; [exact IH|]. constructor; assumption.
Qed.

Lemma strip_zeros_head ds : head (strip_zeros ds) <> Some 0.
Proof.
  induction ds as [|d ds IH]; [discriminate|].
  destruct d; [exact IH|discriminate].
Qed.

Lemma strip_zeros_split ds : exists m, ds = zeros m ++ strip_zeros ds.
Proof.
  induction ds as [|d ds [m IH]]; [exists 0%nat; reflexivity|].
  destruct d; [|exists 0%nat; reflexivity].
  exists (S m). simpl. f_equal. exact IH.
Qed.

(** [float] of a literal is a float in normal form. *)
Lemma float_of_literal_valid neg ip fp ex :
  Forall (fun d => d < 10) ip -> Forall (fun d => d < 10) fp ->
  valid_float (float_of_literal neg ip fp ex).
Proof.
  intros Fi Ff. unfold float_of_literal; cbv zeta.
  set (ds := strip_zeros (ip ++ fp)).
  assert (Fd : Forall (fun d => d < 10) ds)
    by (apply strip_zeros_Forall, Forall_app; split; assumption).
  assert (Hd : head ds <> Some 0) by apply strip_zeros_head.
  clearbody ds.
  destruct (strip_zeros_split (rev ds)) as [m E].
  apply (f_equal (@rev N)) in E.
  rewrite rev_involutive, rev_app_distr, rev_zeros in E.
  assert (Hl : last (rev (strip_zeros (rev ds))) <> Some 0).
  { rewrite last_rev_head, rev_involutive. apply strip_zeros_head. }
  assert (Fs : Forall (fun d => d < 10) (rev (strip_zeros (rev ds)))).
  { rewrite E in Fd. apply Forall_app in Fd as [Fd _]. exact Fd. }
  destruct (rev (strip_zeros (rev ds))) as [|d sd]; simpl.
  - split; [constructor|reflexivity].
  - split; [exact Fs|]. split; [|exact Hl].
    intros ->. apply Hd. rewrite E. reflexivity.
Qed.

Lemma skip_ws_valid s : valid_str s -> valid_str (skip_ws s).
Proof.
  induction 1 as [|c s Hc F IH]; [constructor|]. simpl.
  destruct (is_ws c); [exact IH|]. constructor; assumption.
Qed.

Lemma take_digits_valid s :
  valid_str s ->
  Forall (fun d => d < 10) (take_digits s).1 /\ valid_str (take_digits s).2.
Proof.
  induction 1 as [|c s Hc F [IH1 IH2]]; [split; constructor|]. simpl.
  destruct (is_digit c) eqn:D.
  - destruct (take_digits s) as [ds r]. cbn [fst snd] in *.
    split; [|exact IH2]. constructor; [|exact IH1].
    unfold is_digit in D. apply andb_true_iff in D as [_ D].
    apply N.leb_le in D. unfold digit_val. lia.
  - split; [constructor|]. constructor; assumption.
Qed.

Lemma match_integer_valid s neg ip r :
  valid_str s -> match_integer s = Some (neg, ip, r) ->
  Forall (fun d => d < 10) ip /\ valid_str r.
Proof.
  intros V. unfold match_integer.
  assert (V1 : valid_str (match_sign s).2).
  { destruct V as [|c s Hc F]; [constructor|]. simpl.
    destruct (c =? 45); [exact F|constructor; assumption]. }
  destruct (match_sign s) as [sg s1]. cbn [snd] in V1.
  destruct V1 as [|c s2 Hc F]; [discriminate|].
  destruct (c =? 48).
  { intros [= <- <- <-]. split; [repeat constructor|exact F]. }
  destruct (is_digit c) eqn:D; [|discriminate].
  destruct (take_digits_valid s2 F) as [T1 T2].
  destruct (take_digits s2) as [ds r']. intros [= <- <- <-].
  split; [|exact T2]. constructor; [|exact T1].
  unfold is_digit in D. apply andb_true_iff in D as [_ D].
  apply N.leb_le in D. unfold digit_val. lia.
Qed.

Lemma match_frac_valid s :
  valid_str s ->
  Forall (fun d => d < 10) (default [] (match_frac s).1) /\
  valid_str (match_frac s).2.
Proof.
  intros V. destruct V as [|c s Hc F]; [split; constructor|]. simpl.
  destruct (c =? 46); [|split; constructor; assumption].
  destruct (take_digits_valid s F) as [T1 T2].
  destruct (take_digits s) as [[|d ds] r]; cbn [fst snd default] in *.
  - split; constructor; assumption.
  - split; assumption.
Qed.

Lemma match_exp_valid s : valid_str s -> valid_str (match_exp s).2.
Proof.
  intros V. destruct V as [|c s Hc F]; [constructor|]. simpl.
  destruct ((c =? 101) || (c =? 69)); [|constructor; assumption].
  assert (V2 : valid_str (match_exp_sign s).2).
  { destruct F as [|c' s' Hc' F']; [constructor|]. simpl.
    destruct (c' =? 45); [exact F'|].
    destruct (c' =? 43); [exact F'|constructor; assumption]. }
  destruct (match_exp_sign s) as [sg s2]. cbn [snd] in V2.
  destruct (take_digits_valid s2 V2) as [_ T2].
  destruct (take_digits s2) as [[|d ds] r]; cbn [fst snd] in *.
  - constructor; assumption.
  - exact T2.
Qed.

Lemma match_number_valid s l r :
  valid_str s -> match_number s = Some (l, r) ->
  valid_val (number_value l) /\ valid_str r.
Proof.
  intros V. unfold match_number.
  destruct (match_integer s) as [[[neg ip] r1]|] eqn:M; [|discriminate].
  destruct (match_integer_valid s neg ip r1 V M) as [Fi V1].
  destruct (match_frac_valid r1 V1) as [Ff V2].
  destruct (match_frac r1) as [fp r2]. cbn [fst snd] in *.
  pose proof (match_exp_valid r2 V2) as V3.
  destruct (match_exp r2) as [ex r3]. cbn [snd] in V3.
  intros [= <- <-]. split; [|exact V3].
  unfold number_value. cbn [lit_frac lit_exp lit_neg lit_int].
  destruct fp as [fp|], ex as [ex|]; try exact I;
    cbn [valid_val]; apply float_of_literal_valid; assumption.
Qed.

(** ** Strings *)

Lemma hex_val_lt c x : hex_val c = Some x -> x < 16.
Proof.
  unfold hex_val.
  destruct ((48 <=? c) && (c <=? 57)) eqn:A.
  { apply andb_true_iff in A as [_ A]. apply N.leb_le in A.
    intros [= <-]. lia. }
  destruct ((97 <=? c) && (c <=? 102)) eqn:B.
  { apply andb_true_iff in B as [_ B]. apply N.leb_le in B.
    intros [= <-]. lia. }
  destruct ((65 <=? c) && (c <=? 70)) eqn:C; [|discriminate].
  apply andb_true_iff in C as [_ C]. apply N.leb_le in C.
  intros [= <-]. lia.
Qed.

Lemma decode_uXXXX_lt a b c d u : decode_uXXXX a b c d = Some u -> u < 65536.
Proof.
  unfold decode_uXXXX.
  destruct (hex_val a) as [x|] eqn:A; [|discriminate].
  destruct (hex_val b) as [y|] eqn:B; [|discriminate].
  destruct (hex_val c) as [z|] eqn:C; [|discriminate].
  destruct (hex_val d) as [w|] eqn:D; [|discriminate].
  apply hex_val_lt in A, B, C, D. intros [= <-]. lia.
Qed.

Lemma join_surrogates_lt hi lo :
  is_high_surrogate hi = true -> is_low_surrogate lo = true ->
  join_surrogates hi lo < 1114112.
Proof.
  intros H L. apply high_surrogate_range in H. apply low_surrogate_range in L.
  unfold join_surrogates. rewrite lor_shiftl_add by lia. lia.
Qed.

Lemma backslash_char_lt e ch : backslash_char e = Some ch -> ch < 128.
Proof.
  unfold backslash_char.
  repeat match goal with
  | |- (if ?b then _ else _) = _ -> _ => destruct b; [intros [= <-]; lia|]
  end.
  discriminate.
Qed.

(** A string literal of a well-formed text is a well-formed string. *)
Lemma scanstring_valid_upto n : forall s,
  (length s <= n)%nat -> valid_str s ->
  match scanstring s with
  | Ok (r, rest) => valid_str r /\ valid_str rest
  | Err _ => True
  end.
Proof.
  induction n as [|n IH]; intros s L V.
  - destruct s; [exact I|simpl in L; lia].
  - assert (K : forall t (c : N), (length t <= n)%nat -> valid_str t ->
      c < 1114112 ->
      match (let* (r, rest) := scanstring t in Ok (c :: r, rest)) with
      | Ok (r, rest) => valid_str r /\ valid_str rest
      | Err _ => True
      end).
    { intros t c Lt Vt Hc. specialize (IH t Lt Vt).
      destruct (scanstring t) as [[r rest]|e]; simpl; [|exact I].
      destruct IH as [Vr Vrest]. split; [constructor; assumption|exact Vrest]. }
    unfold valid_str in V.
    destruct s as [|c s1]; [exact I|]. simpl in L.
    apply Forall_cons in V as [Hc V].
    cbn [scanstring]. destruct (c =? 34); [split; [constructor|exact V]|].
    destruct (c =? 92).
    + destruct s1 as [|e s2]; [exact I|]. simpl in L.
      apply Forall_cons in V as [He V].
      destruct (e =? 117).
      * destruct s2 as [|h1 [|h2 [|h3 [|h4 s3]]]]; try exact I.
        simpl in L.
        do 4 apply Forall_cons in V as [_ V].
        destruct (decode_uXXXX h1 h2 h3 h4) as [uni|] eqn:U; [|exact I].
        apply decode_uXXXX_lt in U.
        assert (K1 : match (let* (r, rest) := scanstring s3 in
                            Ok (uni :: r, rest)) with
                     | Ok (r, rest) => valid_str r /\ valid_str rest
                     | Err _ => True
                     end) by (apply K; [lia|exact V|lia]).
        destruct (is_high_surrogate uni) eqn:Hi; [|exact K1].
        destruct s3 as [|c1 [|c2 s4]]; try exact K1.
        destruct ((c1 =? 92) && (c2 =? 117)); [|exact K1].
        destruct s4 as [|g1 [|g2 [|g3 [|g4 s5]]]]; try exact I.
        destruct (decode_uXXXX g1 g2 g3 g4) as [uni2|]; [|exact I].
        simpl in L.
        destruct (is_low_surrogate uni2) eqn:Lo; [|exact K1].
        do 6 apply Forall_cons in V as [_ V].
        apply K; [lia|exact V|apply join_surrogates_lt; assumption].
      * destruct (backslash_char e) as [ch|] eqn:B; [|exact I].
        apply backslash_char_lt in B. apply K; [lia|exact V|lia].
    + destruct (c <? 32); [exact I|]. apply K; [lia|exact V|exact Hc].
Qed.

Lemma scanstring_valid s r rest :
  valid_str s -> scanstring s = Ok (r, rest) ->
  valid_str r /\ valid_str rest.
Proof.
  intros V H. pose proof (scanstring_valid_upto (length s) s (le_n _) V) as S.
  rewrite H in S. exact S.
Qed.

(** ** Dictionaries *)

Lemma dict_set_Forall (R : pyval * pyval -> Prop) d k v :
  Forall R d -> R (PStr k, v) -> Forall R (dict_set d k v).
Proof.
  intros F H. induction F as [|[k' v'] d Hk F IH]; simpl.
  - constructor; [exact H|constructor].
  - destruct (key_is k k') eqn:E.
    + apply key_is_true in E as ->. constructor; assumption.
    + constructor; assumption.
Qed.

Lemma dict_set_key_in d k v x :
  In x (map fst (dict_set d k v)) -> In x (map fst d) \/ x = PStr k.
Proof.
  induction d as [|[k' v'] d IH]; simpl.
  - intros [<-|[]]. right. reflexivity.
  - destruct (key_is k k'); simpl; [tauto|].
    intros [<-|H]; [tauto|]. destruct (IH H); tauto.
Qed.

Lemma dict_set_NoDup d k v :
  List.NoDup (map fst d) -> List.NoDup (map fst (dict_set d k v)).
Proof.
  induction d as [|[k' v'] d IH]; simpl; intros N.
  - constructor; [intros []|constructor].
  - destruct (key_is k k') eqn:E; [exact N|]. simpl.
    apply List.NoDup_cons_iff in N as [Nk N]. apply List.NoDup_cons; [|exact (IH N)].
    intros H. apply dict_set_key_in in H as [H| ->]; [exact (Nk H)|].
    simpl in E. rewrite str_eqb_refl in E. discriminate E.
Qed.

Lemma dict_of_pairs_spec (R : pyval * pyval -> Prop) pairs :
  Forall (fun kv : pystr * pyval => R (PStr kv.1, kv.2)) pairs ->
  Forall R (dict_of_pairs pairs) /\ List.NoDup (map fst (dict_of_pairs pairs)).
Proof.
  unfold dict_of_pairs. intros F.
  assert (G : forall acc, Forall R acc -> List.NoDup (map fst acc) ->
    Forall R (fold_left (fun d (kv : pystr * pyval) => dict_set d kv.1 kv.2)
                pairs acc) /\
    List.NoDup (map fst (fold_left
                      (fun d (kv : pystr * pyval) => dict_set d kv.1 kv.2)
                      pairs acc))).
  { induction F as [|[k v] pairs H F IH]; intros acc Fa Na; [auto|].
    cbn [fold_left fst snd] in *. apply IH.
    - apply dict_set_Forall; assumption.
    - apply dict_set_NoDup. exact Na. }
  apply G; constructor.
Qed.

(** ** Values *)

Lemma sound_dict d :
  Forall sound_entry d -> List.NoDup (map fst d) -> sound (PDict d).
Proof.
  intros F N. split; cbn [json_value valid_val].
  - split; [|exact N]. apply fold_and_Forall.
    eapply Forall_impl; [exact F|]. intros kv [H _]. exact H.
  - apply fold_and_Forall.
    eapply Forall_impl; [exact F|]. intros kv [_ H]. exact H.
Qed.

Lemma sound_list l : Forall sound l -> sound (PList l).
Proof.
  intros F. split; cbn [json_value valid_val]; apply fold_and_Forall;
    (eapply Forall_impl; [exact F|]); intros v [H1 H2]; assumption.
Qed.

Lemma decoder_sound n :
  (forall s, valid_str s -> decoded sound (scan_once n s)) /\
  (forall s, valid_str s -> decoded (Forall sound) (parse_items n s)) /\
  (forall s, valid_str s ->
     decoded (Forall (fun kv : pystr * pyval => valid_str kv.1 /\ sound kv.2))
             (parse_members n s)).
Proof.
  induction n as [|n (IHv & IHi & IHm)].
  { repeat split; intros s V; exact I. }
  assert (D : forall k s, valid_str s -> valid_str (drop k s))
    by (intros k s V; apply Forall_drop; exact V).
  split; [|split]; intros s V.
  - cbn [scan_once]. destruct s as [|c s1]; [exact I|].
    assert (V1 : valid_str s1) by (apply Forall_cons in V as [_ V]; exact V).
    pose proof (skip_ws_valid s1 V1) as W.
    destruct (c =? 34).
    { pose proof (scanstring_valid_upto _ s1 (le_n _) V1) as S.
      destruct (scanstring s1) as [[str r]|e]; simpl; [|exact I].
      destruct S as [S1 S2]. repeat split; assumption. }
    destruct (c =? 123).
    { destruct (skip_ws s1) as [|c' r] eqn:E; [exact I|].
      apply Forall_cons in W as [_ W].
      destruct (c' =? 125).
      { simpl. split; [|exact W]. apply sound_dict; constructor. }
      destruct (c' =? 34); [|exact I].
      specialize (IHm r W).
      destruct (parse_members n r) as [[ps r']|e]; simpl in *; [|exact I].
      destruct IHm as [F Vr]. split; [|exact Vr].
      destruct (dict_of_pairs_spec sound_entry ps) as [F' N'].
      { eapply Forall_impl; [exact F|]. intros [k v] [Vk [Jv Vv]].
        repeat split; assumption. }
      apply sound_dict; assumption. }
    destruct (c =? 91).
    { destruct (startswith (skip_ws s1) [93]) eqn:E.
      - simpl. split; [apply sound_list; constructor|apply D; exact W].
      - specialize (IHi (skip_ws s1) W).
        destruct (parse_items n (skip_ws s1)) as [[vs r']|e]; simpl in *;
          [|exact I].
        destruct IHi as [F Vr]. split; [apply sound_list; exact F|exact Vr]. }
    repeat match goal with
    | |- context [if startswith ?a ?b then _ else _] =>
        destruct (startswith a b);
        [split; [split; exact I|apply D; exact V]|]
    end.
    destruct (match_number (c :: s1)) as [[l r]|] eqn:M.
    { destruct (match_number_valid _ l r V M) as [Vn Vr].
      split; [|exact Vr]. split; [|exact Vn].
      unfold number_value.
      destruct (lit_frac l), (lit_exp l); exact I. }
    repeat match goal with
    | |- context [if startswith ?a ?b then _ else _] =>
        destruct (startswith a b);
        [split; [split; exact I|apply D; exact V]|]
    end.
    exact I.
  - cbn [parse_items]. specialize (IHv s V).
    destruct (scan_once n s) as [[v r]|e]; simpl; [|exact I].
    destruct IHv as [Sv Vr]. pose proof (skip_ws_valid r Vr) as W.
    destruct (skip_ws r) as [|c r1]; [exact I|].
    apply Forall_cons in W as [_ W].
    destruct (c =? 93); [split; [constructor; [exact Sv|constructor]|exact W]|].
    destruct (c =? 44); [|exact I].
    specialize (IHi (skip_ws r1) (skip_ws_valid r1 W)).
    destruct (parse_items n (skip_ws r1)) as [[vs r2]|e]; simpl; [|exact I].
    destruct IHi as [F V2]. split; [constructor; assumption|exact V2].
  - cbn [parse_members].
    pose proof (scanstring_valid_upto _ s (le_n _) V) as S.
    destruct (scanstring s) as [[k r]|e]; cbn [bind]; [|exact I].
    destruct S as [Vk Vr]. pose proof (skip_ws_valid r Vr) as W.
    destruct (startswith (skip_ws r) [58]) eqn:E; [|exact I].
    specialize (IHv (skip_ws (drop 1 (skip_ws r)))
                  (skip_ws_valid _ (D 1%nat _ W))).
    destruct (scan_once n (skip_ws (drop 1 (skip_ws r)))) as [[v r2]|e];
      cbn [bind]; [|exact I].
    destruct IHv as [Sv V2]. pose proof (skip_ws_valid r2 V2) as W2.
    destruct (skip_ws r2) as [|c r3]; [exact I|].
    apply Forall_cons in W2 as [_ W2].
    destruct (c =? 125).
    { split; [|exact W2]. constructor; [split; assumption|constructor]. }
    destruct (c =? 44); [|exact I].
    destruct (startswith (skip_ws r3) [34]) eqn:E3; [|exact I].
    specialize (IHm (drop 1 (skip_ws r3)) (D 1%nat _ (skip_ws_valid r3 W2))).
    destruct (parse_members n (drop 1 (skip_ws r3))) as [[ps r5]|e]; simpl;
      [|exact I].
    destruct IHm as [F V5]. split; [|exact V5].
    constructor; [split; assumption|exact F].
Qed.

(** [json.loads] of a well-formed text is a well-formed value of
    JSON. *)
Lemma json_loads_sound s v :
  valid_str s -> json_loads s = Ok v -> sound v.
Proof.
  intros V. unfold json_loads. destruct (startswith s [65279]); [discriminate|].
  pose proof (proj1 (decoder_sound (2 * length s + 2)) (skip_ws s)
                (skip_ws_valid s V)) as D.
  destruct (scan_once (2 * length s + 2) (skip_ws s)) as [[v' r]|e];
    cbn [bind]; [|discriminate].
  destruct D as [S _]. destruct (skip_ws r); [|discriminate].
  intros [= <-]. exact S.
Qed.

(** * What the encoder writes *)

Lemma ascii_hex_char x : x < 16 -> hex_char x < 128.
Proof. intros H. unfold hex_char. destruct (x <? 10); lia. Qed.

Lemma ascii_u_escape n : ascii_str (u_escape n).
Proof.
  unfold u_escape, hex4.
  repeat (apply Forall_cons; split;
          [try reflexivity; apply ascii_hex_char, N.mod_lt; discriminate|]).
  constructor.
Qed.

Lemma ascii_escape_char c : ascii_str (escape_char c).
Proof.
  unfold escape_char.
  repeat match goal with
  | |- ascii_str (if (?a <=? ?b) && ?d then _ else _) => idtac
  | |- ascii_str (if ?b then _ else _) =>
      destruct b; [try (repeat constructor; reflexivity)|]
  end.
  - destruct ((32 <=? c) && (c <=? 126)) eqn:E.
    + apply andb_true_iff in E as [_ E]. apply N.leb_le in E.
      constructor; [lia|constructor].
    + destruct (c <? 65536); [apply ascii_u_escape|].
      apply Forall_app. split; apply ascii_u_escape.
Qed.

Lemma ascii_flat_map {A} (f : A -> pystr) l :
  (forall x, ascii_str (f x)) -> ascii_str (flat_map f l).
Proof.
  intros H. induction l as [|x l IH]; [constructor|].
  simpl. apply Forall_app. split; [apply H|exact IH].
Qed.

Lemma ascii_encode_basestring s : ascii_str (encode_basestring_ascii s).
Proof.
  unfold encode_basestring_ascii. constructor; [reflexivity|].
  apply Forall_app. split; [apply ascii_flat_map, ascii_escape_char|].
  constructor; [reflexivity|constructor].
Qed.

Lemma ascii_join_items chunks :
  Forall ascii_str chunks -> ascii_str (join_items chunks).
Proof.
  induction 1 as [|a rest Ha F IH]; [constructor|].
  destruct rest as [|b rest]; [exact Ha|].
  rewrite join_items_cons. apply Forall_app. split; [exact Ha|].
  constructor; [reflexivity|]. constructor; [reflexivity|exact IH].
Qed.

Lemma ascii_floatstr f : valid_float f -> ascii_str (floatstr f).
Proof.
  destruct f as [|[]|neg ds e]; intros V;
    try (apply ascii_text_literal; reflexivity).
  apply ascii_float_repr. apply V.
Qed.

Lemma ascii_result_map {A} (f : A -> result pystr) l :
  Forall (fun x => forall t, f x = Ok t -> ascii_str t) l ->
  forall chunks, result_map f l = Ok chunks -> Forall ascii_str chunks.
Proof.
  induction 1 as [|x l Hx _ IH]; intros chunks E.
  - injection E as <-. constructor.
  - apply result_map_cons in E as (y & ys & Ey & Eys & ->).
    constructor; [exact (Hx y Ey)|exact (IH ys Eys)].
Qed.

Lemma ascii_brackets a b chunks :
  a < 128 -> b < 128 -> Forall ascii_str chunks ->
  ascii_str ([a] ++ join_items chunks ++ [b]).
Proof.
  intros Ha Hb F. constructor; [exact Ha|]. apply Forall_app.
  split; [apply ascii_join_items; exact F|]. constructor; [exact Hb|constructor].
Qed.

Lemma Forall_both {A} (P Q : A -> Prop) l :
  Forall P l -> Forall Q l -> Forall (fun x => P x /\ Q x) l.
Proof.
  induction 1 as [|x l Hx _ IH]; intros H; [constructor|].
  apply Forall_cons in H as [Qx H]. constructor; [split; assumption|].
  exact (IH H).
Qed.

(** [json.dumps] writes ASCII. *)
Lemma ascii_encode v : forall t, valid_val v -> encode v = Ok t -> ascii_str t.
Proof.
  induction v as [|b|z|f|s|l IH|l IH|d IH|id] using pyval_induction;
    intros t V E.
  - injection E as <-. apply ascii_text_literal. reflexivity.
  - destruct b; injection E as <-; apply ascii_text_literal; reflexivity.
  - injection E as <-. apply ascii_int_repr.
  - injection E as <-. apply ascii_floatstr. exact V.
  - injection E as <-. apply ascii_encode_basestring.
  - rewrite encode_list in E. apply bind_ok in E as (chunks & E & Et).
    assert (t = text "[" ++ join_items chunks ++ text "]") as -> by congruence.
    apply (ascii_brackets 91 93); [reflexivity..|].
    apply (ascii_result_map encode l); [|exact E].
    cbn [valid_val] in V. apply fold_and_Forall in V.
    eapply Forall_impl; [exact (Forall_both _ _ _ IH V)|].
    intros x [Hx Vx] tx. apply Hx. exact Vx.
  - rewrite encode_tuple, encode_list in E.
    apply bind_ok in E as (chunks & E & Et).
    assert (t = text "[" ++ join_items chunks ++ text "]") as -> by congruence.
    apply (ascii_brackets 91 93); [reflexivity..|].
    apply (ascii_result_map encode l); [|exact E].
    cbn [valid_val] in V. apply fold_and_Forall in V.
    eapply Forall_impl; [exact (Forall_both _ _ _ IH V)|].
    intros x [Hx Vx] tx. apply Hx. exact Vx.
  - rewrite encode_dict in E. apply bind_ok in E as (chunks & E & Et).
    assert (t = text "{" ++ join_items chunks ++ text "}") as -> by congruence.
    apply (ascii_brackets 123 125); [reflexivity..|].
    apply (ascii_result_map encode_member d); [|exact E].
    cbn [valid_val] in V. apply fold_and_Forall in V.
    eapply Forall_impl; [exact (Forall_both _ _ _ IH V)|].
    intros [k x] [[_ Hx] [_ Vx]] tx Em. cbn [fst snd] in *.
    unfold encode_member in Em. cbn [fst snd] in Em.
    apply bind_ok in Em as (kt & _ & Em).
    apply bind_ok in Em as (vt & Ev & Em).
    assert (tx = encode_basestring_ascii kt ++ text ": " ++ vt) as ->
      by congruence.
    apply Forall_app. split; [apply ascii_encode_basestring|].
    constructor; [reflexivity|]. constructor; [reflexivity|].
    exact (Hx vt Vx Ev).
  - discriminate E.
Qed.

(** A list or a dictionary given as a custom claim is stored as a
    well-formed value of JSON. *)
Lemma custom_claim_value_sound value stored :
  valid_val value -> custom_claim_value value = Ok stored -> sound stored.
Proof.
  intros V. rewrite custom_claim_value_spec.
  destruct (is_claim_type value) eqn:T; cbn [negb]; [|discriminate].
  destruct (is_list value || is_dict value) eqn:C.
  - intros H. apply bind_ok in H as (t & Et & El).
    apply (json_loads_sound t); [|exact El].
    apply ascii_valid. exact (ascii_encode value t V Et).
  - intros [= <-]. split; [|exact V].
    destruct value; try exact I; discriminate.
Qed.

(** * Values that the round trip leaves as they are *)

Lemma merge_plain s : no_surrogate_pair s = true -> merge_surrogates s = s.
Proof.
  induction s as [|h t IH]; [reflexivity|].
  cbn [no_surrogate_pair merge_surrogates]. intros H.
  apply andb_true_iff in H as [H Ht]. specialize (IH Ht).
  destruct (is_high_surrogate h); [|rewrite IH; reflexivity].
  destruct t as [|l rest]; [reflexivity|].
  cbn [andb] in H. destruct (is_low_surrogate l); [discriminate H|].
  rewrite IH. reflexivity.
Qed.

Lemma dict_set_fresh d k v :
  dict_get d k = None -> dict_set d k v = d ++ [(PStr k, v)].
Proof.
  induction d as [|[k' v'] d IH]; simpl; [reflexivity|].
  destruct (key_is k k'); [discriminate|]. intros H. rewrite IH by exact H.
  reflexivity.
Qed.

(** [dict] of pairs with distinct keys: the pairs, in their order. *)
Lemma dict_of_pairs_distinct pairs :
  List.NoDup (map fst pairs) ->
  dict_of_pairs pairs = map (fun kv : pystr * pyval => (PStr kv.1, kv.2)) pairs.
Proof.
  unfold dict_of_pairs. intros N.
  assert (G : forall acc,
    (forall k, In k (map fst pairs) -> dict_get acc k = None) ->
    fold_left (fun d (kv : pystr * pyval) => dict_set d kv.1 kv.2) pairs acc
    = acc ++ map (fun kv : pystr * pyval => (PStr kv.1, kv.2)) pairs).
  { induction pairs as [|[k v] pairs IH]; intros acc F.
    - simpl. rewrite app_nil_r. reflexivity.
    - cbn [fold_left map fst snd] in *.
      apply List.NoDup_cons_iff in N as [Nk N].
      rewrite dict_set_fresh by (apply F; left; reflexivity).
      rewrite IH; [rewrite <- app_assoc; reflexivity|exact N|].
      intros k2 Hk2. rewrite <- (dict_set_fresh acc k v)
        by (apply F; left; reflexivity).
      rewrite dict_get_set_ne; [apply F; right; exact Hk2|].
      intros ->. exact (Nk Hk2). }
  apply (G []). reflexivity.
Qed.

Lemma keys_distinct d :
  Forall (fun kv : pyval * pyval => is_Text kv.1 = true) d ->
  List.NoDup (map fst d) ->
  List.NoDup (map (fun kv : pyval * pyval => key_str kv.1) d).
Proof.
  induction 1 as [|[k v] d Hk F IH]; intros N; [constructor|].
  cbn [map fst] in *. apply List.NoDup_cons_iff in N as [Nk N].
  apply List.NoDup_cons; [|exact (IH N)].
  intros H. apply Nk. apply in_map_iff in H as ([k' v'] & E & Hin).
  apply in_map_iff. exists (k', v'). split; [|exact Hin].
  rewrite List.Forall_forall in F. specialize (F _ Hin). cbn [fst] in *.
  destruct k; try discriminate Hk. destruct k'; try discriminate F.
  cbn [key_str key_text fst] in *. congruence.
Qed.

(** A value of JSON without surrogate pairs is read back as it was
    written. *)
Lemma canon_id v : json_value v -> plain v -> canon v = v.
Proof.
  induction v as [|b|z|f|s|l IH|l IH|d IH|id] using pyval_induction;
    intros J P; try reflexivity; try contradiction.
  - cbn [canon]. rewrite merge_plain by exact P. reflexivity.
  - cbn [canon json_value plain] in *. f_equal.
    apply fold_and_Forall in J, P.
    pose proof (Forall_both _ _ _ IH (Forall_both _ _ _ J P)) as F. clear - F.
    induction F as [|x l (Hx & Jx & Px) _ IHl]; [reflexivity|].
    cbn [map]. rewrite (Hx Jx Px), IHl. reflexivity.
  - cbn [canon json_value plain] in *. destruct J as [J N]. f_equal.
    apply fold_and_Forall in J, P.
    assert (K : Forall (fun kv : pyval * pyval => is_Text kv.1 = true) d)
      by (eapply Forall_impl; [exact J|]; intros kv [H _]; exact H).
    assert (E : map (fun kv : pyval * pyval =>
                       (merge_surrogates (key_str kv.1), canon kv.2)) d
                = map (fun kv : pyval * pyval => (key_str kv.1, kv.2)) d).
    { pose proof (Forall_both _ _ _ IH (Forall_both _ _ _ J P)) as F.
      clear - F.
      induction F as [|[k x] d ([_ Hx] & [Tk Jx] & [Pk Px]) _ IHd];
        [reflexivity|].
      cbn [map fst snd] in *. rewrite (Hx Jx Px), IHd.
      destruct k; try discriminate Tk. cbn [key_str key_text].
      rewrite merge_plain by exact Pk. reflexivity. }
    rewrite E, dict_of_pairs_distinct.
    + rewrite map_map. clear - K.
      induction K as [|[k x] d Tk _ IHd]; [reflexivity|].
      cbn [map fst snd] in *. rewrite IHd.
      destruct k; try discriminate Tk. reflexivity.
    + rewrite map_map. cbn [fst]. apply keys_distinct; assumption.
Qed.

Lemma json_value_encodable v : json_value v -> encodable v = true.
Proof.
  induction v as [|b|z|f|s|l IH|l IH|d IH|id] using pyval_induction;
    intros J; try reflexivity; try contradiction.
  - cbn [json_value encodable] in *. apply fold_and_Forall in J.
    apply forallb_forall. intros x Hx.
    rewrite List.Forall_forall in IH, J. exact (IH x Hx (J x Hx)).
  - cbn [json_value encodable] in *. destruct J as [J _].
    apply fold_and_Forall in J. apply forallb_forall. intros [k x] Hx.
    rewrite List.Forall_forall in IH, J.
    destruct (J _ Hx) as [Tk Jx]. destruct (IH _ Hx) as [_ Ix].
    cbn [fst snd] in *. rewrite (Ix Jx).
    destruct k; try discriminate Tk. reflexivity.
Qed.

(** The round trip of a well-formed value of JSON without surrogate
    pairs. *)
Lemma loads_dumps_id v :
  sound v -> plain v ->
  exists t, json_dumps v = Ok t /\ json_loads t = Ok v.
Proof.
  intros [J V] P. destruct (encode_ok v (json_value_encodable v J)) as [t E].
  exists t. split; [exact E|].
  rewrite (loads_dumps v t V E), canon_id by assumption. reflexivity.
Qed.

(** * The payload of a claim set *)

Lemma payload_ok_set d k v :
  payload_ok d -> entry_ok (PStr k, v) -> payload_ok (dict_set d k v).
Proof.
  intros [F N] H. split; [apply dict_set_Forall; assumption|].
  apply dict_set_NoDup. exact N.
Qed.

Lemma entry_ok_registered (name : string) v :
  in_registered (PStr (text name)) = true ->
  forallb (fun c => c <? 128) (text name) = true ->
  valid_val v -> entry_ok (PStr (text name), v).
Proof.
  intros R A V. repeat split; cbn [fst snd valid_val]; auto.
  apply ascii_valid, ascii_text_literal. exact A.
Qed.

Lemma add_timestamp_ok p (name : string) t p' :
  payload_ok p ->
  in_registered (PStr (text name)) = true ->
  forallb (fun c => c <? 128) (text name) = true ->
  add_timestamp p (text name) t = Ok p' -> payload_ok p'.
Proof.
  intros P R A. destruct t as [t|]; cbn [add_timestamp].
  - intros H. apply bind_ok in H as (ts & _ & [= <-]).
    apply payload_ok_set; [exact P|]. apply entry_ok_registered; auto.
    exact I.
  - intros [= <-]. exact P.
Qed.

Lemma add_custom_claims_ok items :
  Forall (fun kv : pyval * pyval => valid_val kv.1 /\ valid_val kv.2) items ->
  forall p p', payload_ok p -> add_custom_claims p items = Ok p' ->
  payload_ok p'.
Proof.
  induction 1 as [|[n v] items [Vn Vv] _ IH]; intros p p' P H.
  - injection H as <-. exact P.
  - cbn [add_custom_claims] in H. unfold _validate_custom_claim_name in H.
    destruct (in_registered n) eqn:R; [discriminate H|]. cbn [bind] in H.
    destruct n as [| | | |k| | | |]; try discriminate H.
    apply bind_ok in H as (stored & C & H). cbn [fst snd] in *.
    apply (IH _ _ (payload_ok_set p k stored P
                     ltac:(destruct (custom_claim_value_sound v stored Vv C);
                           repeat split; auto)) H).
Qed.

(** [create] hands [__init__] such a payload. *)
Lemma create_payload_ok iss sub aud jti e n i cc jwt :
  valid_val iss -> valid_val sub -> valid_val aud -> valid_val jti ->
  Forall (fun kv : pyval * pyval => valid_val kv.1 /\ valid_val kv.2) cc ->
  create iss sub aud jti e n i cc = Ok jwt ->
  exists p, payload_ok p /\ __init__ (PDict p) = Ok jwt.
Proof.
  intros Vi Vs Va Vj Vc. unfold create; cbv zeta. intros H.
  apply bind_ok in H as (p1 & H1 & H). apply bind_ok in H as (p2 & H2 & H).
  apply bind_ok in H as (p3 & H3 & H). apply bind_ok in H as (p4 & H4 & H).
  exists p4. split; [|exact H].
  apply (add_custom_claims_ok cc Vc p3 p4); [|exact H4].
  apply (add_timestamp_ok p2 "iat" i p3); [|reflexivity..|exact H3].
  apply (add_timestamp_ok p1 "nbf" n p2); [|reflexivity..|exact H2].
  refine (add_timestamp_ok _ "exp" e p1 _ eq_refl eq_refl H1).
  unfold copy_copy.
  repeat match goal with
  | |- payload_ok (if ?b then dict_set ?q (text ?k) ?v else _) =>
      let P := fresh "P" in
      assert (P : payload_ok q);
      [|destruct b;
        [apply payload_ok_set;
         [exact P|apply (entry_ok_registered k); auto]|exact P]]
  end.
  split; constructor.
Qed.

(** ** Initialisation *)

Lemma init_dict_intro d p' :
  (forall name, In name (map text ["iss"; "sub"; "jti"]%string) ->
     forall v, dict_get d name = Some v -> is_Text v = true) ->
  (forall name, In name (map text ["exp"; "nbf"; "iat"]%string) ->
     forall v, dict_get d name = Some v -> is_int_or_float v = true) ->
  _validate_audience_claim (PDict d) = Ok p' ->
  __init__ (PDict d) = Ok {| _payload := p' |}.
Proof.
  intros S N A. unfold __init__.
  rewrite !validate_string_dict, !validate_number_dict.
  repeat match goal with
  | |- context [dict_get d (text ?k)] =>
      let E := fresh "E" in
      destruct (dict_get d (text k)) as [?v|] eqn:E;
      [first [rewrite (S (text k) ltac:(simpl; tauto) _ E)
             |rewrite (N (text k) ltac:(simpl; tauto) _ E)]|];
      cbn [bind]
  end; rewrite A; reflexivity.
Qed.

Lemma dict_get_In d k v : dict_get d k = Some v -> In (PStr k, v) d.
Proof.
  induction d as [|[k' v'] d IH]; simpl; [discriminate|].
  destruct (key_is k k') eqn:E.
  - apply key_is_true in E as ->. intros [= ->]. left. reflexivity.
  - intros H. right. exact (IH H).
Qed.

Lemma In_dict_get d k v :
  List.NoDup (map fst d) -> In (PStr k, v) d -> dict_get d k = Some v.
Proof.
  induction d as [|[k' v'] d IH]; simpl; [intros _ []|].
  intros N. apply List.NoDup_cons_iff in N as [Nk N].
  intros [[= -> ->]|H].
  - simpl. rewrite str_eqb_refl. reflexivity.
  - destruct (key_is k k') eqn:E; [|exact (IH N H)].
    apply key_is_true in E as ->. exfalso. apply Nk.
    apply in_map_iff. exists (PStr k, v). split; [reflexivity|exact H].
Qed.

(** What [__init__] leaves as the payload, it accepts again. *)
Lemma init_dict_again d jwt :
  __init__ (PDict d) = Ok jwt ->
  exists d', _payload jwt = PDict d' /\ __init__ (PDict d') = Ok jwt /\
    (d' = d \/
     exists s, dict_get d (text "aud") = Some (PStr s) /\
               d' = dict_set d (text "aud") (PList [PStr s])).
Proof.
  intros H. destruct (init_dict_ok d jwt H) as (S & N & A).
  destruct jwt as [p]. cbn [_payload] in *.
  rewrite validate_audience_dict in A.
  destruct (dict_get d (text "aud")) as [aud|] eqn:E.
  - destruct aud as [| | | |s|l| | |]; try discriminate A.
    + injection A as <-. eexists. split; [reflexivity|].
      split; [|right; exists s; split; reflexivity].
      apply init_dict_intro.
      * intros name Hn v. rewrite dict_get_set_ne; [apply S; exact Hn|].
        destruct Hn as [<-|[<-|[<-|[]]]]; discriminate.
      * intros name Hn v. rewrite dict_get_set_ne; [apply N; exact Hn|].
        destruct Hn as [<-|[<-|[<-|[]]]]; discriminate.
      * rewrite validate_audience_dict, dict_get_set_eq. reflexivity.
    + destruct (negb (is_empty l) && forallb is_Text l) eqn:L;
        [|discriminate A].
      injection A as <-. exists d. split; [reflexivity|]. split; [|left; reflexivity].
      exact H.
  - injection A as <-. exists d. split; [reflexivity|].
    split; [exact H|left; reflexivity].
Qed.

Lemma texts_json_value l : forallb is_Text l = true -> json_value (PList l).
Proof.
  intros H. cbn [json_value]. apply fold_and_Forall, List.Forall_forall.
  intros x Hx. rewrite forallb_forall in H. specialize (H x Hx).
  destruct x; try discriminate H. exact I.
Qed.

(** A payload that [__init__] accepts and leaves as it is, is a
    well-formed value of JSON. *)
Lemma init_fixed_sound d :
  payload_ok d -> __init__ (PDict d) = Ok {| _payload := PDict d |} ->
  sound (PDict d).
Proof.
  intros [F N] H. destruct (init_dict_ok d _ H) as (S & Nu & A).
  cbn [_payload] in A. rewrite validate_audience_dict in A.
  apply sound_dict; [|exact N].
  apply List.Forall_forall. intros [k v] Hin.
  rewrite List.Forall_forall in F.
  destruct (F _ Hin) as (Tk & Vk & Vv & J). cbn [fst snd] in *.
  repeat split; auto. destruct J as [R|J]; [|exact J].
  destruct k as [| | | |k| | | |]; try discriminate Tk.
  pose proof (In_dict_get d k v N Hin) as G.
  apply in_registered_iff in R.
  destruct R as [<-|[<-|[<-|[<-|[<-|[<-|[<-|[]]]]]]]].
  - match type of G with
    | dict_get d ?k = _ => specialize (S k ltac:(simpl; tauto) v G)
    end.
    destruct v; try discriminate S. exact I.
  - match type of G with
    | dict_get d ?k = _ => specialize (S k ltac:(simpl; tauto) v G)
    end.
    destruct v; try discriminate S. exact I.
  - match type of G with
    | dict_get d ?k = _ => specialize (S k ltac:(simpl; tauto) v G)
    end.
    destruct v; try discriminate S. exact I.
  - rewrite G in A.
    destruct v as [| | | |s|l| | |]; try discriminate A.
    + injection A as A. apply (f_equal (fun d => dict_get d (text "aud"))) in A.
      rewrite dict_get_set_eq, G in A. discriminate A.
    + destruct (negb (is_empty l) && forallb is_Text l) eqn:L;
        [|discriminate A].
      apply andb_true_iff in L as [_ L]. apply texts_json_value. exact L.
  - match type of G with
    | dict_get d ?k = _ => specialize (Nu k ltac:(simpl; tauto) v G)
    end.
    destruct v; try discriminate Nu; exact I.
  - match type of G with
    | dict_get d ?k = _ => specialize (Nu k ltac:(simpl; tauto) v G)
    end.
    destruct v; try discriminate Nu; exact I.
  - match type of G with
    | dict_get d ?k = _ => specialize (Nu k ltac:(simpl; tauto) v G)
    end.
    destruct v; try discriminate Nu; exact I.
Qed.

(** The payload of a claim set made from such a payload is a
    well-formed value of JSON that [__init__] accepts and leaves as it
    is. *)
Lemma init_dict_sound d jwt :
  payload_ok d -> __init__ (PDict d) = Ok jwt ->
  sound (_payload jwt) /\ __init__ (_payload jwt) = Ok jwt.
Proof.
  intros P H. destruct (init_dict_again d jwt H) as (d' & E & H' & C).
  rewrite E. split; [|exact H'].
  apply init_fixed_sound.
  - destruct C as [->|(s & G & ->)]; [exact P|].
    apply payload_ok_set; [exact P|].
    apply (entry_ok_registered "aud"); [reflexivity..|].
    destruct P as [F _]. rewrite List.Forall_forall in F.
    destruct (F _ (dict_get_In d _ _ G)) as (_ & _ & V & _).
    cbn [snd] in V. cbn [valid_val fold_and fold_right]. auto.
  - destruct jwt as [p]. cbn [_payload] in E. subst p. exact H'.
Qed.

(** * The round trip of a claim set *)

Lemma sound_payload_ok d : sound (PDict d) -> payload_ok d.
Proof.
  intros [[J N] V]. cbn [valid_val] in V. apply fold_and_Forall in J, V.
  split; [|exact N].
  eapply Forall_impl; [exact (Forall_both _ _ _ J V)|].
  intros kv [[T Jv] [Vk Vv]]. repeat split; auto.
Qed.

(** The payload of such a claim set is a well-formed value of JSON,
    which [__init__] accepts and leaves as it is. *)
Lemma constructed_sound jwt :
  constructed jwt ->
  sound (_payload jwt) /\ __init__ (_payload jwt) = Ok jwt.
Proof.
  intros [iss sub aud jti e n i cc jwt' Vi Vs Va Vj Vc H|s jwt' V H].
  - destruct (create_payload_ok _ _ _ _ _ _ _ _ _ Vi Vs Va Vj Vc H)
      as (p & P & Hp).
    exact (init_dict_sound p jwt' P Hp).
  - unfold from_json_payload in H. apply bind_ok in H as (p & L & Hp).
    pose proof (json_loads_sound s p V L) as S.
    destruct (is_dict p) eqn:D.
    + destruct p; try discriminate D.
      exact (init_dict_sound _ jwt' (sound_payload_ok _ S) Hp).
    + destruct (init_not_dict p jwt' D Hp) as [E _]. rewrite E.
      split; [exact S|exact Hp].
Qed.

(** C1, as stated, fails: [json.dumps] writes the two surrogates of the
    issuer as two escapes, which [json.loads] reads as one code point,
    so that the claim set read back has another issuer. *)
Lemma C1_surrogate_pair_merged :
  exists jwt t jwt',
    create (PStr [55357; 56832]) PNone PNone PNone None None None []
      = Ok jwt /\
    json_payload jwt = Ok t /\
    from_json_payload t = Ok jwt' /\
    issuer jwt = Ok (PStr [55357; 56832]) /\
    issuer jwt' = Ok (PStr [128512]) /\
    jwt' <> jwt.
Proof.
  eexists _, _, _. split; [reflexivity|]. split; [reflexivity|].
  split; [reflexivity|]. split; [reflexivity|]. split; [reflexivity|].
  discriminate.
Qed.

(** C1 (amended).  For every claim set made by [create] or by
    [from_json_payload] in which no string, claim name or value at any
    depth, has a high surrogate followed by a low surrogate: when
    [json_payload] returns a text and [json.loads] reads that text,
    what it reads is the payload of the claim set, and
    [from_json_payload] of the text gives the same claim set.  (The
    two library calls are the only steps of the round trip that can
    raise.) *)
Theorem C1_round_trip_without_surrogate_pairs jwt t p :
  constructed jwt -> plain (_payload jwt) ->
  json_payload jwt = Ok t -> json_loads t = Ok p ->
  p = _payload jwt /\ from_json_payload t = Ok jwt.
Proof.
  intros C P D L. destruct (constructed_sound jwt C) as [S H].
  destruct (loads_dumps_id (_payload jwt) S P) as (t' & D' & L').
  unfold json_payload in D. rewrite D in D'. injection D' as <-.
  rewrite L in L'. injection L' as ->.
  split; [reflexivity|]. unfold from_json_payload. rewrite L. exact H.
Qed.

(** C1 at work, on a claim set with an issuer, an audience given as a
    list and a custom claim given as a list with a tuple in it. *)
Lemma C1_round_trip_without_surrogate_pairs_witness :
  exists jwt t,
    create (PStr (text "me")) PNone (PList [PStr (text "you")]) PNone
      None None None [(PStr (text "a"), PList [PTuple [PInt 1]])] = Ok jwt /\
    json_payload jwt = Ok t /\ from_json_payload t = Ok jwt.
Proof.
  pose (jwt := {| _payload := PDict
    [(PStr (text "iss"), PStr (text "me"));
     (PStr (text "aud"), PList [PStr (text "you")]);
     (PStr (text "a"), PList [PList [PInt 1]])] |}).
  assert (E : create (PStr (text "me")) PNone (PList [PStr (text "you")])
                PNone None None None
                [(PStr (text "a"), PList [PTuple [PInt 1]])] = Ok jwt)
    by reflexivity.
  assert (D : exists t, json_payload jwt = Ok t) by (eexists; reflexivity).
  destruct D as [t D].
  assert (L : json_loads t = Ok (_payload jwt))
    by (injection D as <-; reflexivity).
  destruct (C1_round_trip_without_surrogate_pairs jwt t (_payload jwt))
    as (_ & R).
  - apply (constructed_create (PStr (text "me")) PNone
             (PList [PStr (text "you")]) PNone None None None
             [(PStr (text "a"), PList [PTuple [PInt 1]])] jwt);
      [..|exact E]; cbn; unfold valid_str; repeat constructor.
  - cbn. repeat split; reflexivity.
  - exact D.
  - exact L.
  - exists jwt, t. split; [exact E|]. split; [exact D|exact R].
Defined.

(** * The accessors and the payload *)

(** ** What [__init__] accepts *)

(** A claim set in existence went through [__init__], which accepts
    its payload again. *)
Lemma built_init jwt : built jwt -> __init__ (_payload jwt) = Ok jwt.
Proof.
  assert (D : forall d, __init__ (PDict d) = Ok jwt ->
                        __init__ (_payload jwt) = Ok jwt).
  { intros d H. destruct (init_dict_again d jwt H) as (d' & -> & H' & _).
    exact H'. }
  intros [iss sub aud jti e n i cc jwt' H|s jwt' H].
  - apply create_inv in H as (p & H & _).
    destruct (init_dict_again p jwt' H) as (d' & -> & H' & _). exact H'.
  - unfold from_json_payload in H. apply bind_ok in H as (p & _ & H).
    destruct (is_dict p) eqn:Dp.
    + destruct p; try discriminate Dp.
      destruct (init_dict_again _ jwt' H) as (d' & -> & H' & _). exact H'.
    + destruct (init_not_dict p jwt' Dp H) as [-> _]. exact H.
Qed.

Lemma built_has jwt name :
  built jwt -> In name _REGISTERED_NAMES ->
  exists b, py_contains (_payload jwt) name = Ok b.
Proof.
  intros B Hn. pose proof (built_init jwt B) as H.
  destruct (is_dict (_payload jwt)) eqn:D.
  - destruct (_payload jwt); try discriminate D. rewrite contains_dict. eauto.
  - destruct (init_not_dict _ jwt D H) as [_ C]. exists false. exact (C name Hn).
Qed.

Lemma absent_getitem jwt name :
  py_contains (_payload jwt) name = Ok false ->
  py_getitem (_payload jwt) name = Err (absent_error jwt).
Proof.
  unfold absent_error. destruct (_payload jwt) as [| | | | | | |d|];
    try reflexivity; try discriminate.
  simpl. destruct (dict_get d name); [discriminate|reflexivity].
Qed.

(** X1.  In every claim set, whichever factory made it, an issuer, a
    subject or a JWT id that is present is a string; a dictionary in
    which one of the three is not a string is refused with
    [JwtInvalidError], by [from_json_payload] as well. *)
Theorem string_claims_are_strings :
  (forall jwt, built jwt ->
     (has_issuer jwt = Ok true -> exists s, issuer jwt = Ok (PStr s)) /\
     (has_subject jwt = Ok true -> exists s, subject jwt = Ok (PStr s)) /\
     (has_jwt_id jwt = Ok true -> exists s, jwt_id jwt = Ok (PStr s))) /\
  (forall d name v,
     In name (map text ["iss"; "sub"; "jti"]%string) ->
     dict_get d name = Some v -> is_Text v = false ->
     __init__ (PDict d) = Err JwtInvalidError /\
     forall s, json_loads s = Ok (PDict d) ->
               from_json_payload s = Err JwtInvalidError).
Proof.
  split.
  - intros jwt B.
    assert (G : forall name,
      In name (map text ["iss"; "sub"; "jti"]%string) ->
      py_contains (_payload jwt) name = Ok true ->
      exists s, py_getitem (_payload jwt) name = Ok (PStr s)).
    { intros name Hn C.
      destruct (built_contains jwt name B) as (d & v & E & G);
        [simpl in *; tauto|exact C|].
      pose proof (built_init jwt B) as H. rewrite E in *.
      destruct (init_dict_ok d jwt H) as (S & _ & _).
      specialize (S name Hn v G). destruct v; try discriminate S.
      eexists. simpl. rewrite G. reflexivity. }
    repeat split; apply G; simpl; tauto.
  - intros d name v Hn G T.
    assert (E : __init__ (PDict d) = Err JwtInvalidError).
    { destruct (__init__ (PDict d)) as [jwt|e] eqn:H.
      - destruct (init_dict_ok d jwt H) as (S & _ & _).
        rewrite (S name Hn v G) in T. discriminate T.
      - apply init_dict_err in H as ->. reflexivity. }
    split; [exact E|]. intros s L. unfold from_json_payload. rewrite L.
    exact E.
Qed.

(** ** Claims that are absent *)

(** X2.  On a claim set in existence the seven tests [has_...] return
    a truth value, they do not raise; where the test is false the
    getter raises: [KeyError] on a payload that is a dictionary,
    [TypeError] on a payload that is a list or a string. *)
Theorem absent_claims_raise jwt :
  built jwt ->
  ((exists b, has_issuer jwt = Ok b) /\
   (has_issuer jwt = Ok false -> issuer jwt = Err (absent_error jwt))) /\
  ((exists b, has_subject jwt = Ok b) /\
   (has_subject jwt = Ok false -> subject jwt = Err (absent_error jwt))) /\
  ((exists b, has_audiences jwt = Ok b) /\
   (has_audiences jwt = Ok false -> audiences jwt = Err (absent_error jwt))) /\
  ((exists b, has_jwt_id jwt = Ok b) /\
   (has_jwt_id jwt = Ok false -> jwt_id jwt = Err (absent_error jwt))) /\
  ((exists b, has_expiration jwt = Ok b) /\
   (has_expiration jwt = Ok false ->
    expiration jwt = Err (absent_error jwt))) /\
  ((exists b, has_not_before jwt = Ok b) /\
   (has_not_before jwt = Ok false ->
    not_before jwt = Err (absent_error jwt))) /\
  ((exists b, has_issued_at jwt = Ok b) /\
   (has_issued_at jwt = Ok false -> issued_at jwt = Err (absent_error jwt))).
Proof.
  intros B.
  repeat split;
    try (apply (built_has jwt _ B); simpl; tauto);
    intros H;
    unfold issuer, subject, audiences, jwt_id, expiration, not_before,
      issued_at;
    rewrite absent_getitem by exact H; reflexivity.
Qed.

(** [absent_claims_raise] on the claim set of the text [{}]. *)
Lemma absent_claims_raise_witness :
  issuer {| _payload := PDict [] |} = Err KeyError /\
  expiration {| _payload := PDict [] |} = Err KeyError.
Proof.
  destruct (absent_claims_raise {| _payload := PDict [] |})
    as ((_ & H1) & _ & _ & _ & (_ & H5) & _).
  - apply (built_parse (text "{}")). reflexivity.
  - split; [exact (H1 eq_refl)|exact (H5 eq_refl)].
Defined.

(** ** Payloads that are not dictionaries *)

Lemma in_registered_keys x :
  in_registered x =
  key_is (text "iss") x || key_is (text "sub") x || key_is (text "jti") x ||
  key_is (text "aud") x || key_is (text "exp") x || key_is (text "nbf") x ||
  key_is (text "iat") x.
Proof.
  destruct x as [| | | |s| | | |]; try reflexivity.
  cbn [in_registered key_is _REGISTERED_NAMES map existsb].
  rewrite orb_false_r, !orb_assoc. reflexivity.
Qed.

Lemma existsb_orb {A} (f g : A -> bool) l :
  existsb (fun x => f x || g x) l = existsb f l || existsb g l.
Proof.
  induction l as [|x l IH]; [reflexivity|]. simpl. rewrite IH.
  destruct (f x), (g x), (existsb f l), (existsb g l); reflexivity.
Qed.

Lemma existsb_registered l :
  existsb in_registered l =
  existsb (key_is (text "iss")) l || existsb (key_is (text "sub")) l ||
  existsb (key_is (text "jti")) l || existsb (key_is (text "aud")) l ||
  existsb (key_is (text "exp")) l || existsb (key_is (text "nbf")) l ||
  existsb (key_is (text "iat")) l.
Proof.
  rewrite <- !existsb_orb. induction l as [|x l IH]; [reflexivity|].
  cbn [existsb]. rewrite IH, in_registered_keys. reflexivity.
Qed.

(** [__init__] on a list: a list that holds a registered name raises
    [TypeError], any other list becomes the payload. *)
Lemma init_list l :
  __init__ (PList l) =
  if existsb in_registered l then Err TypeError
  else Ok {| _payload := PList l |}.
Proof.
  rewrite existsb_registered.
  unfold __init__, _validate_string_claim, _validate_number_claim,
    _validate_audience_claim. cbn [py_contains py_getitem bind].
  destruct (existsb (key_is (text "iss")) l),
           (existsb (key_is (text "sub")) l),
           (existsb (key_is (text "jti")) l),
           (existsb (key_is (text "aud")) l),
           (existsb (key_is (text "exp")) l),
           (existsb (key_is (text "nbf")) l),
           (existsb (key_is (text "iat")) l); reflexivity.
Qed.

(** [__init__] on a string: a string in which a registered name occurs
    raises [TypeError], any other string becomes the payload. *)
Lemma init_str t :
  __init__ (PStr t) =
  if existsb (str_contains t) _REGISTERED_NAMES then Err TypeError
  else Ok {| _payload := PStr t |}.
Proof.
  unfold __init__, _validate_string_claim, _validate_number_claim,
    _validate_audience_claim.
  cbn [py_contains py_getitem bind _REGISTERED_NAMES map existsb].
  destruct (str_contains t (text "iss")),
           (str_contains t (text "sub")),
           (str_contains t (text "jti")),
           (str_contains t (text "aud")),
           (str_contains t (text "exp")),
           (str_contains t (text "nbf")),
           (str_contains t (text "iat")); reflexivity.
Qed.

(** X3.  [from_json_payload] does not ask for a JSON object.  On the
    text of [null], of a truth value or of a number it raises
    [TypeError]; the text of an array becomes a claim set whose payload
    is the list, unless an item is a registered name, and the text of a
    string becomes a claim set whose payload is the string, unless a
    registered name occurs in it: then it raises [TypeError]. *)
Theorem from_json_payload_non_object s p :
  json_loads s = Ok p ->
  match p with
  | PNone | PBool _ | PInt _ | PFloat _ =>
      from_json_payload s = Err TypeError
  | PList l =>
      from_json_payload s =
      if existsb in_registered l then Err TypeError
      else Ok {| _payload := PList l |}
  | PStr t =>
      from_json_payload s =
      if existsb (str_contains t) _REGISTERED_NAMES then Err TypeError
      else Ok {| _payload := PStr t |}
  | _ => True
  end.
Proof.
  intros L. unfold from_json_payload. rewrite L. cbn [bind].
  destruct p as [| | | |t|l| | |]; try reflexivity; try exact I.
  - apply init_str.
  - apply init_list.
Qed.

(** [from_json_payload_non_object] on a list of numbers and on a list
    that holds a registered name. *)
Lemma from_json_payload_non_object_witness :
  from_json_payload (text "[1, 2]")
    = Ok {| _payload := PList [PInt 1; PInt 2] |} /\
  from_json_payload (91 :: quoted "iss" ++ text "]") = Err TypeError.
Proof.
  split.
  - exact (from_json_payload_non_object (text "[1, 2]")
             (PList [PInt 1; PInt 2]) eq_refl).
  - exact (from_json_payload_non_object (91 :: quoted "iss" ++ text "]")
             (PList [PStr (text "iss")]) eq_refl).
Defined.

(** ** The exceptions of [from_json_payload] *)

Lemma validate_string_not_dict_err p name e :
  is_dict p = false -> _validate_string_claim p name = Err e -> e = TypeError.
Proof.
  intros D. unfold _validate_string_claim. rewrite getitem_not_dict by exact D.
  destruct p; try discriminate D; simpl;
    repeat match goal with
    | |- context [if ?b then _ else _] => destruct b; simpl
    end; congruence.
Qed.

Lemma validate_number_not_dict_err p name e :
  is_dict p = false -> _validate_number_claim p name = Err e -> e = TypeError.
Proof.
  intros D. unfold _validate_number_claim. rewrite getitem_not_dict by exact D.
  destruct p; try discriminate D; simpl;
    repeat match goal with
    | |- context [if ?b then _ else _] => destruct b; simpl
    end; congruence.
Qed.

Lemma init_not_dict_err p e :
  is_dict p = false -> __init__ p = Err e -> e = TypeError.
Proof.
  intros D. unfold __init__. intros H.
  repeat match goal with
  | H : bind (_validate_string_claim p ?n) _ = Err e |- _ =>
      apply bind_err in H as [H|(? & _ & H)];
      [exact (validate_string_not_dict_err p n e D H)|]
  | H : bind (_validate_number_claim p ?n) _ = Err e |- _ =>
      apply bind_err in H as [H|(? & _ & H)];
      [exact (validate_number_not_dict_err p n e D H)|]
  end.
  apply bind_err in H as [H|(? & _ & H)]; [|discriminate H].
  unfold _validate_audience_claim in H.
  rewrite getitem_not_dict in H by exact D.
  destruct (py_contains p (text "aud")) as [[]|e'] eqn:C; simpl in H;
    try congruence.
  destruct p; try discriminate D; simpl in C; congruence.
Qed.

(** X4.  The exceptions of [from_json_payload], and where they come
    from: the exception [json.loads] raised on the text, whatever it
    is, or [JwtInvalidError] when the text holds a JSON object, or
    [TypeError] when it holds any other JSON value. *)
Theorem from_json_payload_exceptions s e :
  from_json_payload s = Err e ->
  json_loads s = Err e \/
  (exists d, json_loads s = Ok (PDict d) /\ e = JwtInvalidError) \/
  (exists p, json_loads s = Ok p /\ is_dict p = false /\ e = TypeError).
Proof.
  unfold from_json_payload. intros H.
  destruct (json_loads s) as [p|e'] eqn:L; cbn [bind] in H.
  - right. destruct (is_dict p) eqn:D.
    + left. destruct p; try discriminate D. eexists. split; [reflexivity|].
      exact (init_dict_err _ _ H).
    + right. exists p. split; [reflexivity|]. split; [exact D|].
      exact (init_not_dict_err p e D H).
  - left. congruence.
Qed.

(** [from_json_payload_exceptions] on the text [5]. *)
Lemma from_json_payload_exceptions_witness :
  exists p, json_loads (text "5") = Ok p /\ is_dict p = false.
Proof.
  destruct (from_json_payload_exceptions (text "5") TypeError eq_refl)
    as [H|[(d & _ & H)|(p & L & D & _)]];
    [discriminate H|discriminate H|].
  exists p. split; [exact L|exact D].
Defined.

(** ** What parsing keeps *)

Lemma dict_set_keys d k v v0 :
  dict_get d k = Some v0 -> map fst (dict_set d k v) = map fst d.
Proof.
  induction d as [|[k' v'] d IH]; simpl; [discriminate|].
  destruct (key_is k k'); [reflexivity|]. intros H. simpl. rewrite IH by exact H.
  reflexivity.
Qed.

(** X5.  The claim set of a JSON object has the names of the object,
    in their order, and under every name but [aud] the value of the
    object; under [aud] a string has become the list of that string. *)
Theorem from_json_payload_keeps_claims s d jwt :
  json_loads s = Ok (PDict d) -> from_json_payload s = Ok jwt ->
  exists d',
    _payload jwt = PDict d' /\
    map fst d' = map fst d /\
    (forall name, name <> text "aud" ->
       py_getitem (_payload jwt) name = py_getitem (PDict d) name) /\
    (forall s', dict_get d (text "aud") = Some (PStr s') ->
       audiences jwt = Ok (PList [PStr s'])) /\
    (forall l, dict_get d (text "aud") = Some (PList l) ->
       audiences jwt = Ok (PList l)).
Proof.
  intros L H. unfold from_json_payload in H. rewrite L in H. cbn [bind] in H.
  destruct (init_dict_again d jwt H) as (d' & E & _ & C).
  exists d'. split; [exact E|]. rewrite E.
  destruct C as [->|(a & G & ->)].
  - split; [reflexivity|]. split; [reflexivity|]. split.
    + intros s' G. apply init_dict_ok in H as (_ & _ & H).
      rewrite validate_audience_dict, G in H. injection H as H.
      rewrite E in H. injection H as H.
      apply (f_equal (fun x => dict_get x (text "aud"))) in H.
      rewrite dict_get_set_eq, G in H. discriminate H.
    + intros l G. unfold audiences. rewrite E. simpl. rewrite G. reflexivity.
  - split; [exact (dict_set_keys d _ _ _ G)|]. split; [|split].
    + intros name Hn. simpl. rewrite dict_get_set_ne by congruence.
      reflexivity.
    + intros s' G'. rewrite G in G'. injection G' as <-.
      unfold audiences. rewrite E. simpl. rewrite dict_get_set_eq. reflexivity.
    + intros l G'. rewrite G in G'. discriminate G'.
Qed.

(** [from_json_payload_keeps_claims] on an object with a string
    audience. *)
Lemma from_json_payload_keeps_claims_witness :
  exists jwt,
    from_json_payload
      (123 :: quoted "aud" ++ text ": " ++ quoted "you" ++ text "}") = Ok jwt /\
    audiences jwt = Ok (PList [PStr (text "you")]).
Proof.
  pose (s := 123 :: quoted "aud" ++ text ": " ++ quoted "you" ++ text "}").
  pose (jwt := {| _payload :=
    PDict [(PStr (text "aud"), PList [PStr (text "you")])] |}).
  destruct (from_json_payload_keeps_claims s
              [(PStr (text "aud"), PStr (text "you"))] jwt eq_refl eq_refl)
    as (d' & _ & _ & _ & H & _).
  exists jwt. split; [reflexivity|]. exact (H (text "you") eq_refl).
Defined.

(** * The builder *)

(** ** What the builder stores *)

Lemma timestamp_entry_given t p p' name :
  add_timestamp p name t = Ok p' ->
  match timestamp_entry t with Some _ => true | None => false end = given t.
Proof.
  destruct t as [t|]; [|reflexivity]. cbn [add_timestamp timestamp_entry given].
  intros H. apply bind_ok in H as (z & -> & _). reflexivity.
Qed.

Lemma create_timestamps iss sub aud jti e n i cc jwt :
  create iss sub aud jti e n i cc = Ok jwt ->
  match timestamp_entry e with Some _ => true | None => false end = given e /\
  match timestamp_entry n with Some _ => true | None => false end = given n /\
  match timestamp_entry i with Some _ => true | None => false end = given i.
Proof.
  unfold create; cbv zeta. intros H.
  apply bind_ok in H as (p1 & H1 & H). apply bind_ok in H as (p2 & H2 & H).
  apply bind_ok in H as (p3 & H3 & _).
  split; [|split]; eapply timestamp_entry_given; eassumption.
Qed.

(** X6.  A claim set made by the builder has the registered claims
    that were given, and no other: the issuer and the subject if they
    are true values, the JWT id and the audiences if they are not
    [None], the three instants if they are given; the getters return
    the issuer, the subject, the JWT id and the list of audiences as
    they were given. *)
Theorem create_claims_read_back iss sub aud jti e n i cc jwt :
  create iss sub aud jti e n i cc = Ok jwt ->
  (has_issuer jwt = Ok (truthy iss) /\
   (truthy iss = true -> issuer jwt = Ok iss)) /\
  (has_subject jwt = Ok (truthy sub) /\
   (truthy sub = true -> subject jwt = Ok sub)) /\
  (has_jwt_id jwt = Ok (negb (is_None jti)) /\
   (is_None jti = false -> jwt_id jwt = Ok jti)) /\
  (has_audiences jwt = Ok (negb (is_None aud)) /\
   (forall l, aud = PList l -> audiences jwt = Ok (PList l))) /\
  has_expiration jwt = Ok (given e) /\
  has_not_before jwt = Ok (given n) /\
  has_issued_at jwt = Ok (given i).
Proof.
  intros H. destruct (create_timestamps _ _ _ _ _ _ _ _ _ H) as (Te & Tn & Ti).
  apply create_inv in H as (p & H & Gi & Gs & Gj & Ga & Ge & Gn & Gt).
  apply init_dict_payload in H as (d & E & K & A & _).
  unfold has_issuer, issuer, has_subject, subject, has_jwt_id, jwt_id,
    has_audiences, audiences, has_expiration, has_not_before, has_issued_at.
  rewrite E. cbn [py_contains py_getitem].
  rewrite (K (text "iss")), (K (text "sub")), (K (text "jti")),
    (K (text "exp")), (K (text "nbf")), (K (text "iat")) by discriminate.
  rewrite A, Gi, Gs, Gj, Ga, Ge, Gn, Gt.
  rewrite Te, Tn, Ti.
  repeat split.
  - destruct (truthy iss); reflexivity.
  - intros ->. reflexivity.
  - destruct (truthy sub); reflexivity.
  - intros ->. reflexivity.
  - destruct (is_None jti); reflexivity.
  - intros ->. reflexivity.
  - destruct (is_None aud); [reflexivity|]. destruct aud; reflexivity.
  - intros l ->. reflexivity.
Qed.

(** [create_claims_read_back] on a build with an issuer and a list of
    audiences. *)
Lemma create_claims_read_back_witness :
  exists jwt,
    create (PStr (text "me")) PNone (PList [PStr (text "you")]) PNone
      None None None [] = Ok jwt /\
    issuer jwt = Ok (PStr (text "me")) /\
    has_subject jwt = Ok false /\
    audiences jwt = Ok (PList [PStr (text "you")]).
Proof.
  pose (jwt := {| _payload := PDict
    [(PStr (text "iss"), PStr (text "me"));
     (PStr (text "aud"), PList [PStr (text "you")])] |}).
  destruct (create_claims_read_back (PStr (text "me")) PNone
              (PList [PStr (text "you")]) PNone None None None [] jwt eq_refl)
    as ((_ & H1) & (H2 & _) & _ & (_ & H4) & _).
  exists jwt. split; [reflexivity|]. split; [exact (H1 eq_refl)|].
  split; [exact H2|exact (H4 _ eq_refl)].
Defined.

(** ** Values that are false, values that are not strings *)

(** X7.  The builder tests the issuer and the subject for truth: a
    false value of any class ([0], [False], an empty list) is dropped
    as [None] is, without complaint.  A true issuer or subject that is
    not a string makes the build fail, and so does a JWT id that is
    neither [None] nor a string, whatever its truth value. *)
Theorem create_false_or_not_string :
  (forall iss sub aud jti e n i cc,
     truthy iss = false ->
     create iss sub aud jti e n i cc = create PNone sub aud jti e n i cc) /\
  (forall iss sub aud jti e n i cc,
     truthy sub = false ->
     create iss sub aud jti e n i cc = create iss PNone aud jti e n i cc) /\
  (forall iss sub aud jti e n i cc,
     truthy iss = true -> is_Text iss = false ->
     is_ok (create iss sub aud jti e n i cc) = false) /\
  (forall iss sub aud jti e n i cc,
     truthy sub = true -> is_Text sub = false ->
     is_ok (create iss sub aud jti e n i cc) = false) /\
  (forall iss sub aud jti e n i cc,
     is_None jti = false -> is_Text jti = false ->
     is_ok (create iss sub aud jti e n i cc) = false).
Proof.
  repeat split; intros iss sub aud jti e n i cc.
  - intros T. unfold create. rewrite T. reflexivity.
  - intros T. unfold create. rewrite T. reflexivity.
  - intros T N. destruct (create iss sub aud jti e n i cc) as [jwt|] eqn:H;
      [|reflexivity].
    destruct (create_inv _ _ _ _ _ _ _ _ _ H) as (p & Hp & G & _).
    rewrite T in G. destruct (init_dict_ok p jwt Hp) as (S & _ & _).
    rewrite (S (text "iss") ltac:(simpl; tauto) iss G) in N. discriminate N.
  - intros T N. destruct (create iss sub aud jti e n i cc) as [jwt|] eqn:H;
      [|reflexivity].
    destruct (create_inv _ _ _ _ _ _ _ _ _ H) as (p & Hp & _ & G & _).
    rewrite T in G. destruct (init_dict_ok p jwt Hp) as (S & _ & _).
    rewrite (S (text "sub") ltac:(simpl; tauto) sub G) in N. discriminate N.
  - intros T N. destruct (create iss sub aud jti e n i cc) as [jwt|] eqn:H;
      [|reflexivity].
    destruct (create_inv _ _ _ _ _ _ _ _ _ H) as (p & Hp & _ & _ & G & _).
    rewrite T in G. destruct (init_dict_ok p jwt Hp) as (S & _ & _).
    rewrite (S (text "jti") ltac:(simpl; tauto) jti G) in N. discriminate N.
Qed.

(** [create_false_or_not_string]: the issuer [0] is dropped, the JWT
    id [0] is refused. *)
Lemma create_false_or_not_string_witness :
  create (PInt 0) PNone PNone PNone None None None []
    = Ok {| _payload := PDict [] |} /\
  is_ok (create PNone PNone PNone (PInt 0) None None None []) = false.
Proof.
  destruct create_false_or_not_string as (H1 & _ & _ & _ & H5). split.
  - rewrite (H1 (PInt 0) PNone PNone PNone None None None [] eq_refl).
    reflexivity.
  - exact (H5 PNone PNone PNone (PInt 0) None None None [] eq_refl eq_refl).
Defined.

(** ** The exceptions of the builder *)

(** X8.  The exceptions of the builder, and where they come from, for
    an issuer, a subject and audiences of the built-in classes and
    custom claim names that are strings, numbers, truth values or
    [None]: [JwtInvalidError], or the exception that [json.dumps], or
    [json.loads] after it, raised on a list or a dictionary among the
    custom claim values. *)
Theorem create_exceptions iss sub aud jti e n i cc err :
  is_object iss = false -> is_object sub = false -> is_object aud = false ->
  Forall (fun kv : pyval * pyval => is_key kv.1 = true) cc ->
  create iss sub aud jti e n i cc = Err err ->
  err = JwtInvalidError \/
  exists k v,
    In (k, v) cc /\ (is_list v || is_dict v) = true /\
    (json_dumps v = Err err \/
     exists t, json_dumps v = Ok t /\ json_loads t = Err err).
Proof.
  intros _ _ _ _ H.
  destruct (create_until_custom iss sub aud jti e n i cc) as [[p E]|E];
    [|rewrite E in H; injection H as <-; auto].
  rewrite E in H. clear E.
  destruct (add_custom_claims p cc) as [q|e'] eqn:C; cbn [bind] in H.
  - apply init_dict_err in H as ->. auto.
  - injection H as <-.
    destruct (add_custom_claims_err p cc e' C) as [J|(k & v & Hin & L & J)];
      [left; exact J|].
    right. exists k, v. split; [exact Hin|]. split; [exact L|].
    rewrite custom_claim_value_spec in J.
    replace (is_claim_type v) with true in J by (destruct v; auto).
    cbn [negb] in J. rewrite L in J.
    destruct (json_dumps v) as [t|e0]; cbn [bind] in J.
    + right. exists t. split; [reflexivity|exact J].
    + left. congruence.
Qed.

(** [create_exceptions] on an audience that is a number. *)
Lemma create_exceptions_witness :
  create PNone PNone (PInt 1) PNone None None None [] = Err JwtInvalidError.
Proof.
  assert (H : exists err,
    create PNone PNone (PInt 1) PNone None None None [] = Err err)
    by (eexists; reflexivity).
  destruct H as [err H].
  destruct (create_exceptions PNone PNone (PInt 1) PNone None None None []
              err eq_refl eq_refl eq_refl ltac:(constructor) H)
    as [->|(k & v & [] & _)].
  exact H.
Defined.

(** * Custom claims *)

(** ** The names of the custom claims *)

Lemma dict_get_key d k :
  In (PStr k) (map fst d) -> exists v, dict_get d k = Some v.
Proof.
  induction d as [|[k' v'] d IH]; simpl; [intros []|].
  destruct (key_is k k') eqn:E; [eauto|].
  intros [->|H]; [|exact (IH H)].
  simpl in E. rewrite str_eqb_refl in E. discriminate E.
Qed.

Lemma dict_get_keyed d k v : dict_get d k = Some v -> In (PStr k) (map fst d).
Proof.
  intros H. apply in_map_iff. exists (PStr k, v).
  split; [reflexivity|exact (dict_get_In d k v H)].
Qed.

(** X9.  [custom_claim_names] and [custom_claim] agree.  On a payload
    that is a dictionary no registered name is among the names, and the
    names are the names other than registered ones under which the
    payload has a value.  For such a name [custom_claim] returns the
    value itself when it is not a list or a dictionary; when it is one,
    what [custom_claim] returns, if [copy.deepcopy] lets it return, is
    that value, and what it raises is neither [JwtInvalidError] nor
    [KeyError].  For any other name it raises: [JwtInvalidError] on a
    registered name, even when the claim is present, and [KeyError] on
    a name that is absent.  On a payload that is not a dictionary
    [custom_claim_names] raises (the [AttributeError] of [keys]), and
    [custom_claim] raises [JwtInvalidError] on a registered name and
    [TypeError] on any other. *)
Theorem custom_claim_names_spec jwt :
  match custom_claim_names jwt with
  | Some names =>
      (forall n, In n names -> in_registered n = false) /\
      (forall name,
         In (PStr name) names <->
         in_registered (PStr name) = false /\
         exists v, py_getitem (_payload jwt) name = Ok v) /\
      (forall name v,
         In (PStr name) names -> py_getitem (_payload jwt) name = Ok v ->
         ((is_list v || is_dict v) = false -> custom_claim jwt name = Ok v) /\
         (forall r, custom_claim jwt name = Ok r -> r = v) /\
         custom_claim jwt name <> Err JwtInvalidError /\
         custom_claim jwt name <> Err KeyError) /\
      (forall name,
         ~ In (PStr name) names ->
         custom_claim jwt name =
         Err (if in_registered (PStr name) then JwtInvalidError
              else KeyError))
  | None =>
      forall name,
        custom_claim jwt name =
        Err (if in_registered (PStr name) then JwtInvalidError else TypeError)
  end.
Proof.
  unfold custom_claim_names, custom_claim, _validate_custom_claim_name.
  destruct (_payload jwt) as [| | | | | | |d|];
    try (intros name; destruct (in_registered (PStr name)); reflexivity).
  assert (M : forall name,
    In (PStr name)
       (List.filter (fun n => negb (in_registered n)) (map fst d)) <->
    in_registered (PStr name) = false /\ exists v, dict_get d name = Some v).
  { intros name. rewrite filter_In, negb_true_iff. split.
    - intros [H R]. split; [exact R|apply dict_get_key; exact H].
    - intros [R [v H]]. split; [exact (dict_get_keyed d name v H)|exact R]. }
  split; [|split; [|split]].
  - intros n H. apply filter_In in H as [_ H]. apply negb_true_iff in H.
    exact H.
  - intros name. rewrite M. cbn [py_getitem]. split.
    + intros [R [v H]]. split; [exact R|]. exists v. rewrite H. reflexivity.
    + intros [R [v H]]. split; [exact R|].
      destruct (dict_get d name) as [w|]; [eauto|discriminate H].
  - intros name v Hin G. apply M in Hin as [R _]. rewrite R.
    cbn [bind]. rewrite G. cbn [bind]. unfold deepcopy.
    destruct (is_list v || is_dict v);
      repeat split; try congruence; try discriminate.
  - intros name N. rewrite M in N.
    destruct (in_registered (PStr name)); [reflexivity|].
    cbn [bind py_getitem].
    destruct (dict_get d name) as [w|]; [|reflexivity].
    exfalso. apply N. split; [reflexivity|eauto].
Qed.

(** [custom_claim_names_spec] on the claim set
    [{"a": 1, "iss": "x"}]: the name [a] gives its value, the name
    [iss] is refused although the claim is there. *)
Lemma custom_claim_names_spec_witness :
  let jwt := {| _payload := PDict [(PStr (text "a"), PInt 1);
                                   (PStr (text "iss"), PStr (text "x"))] |} in
  custom_claim_names jwt = Some [PStr (text "a")] /\
  custom_claim jwt (text "a") = Ok (PInt 1) /\
  custom_claim jwt (text "iss") = Err JwtInvalidError.
Proof.
  intros jwt. pose proof (custom_claim_names_spec jwt) as H.
  change (custom_claim_names jwt) with (Some [PStr (text "a")]) in H.
  destruct H as (_ & _ & G & N). split; [reflexivity|]. split.
  - apply (G (text "a") (PInt 1)); [left; reflexivity|reflexivity|reflexivity].
  - apply (N (text "iss")). intros [E|[]]. discriminate E.
Defined.

(** ** The custom claims of the builder *)

Lemma dict_set_key_iff d k v x :
  In x (map fst (dict_set d k v)) <-> In x (map fst d) \/ x = PStr k.
Proof.
  split; [apply dict_set_key_in|].
  induction d as [|[k' v'] d IH]; simpl.
  - intros [[]| ->]. left. reflexivity.
  - destruct (key_is k k') eqn:E; simpl.
    + apply key_is_true in E as ->. intros [[H|H]|H]; auto.
    + intros [[H|H]|H]; auto.
Qed.

Lemma add_custom_claims_names p items p' :
  add_custom_claims p items = Ok p' ->
  Forall (fun kv : pyval * pyval => in_registered kv.1 = false) items.
Proof.
  revert p. induction items as [|[n v] items IH]; intros p H; [constructor|].
  cbn [add_custom_claims] in H. unfold _validate_custom_claim_name in H.
  destruct (in_registered n) eqn:R; [discriminate H|]. cbn [bind] in H.
  destruct n; try discriminate H. apply bind_ok in H as (stored & _ & H).
  constructor; [exact R|exact (IH _ H)].
Qed.

Lemma add_custom_claims_keys p items p' :
  add_custom_claims p items = Ok p' ->
  forall k, In k (map fst p') <-> In k (map fst p) \/ In k (map fst items).
Proof.
  revert p. induction items as [|[n v] items IH]; intros p H k.
  - injection H as <-. simpl. tauto.
  - cbn [add_custom_claims] in H. unfold _validate_custom_claim_name in H.
    destruct (in_registered n); [discriminate H|]. cbn [bind] in H.
    destruct n as [| | | |s| | | |]; try discriminate H.
    apply bind_ok in H as (stored & _ & H).
    rewrite (IH _ H k), dict_set_key_iff. simpl. intuition congruence.
Qed.

Lemma add_custom_claims_other p items p' k :
  add_custom_claims p items = Ok p' ->
  ~ In (PStr k) (map fst items) -> dict_get p' k = dict_get p k.
Proof.
  revert p. induction items as [|[n v] items IH]; intros p H N.
  - injection H as <-. reflexivity.
  - cbn [add_custom_claims] in H. unfold _validate_custom_claim_name in H.
    destruct (in_registered n); [discriminate H|]. cbn [bind] in H.
    destruct n as [| | | |s| | | |]; try discriminate H.
    apply bind_ok in H as (stored & _ & H). simpl in N.
    rewrite (IH _ H) by tauto. apply dict_get_set_ne. intros ->. tauto.
Qed.

Lemma add_custom_claims_stored p items p' n value :
  add_custom_claims p items = Ok p' ->
  List.NoDup (map fst items) -> In (PStr n, value) items ->
  exists stored, custom_claim_value value = Ok stored /\
                 dict_get p' n = Some stored.
Proof.
  revert p. induction items as [|[m v] items IH]; intros p H N Hin;
    [contradiction|].
  cbn [add_custom_claims] in H. unfold _validate_custom_claim_name in H.
  destruct (in_registered m); [discriminate H|]. cbn [bind] in H.
  destruct m as [| | | |s| | | |]; try discriminate H.
  apply bind_ok in H as (stored & C & H).
  cbn [map fst] in N. apply List.NoDup_cons_iff in N as [Nk N].
  destruct Hin as [E|Hin]; [|exact (IH _ H N Hin)].
  injection E as -> ->. exists stored. split; [exact C|].
  rewrite (add_custom_claims_other _ _ _ n H Nk). apply dict_get_set_eq.
Qed.

(** Where the builder is when it comes to the custom claims: the
    payload has registered names only. *)
Lemma create_split iss sub aud jti e n i cc jwt :
  create iss sub aud jti e n i cc = Ok jwt ->
  exists p3 p4,
    Forall (fun kv : pyval * pyval => in_registered kv.1 = true) p3 /\
    add_custom_claims p3 cc = Ok p4 /\
    __init__ (PDict p4) = Ok jwt.
Proof.
  unfold create; cbv zeta. intros H.
  apply bind_ok in H as (p1 & H1 & H). apply bind_ok in H as (p2 & H2 & H).
  apply bind_ok in H as (p3 & H3 & H). apply bind_ok in H as (p4 & H4 & H).
  exists p3, p4. split; [|split; assumption].
  assert (T : forall p (name : string) t p',
    Forall (fun kv : pyval * pyval => in_registered kv.1 = true) p ->
    in_registered (PStr (text name)) = true ->
    add_timestamp p (text name) t = Ok p' ->
    Forall (fun kv : pyval * pyval => in_registered kv.1 = true) p').
  { intros p name [t|] p' F R; cbn [add_timestamp].
    - intros A. apply bind_ok in A as (ts & _ & [= <-]).
      apply dict_set_Forall; assumption.
    - intros [= <-]. exact F. }
  refine (T p2 "iat"%string i p3 _ eq_refl H3).
  refine (T p1 "nbf"%string n p2 _ eq_refl H2).
  refine (T _ "exp"%string e p1 _ eq_refl H1).
  repeat match goal with
  | |- Forall _ (if ?b then dict_set ?q (text ?k) ?v else _) =>
      let P := fresh "P" in
      assert (P : Forall (fun kv : pyval * pyval => in_registered kv.1 = true)
                    q);
      [|destruct b; [apply dict_set_Forall; [exact P|reflexivity]|exact P]]
  end.
  constructor.
Qed.

Lemma init_keys d jwt :
  __init__ (PDict d) = Ok jwt ->
  exists d', _payload jwt = PDict d' /\ map fst d' = map fst d.
Proof.
  intros H. destruct (init_dict_again d jwt H) as (d' & E & _ & C).
  exists d'. split; [exact E|].
  destruct C as [->|(s & G & ->)]; [reflexivity|].
  exact (dict_set_keys d _ _ _ G).
Qed.

(** X10.  The custom claim names of a claim set made by the builder
    are the keys of [custom_claims], all of them and nothing else. *)
Theorem create_custom_claim_names iss sub aud jti e n i cc jwt :
  create iss sub aud jti e n i cc = Ok jwt ->
  exists names,
    custom_claim_names jwt = Some names /\
    forall k, In k names <-> In k (map fst cc).
Proof.
  intros H. destruct (create_split _ _ _ _ _ _ _ _ _ H)
    as (p3 & p4 & F & A & Hi).
  destruct (init_keys p4 jwt Hi) as (d' & E & K).
  unfold custom_claim_names. rewrite E. eexists. split; [reflexivity|].
  intros k. rewrite filter_In, K, (add_custom_claims_keys p3 cc p4 A k).
  rewrite negb_true_iff. pose proof (add_custom_claims_names p3 cc p4 A) as Nc.
  rewrite List.Forall_forall in F, Nc. split.
  - intros [[H3|Hc] R]; [|exact Hc].
    apply in_map_iff in H3 as (kv & <- & Hkv). rewrite (F kv Hkv) in R.
    discriminate R.
  - intros Hc. split; [right; exact Hc|].
    apply in_map_iff in Hc as (kv & <- & Hkv). exact (Nc kv Hkv).
Qed.

(** [create_custom_claim_names] on a build with an issuer and two
    custom claims. *)
Lemma create_custom_claim_names_witness :
  exists jwt names,
    create (PStr (text "me")) PNone PNone PNone None None None
      [(PStr (text "a"), PInt 1); (PStr (text "b"), PNone)] = Ok jwt /\
    custom_claim_names jwt = Some names /\
    (In (PStr (text "b")) names /\ ~ In (PStr (text "iss")) names).
Proof.
  pose (cc := [(PStr (text "a"), PInt 1); (PStr (text "b"), PNone)]).
  pose (jwt := {| _payload := PDict
    [(PStr (text "iss"), PStr (text "me")); (PStr (text "a"), PInt 1);
     (PStr (text "b"), PNone)] |}).
  destruct (create_custom_claim_names (PStr (text "me")) PNone PNone PNone
              None None None cc jwt eq_refl) as (names & E & K).
  exists jwt, names. split; [reflexivity|]. split; [exact E|]. split.
  - apply K. simpl. right. left. reflexivity.
  - intros H. apply K in H. simpl in H.
    destruct H as [H|[H|[]]]; discriminate H.
Defined.

(** X11.  A custom claim of the builder is read back by its name.  The
    payload holds under the name what the builder stored; for [None], a
    truth value, a number or a string that is the value that was given,
    and [custom_claim] returns it; for a list or a dictionary, what
    [custom_claim] returns, if [copy.deepcopy] lets it return, is what
    the builder stored. *)
Theorem create_custom_claim_read_back iss sub aud jti e n i cc jwt name value :
  create iss sub aud jti e n i cc = Ok jwt ->
  List.NoDup (map fst cc) -> In (PStr name, value) cc ->
  exists stored,
    custom_claim_value value = Ok stored /\
    py_getitem (_payload jwt) name = Ok stored /\
    (forall r, custom_claim jwt name = Ok r -> r = stored) /\
    ((is_list value || is_dict value) = false ->
     stored = value /\ custom_claim jwt name = Ok value).
Proof.
  intros H N Hin. destruct (create_split _ _ _ _ _ _ _ _ _ H)
    as (p3 & p4 & _ & A & Hi).
  destruct (add_custom_claims_stored p3 cc p4 name value A N Hin)
    as (stored & C & G).
  pose proof (add_custom_claims_names p3 cc p4 A) as Nc.
  rewrite List.Forall_forall in Nc. specialize (Nc _ Hin). cbn [fst] in Nc.
  destruct (init_dict_payload p4 jwt Hi) as (d' & E & K & _).
  assert (P : py_getitem (_payload jwt) name = Ok stored).
  { rewrite E. cbn [py_getitem]. rewrite K, G; [reflexivity|].
    intros ->. discriminate Nc. }
  assert (Cc : custom_claim jwt name = Ok stored).
  { unfold custom_claim, _validate_custom_claim_name. rewrite Nc, P.
    cbn [bind]. destruct (is_list stored || is_dict stored); reflexivity. }
  exists stored. split; [exact C|]. split; [exact P|]. split.
  - intros r Hr. congruence.
  - intros S. rewrite custom_claim_value_spec in C.
    destruct (is_claim_type value); cbn [negb] in C; [|discriminate C].
    rewrite S in C. injection C as <-. split; [reflexivity|exact Cc].
Qed.

(** [create_custom_claim_read_back] on a float. *)
Lemma create_custom_claim_read_back_witness :
  exists jwt,
    create PNone PNone PNone PNone None None None
      [(PStr (text "a"), PFloat (FFin false [1; 5] (-1)));
       (PStr (text "b"), PNone)] = Ok jwt /\
    custom_claim jwt (text "a") = Ok (PFloat (FFin false [1; 5] (-1))).
Proof.
  pose (cc := [(PStr (text "a"), PFloat (FFin false [1; 5] (-1)));
               (PStr (text "b"), PNone)]).
  pose (jwt := {| _payload := PDict cc |}).
  destruct (create_custom_claim_read_back PNone PNone PNone PNone
              None None None cc jwt (text "a") (PFloat (FFin false [1; 5] (-1)))
              eq_refl) as (stored & _ & _ & _ & S).
  - repeat constructor; simpl; intuition discriminate.
  - left. reflexivity.
  - exists jwt. split; [reflexivity|]. exact (proj2 (S eq_refl)).
Defined.

(** X12.  The name of a custom claim must be a string: a key of
    [custom_claims] of another class makes the build fail, whatever
    the value under it. *)
Theorem create_custom_claim_name_must_be_string
    iss sub aud jti e n i cc name value :
  In (name, value) cc -> is_Text name = false ->
  is_ok (create iss sub aud jti e n i cc) = false.
Proof.
  intros Hin T.
  destruct (create iss sub aud jti e n i cc) as [jwt|] eqn:H; [|reflexivity].
  destruct (create_split _ _ _ _ _ _ _ _ _ H) as (p3 & p4 & _ & A & _).
  exfalso. clear H. revert p3 A.
  induction cc as [|[m v] cc IH]; intros p3 A; [contradiction|].
  cbn [add_custom_claims] in A. unfold _validate_custom_claim_name in A.
  destruct (in_registered m); [discriminate A|]. cbn [bind] in A.
  destruct Hin as [E|Hin].
  - injection E as -> ->. destruct name; try discriminate A. discriminate T.
  - destruct m; try discriminate A. apply bind_ok in A as (stored & _ & A).
    exact (IH Hin _ A).
Qed.

(** [create_custom_claim_name_must_be_string] on the key [1]. *)
Lemma create_custom_claim_name_must_be_string_witness :
  is_ok (create PNone PNone PNone PNone None None None
           [(PStr (text "a"), PNone); (PInt 1, PStr (text "x"))]) = false.
Proof.
  apply (create_custom_claim_name_must_be_string PNone PNone PNone PNone
           None None None _ (PInt 1) (PStr (text "x")));
    [right; left; reflexivity|reflexivity].
Defined.

(** * Instants, audiences and the text of a claim set *)

(** ** Instants in any time zone *)

Lemma utc_of_seconds z :
  (MIN_TIMESTAMP - 86401 <= z <= MAX_TIMESTAMP + 86401)%Z ->
  utc_of_us (z * 1000000) = instant_of_seconds z.
Proof.
  unfold utc_of_us, instant_of_seconds, MIN_TIMESTAMP, MAX_TIMESTAMP.
  intros H. rewrite Z.div_mul by lia.
  destruct (z <? - 2 ^ 63)%Z eqn:E1; [lia|].
  destruct (2 ^ 63 <=? z)%Z eqn:E2; [lia|]. cbn [orb].
  destruct (z <? -62135596800)%Z eqn:E3, (253402300799 <? z)%Z eqn:E4,
           (-62135596800 <=? z)%Z eqn:E5, (z <=? 253402300799)%Z eqn:E6;
    try reflexivity; lia.
Qed.

(** The seconds stored for an instant of the years 1 to 9999 in UTC
    are seconds of these years. *)
Lemma stored_seconds_in_range us z :
  (z = us ÷ 1000000 \/ z = us ÷ 1000000 + Z.sgn us)%Z ->
  (Z.rem us 1000000 = 0%Z -> z = (us ÷ 1000000)%Z) ->
  (MIN_TIMESTAMP * 1000000 <= us <= MAX_TIMESTAMP * 1000000)%Z ->
  (MIN_TIMESTAMP <= z <= MAX_TIMESTAMP)%Z.
Proof.
  unfold MIN_TIMESTAMP, MAX_TIMESTAMP. intros A B R.
  destruct (Z.lt_trichotomy us 0) as [N|[->|P]].
  - rewrite Z.sgn_neg in A by lia.
    destruct (Z.eq_dec (Z.rem us 1000000) 0%Z) as [E|E].
    + rewrite (B E). Z.to_euclidean_division_equations. lia.
    + destruct A as [-> | ->]; Z.to_euclidean_division_equations; lia.
  - destruct A as [-> | ->]; Z.to_euclidean_division_equations; lia.
  - rewrite Z.sgn_pos in A by lia.
    destruct (Z.eq_dec (Z.rem us 1000000) 0%Z) as [E|E].
    + rewrite (B E). Z.to_euclidean_division_equations. lia.
    + destruct A as [-> | ->]; Z.to_euclidean_division_equations; lia.
Qed.

(** X13.  The builder takes an instant of the years 1 to 9999 in any
    time zone, [us] microseconds from the epoch on the clock of UTC.
    It stores a number [z] of seconds: [us] cut to the second toward
    zero, or the next second away from zero.  The getter returns the
    instant [z] seconds from the epoch, in UTC, or raises [ValueError]
    when that is outside the years 1 to 9999, which does not happen
    for an instant that in UTC lies between the first and the last
    whole second of these years.  Instants that are the same in
    different time zones give the same claim set. *)
Theorem instants_are_read_back_in_utc t off :
  valid_datetime t -> tzinfo t = Some off ->
  let us := (wall_us t - off)%Z in
  exists z,
    (z = us ÷ 1000000 \/ z = us ÷ 1000000 + Z.sgn us)%Z /\
    ((MIN_TIMESTAMP * 1000000 <= us <= MAX_TIMESTAMP * 1000000)%Z ->
     instant_of_seconds z
     = Ok {| wall_us := z * 1000000; tzinfo := Some utc |}) /\
    (exists jwt, only_exp t = Ok jwt /\
                 py_getitem (_payload jwt) (text "exp") = Ok (PInt z) /\
                 expiration jwt = instant_of_seconds z) /\
    (exists jwt, only_nbf t = Ok jwt /\
                 py_getitem (_payload jwt) (text "nbf") = Ok (PInt z) /\
                 not_before jwt = instant_of_seconds z) /\
    (exists jwt, only_iat t = Ok jwt /\
                 py_getitem (_payload jwt) (text "iat") = Ok (PInt z) /\
                 issued_at jwt = instant_of_seconds z) /\
    (forall t' off',
       tzinfo t' = Some off' -> (wall_us t' - off')%Z = us ->
       only_exp t' = only_exp t /\ only_nbf t' = only_nbf t /\
       only_iat t' = only_iat t).
Proof.
  intros V E us. pose proof (valid_datetime_us t off V E) as B.
  fold us in B.
  assert (U53 : (Z.abs us < 2 ^ 53 * 1000000)%Z)
    by (unfold MIN_TIMESTAMP, MAX_TIMESTAMP in B; lia).
  destruct (int_of_seconds_spec us U53) as (A & R & _).
  assert (T : timestamp_us t off = us) by reflexivity.
  assert (U : utc_of_us (int_of_seconds us * 1000000)
              = instant_of_seconds (int_of_seconds us)).
  { apply utc_of_seconds. unfold MIN_TIMESTAMP, MAX_TIMESTAMP in *.
    destruct (Z.lt_trichotomy us 0) as [N|[Z0|P]].
    - rewrite Z.sgn_neg in A by lia.
      destruct A as [-> | ->]; Z.to_euclidean_division_equations; lia.
    - rewrite Z0 in *.
      destruct A as [-> | ->]; Z.to_euclidean_division_equations; lia.
    - rewrite Z.sgn_pos in A by lia.
      destruct A as [-> | ->]; Z.to_euclidean_division_equations; lia. }
  exists (int_of_seconds us). split; [exact A|]. split.
  { intros I. pose proof (stored_seconds_in_range us _ A R I) as [L H].
    unfold instant_of_seconds.
    apply Z.leb_le in L, H. rewrite L, H. reflexivity. }
  split; [|split; [|split]].
  - eexists. split; [exact (only_exp_aware t off E)|]. rewrite T.
    split; [reflexivity|exact U].
  - eexists. split; [exact (only_nbf_aware t off E)|]. rewrite T.
    split; [reflexivity|exact U].
  - eexists. split; [exact (only_iat_aware t off E)|]. rewrite T.
    split; [reflexivity|exact U].
  - intros t' off' E' T'.
    rewrite (only_exp_aware t' off' E'), (only_exp_aware t off E),
      (only_nbf_aware t' off' E'), (only_nbf_aware t off E),
      (only_iat_aware t' off' E'), (only_iat_aware t off E).
    unfold timestamp_us. rewrite T'. repeat split.
Qed.

(** [instants_are_read_back_in_utc] on the last second of the year
    9999 in a zone one hour behind UTC: the builder takes it, the
    getter raises. *)
Lemma instants_are_read_back_in_utc_witness :
  exists jwt,
    only_exp {| wall_us := 253402300799000000;
                tzinfo := Some (-3600000000)%Z |} = Ok jwt /\
    expiration jwt = Err ValueError.
Proof.
  destruct (instants_are_read_back_in_utc
              {| wall_us := 253402300799000000;
                 tzinfo := Some (-3600000000)%Z |} (-3600000000)%Z)
    as (z & A & _ & (jwt & H & _ & G) & _).
  - split; [split; vm_compute; discriminate|split; reflexivity].
  - reflexivity.
  - exists jwt. split; [exact H|]. rewrite G.
    destruct A as [-> | ->]; reflexivity.
Defined.

(** ** Instants of a JSON object *)

(** X14.  A claim set parsed from a JSON object in which [exp], [nbf]
    or [iat] is a whole number of seconds within the years 1 to 9999
    has the getter return that instant, in UTC. *)
Theorem parsed_instants_are_read_in_utc s d jwt z :
  json_loads s = Ok (PDict d) -> from_json_payload s = Ok jwt ->
  (MIN_TIMESTAMP <= z <= MAX_TIMESTAMP)%Z ->
  (dict_get d (text "exp") = Some (PInt z) ->
   expiration jwt = Ok {| wall_us := z * 1000000; tzinfo := Some utc |}) /\
  (dict_get d (text "nbf") = Some (PInt z) ->
   not_before jwt = Ok {| wall_us := z * 1000000; tzinfo := Some utc |}) /\
  (dict_get d (text "iat") = Some (PInt z) ->
   issued_at jwt = Ok {| wall_us := z * 1000000; tzinfo := Some utc |}).
Proof.
  intros L H R. unfold from_json_payload in H. rewrite L in H.
  cbn [bind] in H. destruct (init_dict_payload d jwt H) as (d' & E & K & _).
  unfold expiration, not_before, issued_at. rewrite E. cbn [py_getitem].
  rewrite (K (text "exp")), (K (text "nbf")), (K (text "iat"))
    by discriminate.
  repeat split; intros ->; cbn [bind]; unfold _to_datetime;
    cbn [fromtimestamp_utc]; apply utc_of_whole_seconds; exact R.
Qed.

(** [parsed_instants_are_read_in_utc] on the text [{"exp": 60}]. *)
Lemma parsed_instants_are_read_in_utc_witness :
  exists jwt,
    from_json_payload (123 :: quoted "exp" ++ text ": 60}") = Ok jwt /\
    expiration jwt = Ok {| wall_us := 60000000; tzinfo := Some utc |}.
Proof.
  pose (s := 123 :: quoted "exp" ++ text ": 60}").
  pose (jwt := {| _payload := PDict [(PStr (text "exp"), PInt 60)] |}).
  destruct (parsed_instants_are_read_in_utc s
              [(PStr (text "exp"), PInt 60)] jwt 60 eq_refl eq_refl)
    as (H & _).
  - unfold MIN_TIMESTAMP, MAX_TIMESTAMP. lia.
  - exists jwt. split; [reflexivity|exact (H eq_refl)].
Defined.

(** ** The list of audiences *)

Lemma strings_no_refs items :
  Forall (fun v => exists s, v = Store.VStr s) items ->
  Store.refs_of_values items = [].
Proof.
  induction 1 as [|v items [s ->] _ IH]; [reflexivity|exact IH].
Qed.

(** X15.  [audiences] returns a new list.  On a claim set whose
    audiences are a list of strings it returns an object that did not
    exist before, with the items of the stored list; whatever the
    caller then does to the objects it can reach from it, the stored
    list is as it was: a later [audiences] returns the same items and
    [json_payload] the same text. *)
Theorem audiences_returns_new_list st payload la items :
  Store.getitem st payload (text "aud") = Ok (Store.VRef la) ->
  st !! la = Some (Store.OList items) ->
  Forall (fun v => exists s, v = Store.VStr s) items ->
  StoreAccess.audiences st payload
    = Ok (st ++ [Store.OList items], Store.VRef (length st)) /\
  forall st2 roots2,
    Store.steps (st ++ [Store.OList items], [length st]) (st2, roots2) ->
    st2 !! la = Some (Store.OList items) /\
    StoreAccess.audiences st2 payload
      = Ok (st2 ++ [Store.OList items], Store.VRef (length st2)) /\
    (forall p, Store.read (length st) st payload = Some p ->
               Store.json_payload st2 payload = Store.json_payload st payload).
Proof.
  intros G L F.
  assert (A : forall st', st' !! la = Some (Store.OList items) ->
    Store.getitem st' payload (text "aud") = Ok (Store.VRef la) ->
    StoreAccess.audiences st' payload
      = Ok (st' ++ [Store.OList items], Store.VRef (length st'))).
  { intros st' L' G'. unfold StoreAccess.audiences. rewrite G'. cbn [bind].
    unfold StoreAccess.py_list.
    change Store.store with (list Store.object) in *. rewrite L'.
    reflexivity. }
  split; [exact (A st L G)|]. intros st2 roots2 S.
  assert (Sep : separated st (st ++ [Store.OList items], [length st])).
  { repeat split; cbn [fst snd].
    - apply agree_app.
    - rewrite length_app. lia.
    - constructor; [lia|constructor].
    - pose proof (region_closed_snoc st [] (Store.OList items)) as C.
      rewrite app_nil_r in C. apply C; [apply region_closed_nil|].
      cbn [Store.refs_of]. rewrite (strings_no_refs items F). constructor. }
  apply (steps_separated st _ _ S) in Sep.
  destruct Sep as (A2 & L2 & _ & _). cbn [fst snd] in *.
  assert (L' : st2 !! la = Some (Store.OList items)).
  { rewrite A2; [exact L|]. eapply lookup_lt_Some. exact L. }
  split; [exact L'|]. split.
  - apply A; [exact L'|]. exact (getitem_stable st st2 _ _ _ A2 G).
  - intros p Rp. unfold Store.json_payload.
    rewrite (read_stable st st2 A2 _ _ payload p L2 Rp), Rp. reflexivity.
Qed.

(** [audiences_returns_new_list] on the claim set [{"aud": ["you"]}]:
    the caller empties the list it was given; the claim set still has
    its audience. *)
Lemma audiences_returns_new_list_witness :
  let st := [Store.OList [Store.VStr (text "you")];
             Store.ODict [(text "aud", Store.VRef 0)]] in
  let st1 := st ++ [Store.OList [Store.VStr (text "you")]] in
  let st2 := <[2%nat := Store.OList []]> st1 in
  StoreAccess.audiences st (Store.VRef 1) = Ok (st1, Store.VRef 2) /\
  Store.read 3 st2 (Store.VRef 2) = Some (PList []) /\
  StoreAccess.audiences st2 (Store.VRef 1)
    = Ok (st2 ++ [Store.OList [Store.VStr (text "you")]], Store.VRef 3).
Proof.
  intros st st1 st2.
  destruct (audiences_returns_new_list st (Store.VRef 1) 0%nat
              [Store.VStr (text "you")] eq_refl eq_refl
              ltac:(repeat constructor; eexists; reflexivity)) as [H1 H2].
  split; [exact H1|]. split; [reflexivity|].
  assert (S : Store.steps (st1, [2%nat]) (st2, [2%nat])).
  { eapply Store.steps_cons; [|apply Store.steps_refl].
    apply Store.step_write; [|constructor].
    exists 2%nat. split; [left; reflexivity|constructor]. }
  destruct (H2 st2 [2%nat] S) as (_ & H3 & _). exact H3.
Defined.

(** ** The text of a claim set *)

(** X16.  The text of a claim set made by one of the two factories.
    The payload of such a claim set holds nothing that JSON cannot
    express, so that [json_payload] does not raise [TypeError]; the
    text it returns is ASCII, and what [json.loads] reads from that
    text, when it reads it, is the payload in canonical form. *)
Theorem json_payload_is_ascii_json jwt :
  constructed jwt ->
  json_payload jwt <> Err TypeError /\
  forall t, json_payload jwt = Ok t ->
    ascii_str t /\
    forall p, json_loads t = Ok p -> p = canon (_payload jwt).
Proof.
  intros C. destruct (constructed_sound jwt C) as [[J V] _].
  destruct (encode_ok _ (json_value_encodable _ J)) as [t E].
  unfold json_payload, json_dumps. rewrite E. split; [discriminate|].
  intros t' [= <-]. split.
  - exact (ascii_encode _ t V E).
  - intros p L. rewrite (loads_dumps _ t V E) in L. congruence.
Qed.

(** [json_payload_is_ascii_json] on a claim set whose issuer is
    outside ASCII. *)
Lemma json_payload_is_ascii_json_witness :
  exists t,
    json_payload {| _payload := PDict [(PStr (text "iss"), PStr [233])] |}
      = Ok t /\ ascii_str t.
Proof.
  destruct (json_payload_is_ascii_json
              {| _payload := PDict [(PStr (text "iss"), PStr [233])] |})
    as (_ & H).
  - apply (constructed_create (PStr [233]) PNone PNone PNone
             None None None []);
      [cbn; unfold valid_str; repeat constructor|exact I|exact I|exact I
      |constructor|reflexivity].
  - eexists. split; [reflexivity|]. exact (proj1 (H _ eq_refl)).
Defined.
